(** * Livo-API-v2: the caching and staleness layer

    A shallow embedding of the JavaScript sources

      - [lib/cache.js]    ([buildCacheKeyFromUrl], [cacheGet], [cacheSet]),
      - [lib/db_shim.js]  ([makeBinder]: [first], [all], [run]),
      - [routes/series.js] and the record-store variant of the movie routes

    together with the parts of the JavaScript runtime they rely on
    (numbers, coercions, JSON text, a Redis client), and the properties
    of the specification that are stated about them. *)

From Stdlib Require Import ZArith NArith List String Ascii Bool Lia Permutation Sorted.
From stdpp Require Import base option list gmap strings.

Local Open Scope string_scope.
Local Open Scope Z_scope.

(** ** Characters and decimal digits *)

Definition dquote : ascii := ascii_of_nat 34.
Definition backslash : ascii := ascii_of_nat 92.

Definition code (c : ascii) : N := N_of_ascii c.

Definition is_digit (c : ascii) : bool :=
  ((48 <=? code c) && (code c <=? 57))%N.

Definition digit_val (c : ascii) : N := (code c - 48)%N.

Definition digit_char (d : N) : ascii := ascii_of_N (48 + d).

(** Longest prefix of decimal digits, and what follows it. *)
Fixpoint span_digits (s : string) : string * string :=
  match s with
  | String c r =>
      if is_digit c
      then let '(d, t) := span_digits r in (String c d, t)
      else (EmptyString, s)
  | EmptyString => (EmptyString, EmptyString)
  end.

(** Value of a digit string, most significant digit first. *)
Fixpoint digits_value (acc : N) (s : string) : N :=
  match s with
  | EmptyString => acc
  | String c r => digits_value (acc * 10 + digit_val c) r
  end.

(** The decimal digits of [n], without leading zeros ([fuel] bounds the
    number of digits). *)
Fixpoint digits_aux (fuel : nat) (n : N) (acc : string) : string :=
  match fuel with
  | O => acc
  | S f =>
      let acc' := String (digit_char (n mod 10)) acc in
      if (n / 10 =? 0)%N then acc' else digits_aux f (n / 10) acc'
  end.

Definition digits (n : N) : string := digits_aux (S (N.size_nat n)) n EmptyString.

(** Exactly [e] digits: the low [e] decimal digits of [n]. *)
Fixpoint fixed_digits (e : nat) (n : N) (acc : string) : string :=
  match e with
  | O => acc
  | S e' => fixed_digits e' (n / 10) (String (digit_char (n mod 10)) acc)
  end.

(** ** JavaScript numbers

    A finite number is a decimal [m * 10^-e]; [NaN] is the only
    non-finite value the code under study can produce.  Infinities,
    negative zero and the rounding of IEEE doubles are outside the
    model. *)

Inductive num := NaN | Dec (m : Z) (e : nat).

Definition pow10 (e : nat) : Z := 10 ^ Z.of_nat e.

Definition Int (z : Z) : num := Dec z 0.

(** [a === b] on numbers. *)
Definition num_eqb (a b : num) : bool :=
  match a, b with
  | Dec m1 e1, Dec m2 e2 => m1 * pow10 e2 =? m2 * pow10 e1
  | _, _ => false
  end.

(** [a > b] and [a <= b]; every comparison with [NaN] is false. *)
Definition num_gtb (a b : num) : bool :=
  match a, b with
  | Dec m1 e1, Dec m2 e2 => m2 * pow10 e1 <? m1 * pow10 e2
  | _, _ => false
  end.

Definition num_leb (a b : num) : bool :=
  match a, b with
  | Dec m1 e1, Dec m2 e2 => m1 * pow10 e2 <=? m2 * pow10 e1
  | _, _ => false
  end.

Definition num_sub (a b : num) : num :=
  match a, b with
  | Dec m1 e1, Dec m2 e2 => Dec (m1 * pow10 e2 - m2 * pow10 e1) (e1 + e2)
  | _, _ => NaN
  end.

(** [Math.floor]. *)
Definition num_floor (a : num) : num :=
  match a with
  | Dec m e => Dec (m / pow10 e) 0
  | NaN => NaN
  end.

(** The shortest decimal writing of [m * 10^-e]: trailing zeros of the
    fraction are dropped. *)
Fixpoint norm_dec (m : Z) (e : nat) : num :=
  match e with
  | O => Dec m 0
  | S e' => if m mod 10 =? 0 then norm_dec (m / 10) e' else Dec m e
  end.

Definition norm (a : num) : num :=
  match a with
  | NaN => NaN
  | Dec m e => norm_dec m e
  end.

(** Decimal text of a number whose fraction has exactly [e] digits. *)
Definition dec_text (m : Z) (e : nat) : string :=
  let a := Z.to_N (Z.abs m) in
  let p := Z.to_N (pow10 e) in
  (if m <? 0 then "-" else "") +:+
  digits (a / p) +:+
  match e with
  | O => ""
  | S _ => String "."%char (fixed_digits e (a mod p) "")
  end.

(** [Number.prototype.toString] (radix 10). *)
Definition num_to_string (a : num) : string :=
  match norm a with
  | NaN => "NaN"
  | Dec m e => dec_text m e
  end.

(** *** Reading decimal literals *)

(** Optional fraction, [.ddd].  With [strict] at least one digit must
    follow the point (the JSON grammar). *)
Definition scan_frac (strict : bool) (s : string) : option (string * string) :=
  match s with
  | String c r =>
      if Ascii.eqb c "."%char
      then let '(f, r') := span_digits r in
           if strict && String.eqb f "" then None else Some (f, r')
      else Some ("", s)
  | EmptyString => Some ("", "")
  end.

(** Optional exponent, [e+dd]. *)
Definition scan_exp (s : string) : option (Z * string) :=
  match s with
  | String c r =>
      if Ascii.eqb c "e"%char || Ascii.eqb c "E"%char then
        let '(neg, r1) :=
          match r with
          | String c' r' =>
              if Ascii.eqb c' "-"%char then (true, r')
              else if Ascii.eqb c' "+"%char then (false, r')
              else (false, r)
          | EmptyString => (false, r)
          end in
        let '(d, r2) := span_digits r1 in
        if String.eqb d "" then None
        else
          let x := Z.of_N (digits_value 0 d) in
          Some (if neg then - x else x, r2)
      else Some (0, s)
  | EmptyString => Some (0, "")
  end.

(** The number [±(ip.fp) * 10^x]. *)
Definition mk_num (neg : bool) (ip fp : string) (x : Z) : num :=
  let mant := Z.of_N (digits_value 0 (ip +:+ fp)) in
  let m := if neg then - mant else mant in
  let t := x - Z.of_nat (String.length fp) in
  if 0 <=? t then Dec (m * 10 ^ t) 0 else norm_dec m (Z.to_nat (- t)).

(** A JSON number at the head of [s]. *)
Definition scan_json_number (s : string) : option (num * string) :=
  let '(neg, s1) :=
    match s with
    | String c r => if Ascii.eqb c "-"%char then (true, r) else (false, s)
    | EmptyString => (false, s)
    end in
  let '(ip, s2) := span_digits s1 in
  match ip with
  | EmptyString => None
  | String c0 rest0 =>
      if Ascii.eqb c0 "0"%char && negb (String.eqb rest0 "") then None
      else
        match scan_frac true s2 with
        | None => None
        | Some (fp, s3) =>
            match scan_exp s3 with
            | None => None
            | Some (x, s4) => Some (mk_num neg ip fp x, s4)
            end
        end
  end.

Definition is_space (c : ascii) : bool :=
  Ascii.eqb c " "%char || ((9 <=? code c) && (code c <=? 13))%N.

Fixpoint skip_ws (s : string) : string :=
  match s with
  | String c r => if is_space c then skip_ws r else s
  | EmptyString => EmptyString
  end.

Fixpoint all_space (s : string) : bool :=
  match s with
  | String c r => is_space c && all_space r
  | EmptyString => true
  end.

(** [StringToNumber]: the decimal literals; hexadecimal, octal and
    binary literals and [Infinity] are outside the model and read as
    [NaN]. *)
Definition string_to_num (s : string) : num :=
  match skip_ws s with
  | EmptyString => Int 0
  | String c r as t =>
      let '(neg, s1) :=
        if Ascii.eqb c "-"%char then (true, r)
        else if Ascii.eqb c "+"%char then (false, r)
        else (false, t) in
      let '(ip, s2) := span_digits s1 in
      match scan_frac false s2 with
      | None => NaN
      | Some (fp, s3) =>
          if String.eqb ip "" && String.eqb fp "" then NaN
          else
            match scan_exp s3 with
            | None => NaN
            | Some (x, s4) => if all_space s4 then mk_num neg ip fp x else NaN
            end
      end
  end.

(** ** JavaScript values *)

#[warnings="-register-all"]
Inductive jsval :=
| VUndef
| VNull
| VBool (b : bool)
| VNum (n : num)
| VStr (s : string)
| VArr (l : list jsval)
| VObj (fs : list (string * jsval)).

Definition VInt (z : Z) : jsval := VNum (Int z).

Definition is_nullish (v : jsval) : bool :=
  match v with VUndef | VNull => true | _ => false end.

Definition is_undefined (v : jsval) : bool :=
  match v with VUndef => true | _ => false end.

Definition is_null (v : jsval) : bool :=
  match v with VNull => true | _ => false end.

Definition is_object (v : jsval) : bool :=
  match v with VObj _ => true | _ => false end.

(** [Array.isArray]. *)
Definition isArray (v : jsval) : bool :=
  match v with VArr _ => true | _ => false end.

(** [typeof v === "number"]. *)
Definition is_number (v : jsval) : bool :=
  match v with VNum _ => true | _ => false end.

(** [ToBoolean]. *)
Definition truthy (v : jsval) : bool :=
  match v with
  | VUndef | VNull => false
  | VBool b => b
  | VNum NaN => false
  | VNum (Dec m _) => negb (m =? 0)
  | VStr s => negb (String.eqb s "")
  | VArr _ | VObj _ => true
  end.

(** [a || b] and [a ?? b]. *)
Definition js_or (a b : jsval) : jsval := if truthy a then a else b.
Definition js_nullish (a b : jsval) : jsval := if is_nullish a then b else a.

(** [v === n] for a number literal [n]. *)
Definition seq_num (v : jsval) (n : num) : bool :=
  match v with VNum x => num_eqb x n | _ => false end.

Fixpoint join (sep : string) (l : list string) : string :=
  match l with
  | [] => ""
  | [x] => x
  | x :: r => x +:+ sep +:+ join sep r
  end.

(** [ToString] (what a template literal does to an interpolated value). *)
Fixpoint to_string (v : jsval) : string :=
  match v with
  | VUndef => "undefined"
  | VNull => "null"
  | VBool true => "true"
  | VBool false => "false"
  | VNum n => num_to_string n
  | VStr s => s
  | VArr l =>
      join "," (map (fun x => if is_nullish x then "" else to_string x) l)
  | VObj _ => "[object Object]"
  end.

(** [Number(v)]. *)
Definition to_number (v : jsval) : num :=
  match v with
  | VUndef => NaN
  | VNull => Int 0
  | VBool true => Int 1
  | VBool false => Int 0
  | VNum n => n
  | VStr s => string_to_num s
  | VArr _ => string_to_num (to_string v)
  | VObj _ => NaN
  end.

(** *** Objects as ordered field lists *)

Fixpoint obj_lookup (fs : list (string * jsval)) (k : string) : option jsval :=
  match fs with
  | [] => None
  | (k', v) :: r => if String.eqb k' k then Some v else obj_lookup r k
  end.

(** [o[k] = v]: an existing property keeps its place, a new one goes last. *)
Fixpoint obj_set (fs : list (string * jsval)) (k : string) (v : jsval)
  : list (string * jsval) :=
  match fs with
  | [] => [(k, v)]
  | (k', v') :: r =>
      if String.eqb k' k then (k, v) :: r else (k', v') :: obj_set r k v
  end.

(** [v.k] where [v] is known not to be [null] or [undefined]. *)
Definition field (v : jsval) (k : string) : jsval :=
  match v with
  | VObj fs => default VUndef (obj_lookup fs k)
  | VArr l => if String.eqb k "length" then VInt (Z.of_nat (length l)) else VUndef
  | VStr s => if String.eqb k "length" then VInt (Z.of_nat (String.length s)) else VUndef
  | _ => VUndef
  end.

(** ** Exceptions and the state of the key-value backend *)

Inductive exn :=
| TypeError
| RedisError
| FetchError.

Inductive outcome (A : Type) :=
| Ok (a : A)
| Throw (e : exn).
Arguments Ok {A} a.
Arguments Throw {A} e.

(** [v.k]: reading a property of [null] or [undefined] throws. *)
Definition get_prop (v : jsval) (k : string) : outcome jsval :=
  if is_nullish v then Throw TypeError else Ok (field v k).

(** [v?.k]. *)
Definition get_opt (v : jsval) (k : string) : jsval :=
  if is_nullish v then VUndef else field v k.

(** ** JSON text

    [JSON.stringify] and [JSON.parse] for the values above.  Strings
    are byte strings (UTF-8); a [\uXXXX] escape is decoded to the UTF-8
    bytes of that code unit, surrogate pairs are not combined. *)

Definition is_jspace (c : ascii) : bool :=
  Ascii.eqb c " "%char || Ascii.eqb c (ascii_of_nat 9)
  || Ascii.eqb c (ascii_of_nat 10) || Ascii.eqb c (ascii_of_nat 13).

Fixpoint skip_jws (s : string) : string :=
  match s with
  | String c r => if is_jspace c then skip_jws r else s
  | EmptyString => EmptyString
  end.

Definition hex_char (d : N) : ascii :=
  if (d <? 10)%N then ascii_of_N (48 + d) else ascii_of_N (87 + d).

Definition hex_val (c : ascii) : option N :=
  let n := code c in
  if ((48 <=? n) && (n <=? 57))%N then Some (n - 48)%N
  else if ((97 <=? n) && (n <=? 102))%N then Some (n - 87)%N
  else if ((65 <=? n) && (n <=? 70))%N then Some (n - 55)%N
  else None.

Definition hex4 (a b c d : ascii) : option N :=
  match hex_val a, hex_val b, hex_val c, hex_val d with
  | Some x, Some y, Some z, Some w => Some (((x * 16 + y) * 16 + z) * 16 + w)%N
  | _, _, _, _ => None
  end.

(** UTF-8 bytes of a code unit below 2^16, in front of [k]. *)
Definition utf8 (n : N) (k : string) : string :=
  if (n <? 128)%N then String (ascii_of_N n) k
  else if (n <? 2048)%N then
    String (ascii_of_N (192 + n / 64)) (String (ascii_of_N (128 + n mod 64)) k)
  else
    String (ascii_of_N (224 + n / 4096))
      (String (ascii_of_N (128 + (n / 64) mod 64))
         (String (ascii_of_N (128 + n mod 64)) k)).

(** One character of a string literal, as [JSON.stringify] writes it. *)
Definition esc_char (c : ascii) (k : string) : string :=
  if Ascii.eqb c dquote then String backslash (String dquote k)
  else if Ascii.eqb c backslash then String backslash (String backslash k)
  else if Ascii.eqb c (ascii_of_nat 8) then String backslash (String "b"%char k)
  else if Ascii.eqb c (ascii_of_nat 9) then String backslash (String "t"%char k)
  else if Ascii.eqb c (ascii_of_nat 10) then String backslash (String "n"%char k)
  else if Ascii.eqb c (ascii_of_nat 12) then String backslash (String "f"%char k)
  else if Ascii.eqb c (ascii_of_nat 13) then String backslash (String "r"%char k)
  else if (code c <? 32)%N then
    String backslash (String "u"%char (String "0"%char (String "0"%char
      (String (hex_char (code c / 16)) (String (hex_char (code c mod 16)) k)))))
  else String c k.

Fixpoint esc_string (s : string) (k : string) : string :=
  match s with
  | EmptyString => k
  | String c r => esc_char c (esc_string r k)
  end.

Definition emit_string (s : string) (k : string) : string :=
  String dquote (esc_string s (String dquote k)).

Definition unescape (e : ascii) : option ascii :=
  if Ascii.eqb e dquote then Some dquote
  else if Ascii.eqb e backslash then Some backslash
  else if Ascii.eqb e "/"%char then Some "/"%char
  else if Ascii.eqb e "b"%char then Some (ascii_of_nat 8)
  else if Ascii.eqb e "t"%char then Some (ascii_of_nat 9)
  else if Ascii.eqb e "n"%char then Some (ascii_of_nat 10)
  else if Ascii.eqb e "f"%char then Some (ascii_of_nat 12)
  else if Ascii.eqb e "r"%char then Some (ascii_of_nat 13)
  else None.

(** The characters of a string literal up to its closing quote. *)
Fixpoint read_string (s : string) : option (string * string) :=
  match s with
  | EmptyString => None
  | String c r =>
      if Ascii.eqb c dquote then Some (EmptyString, r)
      else if Ascii.eqb c backslash then
        match r with
        | EmptyString => None
        | String e r1 =>
            if Ascii.eqb e "u"%char then
              match r1 with
              | String h1 (String h2 (String h3 (String h4 r2))) =>
                  match hex4 h1 h2 h3 h4 with
                  | Some n =>
                      match read_string r2 with
                      | Some (t, r3) => Some (utf8 n t, r3)
                      | None => None
                      end
                  | None => None
                  end
              | _ => None
              end
            else
              match unescape e with
              | Some c' =>
                  match read_string r1 with
                  | Some (t, r3) => Some (String c' t, r3)
                  | None => None
                  end
              | None => None
              end
        end
      else if (code c <? 32)%N then None
      else
        match read_string r with
        | Some (t, r3) => Some (String c t, r3)
        | None => None
        end
  end.

(** What is left of a value once it went through [JSON.stringify] and
    [JSON.parse]: properties holding [undefined] are gone, [undefined]
    and [NaN] elsewhere are [null]. *)
Fixpoint toJSON (v : jsval) : jsval :=
  match v with
  | VUndef => VNull
  | VNull => VNull
  | VBool b => VBool b
  | VNum n => match norm n with NaN => VNull | d => VNum d end
  | VStr s => VStr s
  | VArr l => VArr (map toJSON l)
  | VObj fs =>
      VObj ((fix props (fs : list (string * jsval)) (acc : list (string * jsval)) :=
               match fs with
               | [] => acc
               | (k, x) :: r =>
                   props r (if is_undefined x then acc else obj_set acc k (toJSON x))
               end) fs [])
  end.

(** The text of a JSON value, followed by [k]. *)
Fixpoint emit (v : jsval) (k : string) : string :=
  match v with
  | VUndef | VNull => "null" +:+ k
  | VBool true => "true" +:+ k
  | VBool false => "false" +:+ k
  | VNum NaN => "null" +:+ k
  | VNum (Dec m e) => dec_text m e +:+ k
  | VStr s => emit_string s k
  | VArr l =>
      String "["%char
        ((fix elems (l : list jsval) : string :=
            match l with
            | [] => String "]"%char k
            | x :: r =>
                emit x (match r with
                        | [] => String "]"%char k
                        | _ :: _ => String ","%char (elems r)
                        end)
            end) l)
  | VObj fs =>
      String "{"%char
        ((fix members (fs : list (string * jsval)) : string :=
            match fs with
            | [] => String "}"%char k
            | (key, x) :: r =>
                emit_string key
                  (String ":"%char
                     (emit x (match r with
                              | [] => String "}"%char k
                              | _ :: _ => String ","%char (members r)
                              end)))
            end) fs)
  end.

(** The loops inside [toJSON] and [emit], by name. *)
Fixpoint toJSON_props (fs acc : list (string * jsval)) : list (string * jsval) :=
  match fs with
  | [] => acc
  | (k, x) :: r =>
      toJSON_props r (if is_undefined x then acc else obj_set acc k (toJSON x))
  end.

Fixpoint emit_elems (l : list jsval) (k : string) : string :=
  match l with
  | [] => String "]"%char k
  | x :: r =>
      emit x (match r with
              | [] => String "]"%char k
              | _ :: _ => String ","%char (emit_elems r k)
              end)
  end.

Fixpoint emit_members (fs : list (string * jsval)) (k : string) : string :=
  match fs with
  | [] => String "}"%char k
  | (key, x) :: r =>
      emit_string key
        (String ":"%char
           (emit x (match r with
                    | [] => String "}"%char k
                    | _ :: _ => String ","%char (emit_members r k)
                    end)))
  end.

(** [JSON.stringify(v)]; it yields [undefined], not a text, for
    [undefined]. *)
Definition JSON_stringify (v : jsval) : option string :=
  if is_undefined v then None else Some (emit (toJSON v) "").

(** [s] without its prefix [p]. *)
Fixpoint strip_prefix (p s : string) : option string :=
  match p with
  | EmptyString => Some s
  | String a p' =>
      match s with
      | String b s' => if Ascii.eqb a b then strip_prefix p' s' else None
      | EmptyString => None
      end
  end.

Fixpoint parse_value (fuel : nat) (s : string) : option (jsval * string) :=
  match fuel with
  | O => None
  | S f =>
      match skip_jws s with
      | EmptyString => None
      | String c r as t =>
          if Ascii.eqb c "-"%char || is_digit c then
            match scan_json_number t with
            | Some (n, r') => Some (VNum n, r')
            | None => None
            end
          else if Ascii.eqb c dquote then
            match read_string r with
            | Some (str, r') => Some (VStr str, r')
            | None => None
            end
          else if Ascii.eqb c "["%char then
            match skip_jws r with
            | String c' r' =>
                if Ascii.eqb c' "]"%char then Some (VArr [], r')
                else
                  match parse_elems f r with
                  | Some (l, r'') => Some (VArr l, r'')
                  | None => None
                  end
            | EmptyString => None
            end
          else if Ascii.eqb c "{"%char then
            match skip_jws r with
            | String c' r' =>
                if Ascii.eqb c' "}"%char then Some (VObj [], r')
                else
                  match parse_members f r [] with
                  | Some (fs, r'') => Some (VObj fs, r'')
                  | None => None
                  end
            | EmptyString => None
            end
          else if Ascii.eqb c "n"%char then
            match strip_prefix "ull" r with
            | Some r' => Some (VNull, r')
            | None => None
            end
          else if Ascii.eqb c "t"%char then
            match strip_prefix "rue" r with
            | Some r' => Some (VBool true, r')
            | None => None
            end
          else if Ascii.eqb c "f"%char then
            match strip_prefix "alse" r with
            | Some r' => Some (VBool false, r')
            | None => None
            end
          else None
      end
  end
with parse_elems (fuel : nat) (s : string) : option (list jsval * string) :=
  match fuel with
  | O => None
  | S f =>
      match parse_value f s with
      | None => None
      | Some (v, r) =>
          match skip_jws r with
          | String c r' =>
              if Ascii.eqb c ","%char then
                match parse_elems f r' with
                | Some (l, r'') => Some (v :: l, r'')
                | None => None
                end
              else if Ascii.eqb c "]"%char then Some ([v], r')
              else None
          | EmptyString => None
          end
      end
  end
with parse_members (fuel : nat) (s : string) (acc : list (string * jsval))
  : option (list (string * jsval) * string) :=
  match fuel with
  | O => None
  | S f =>
      match skip_jws s with
      | String c r =>
          if Ascii.eqb c dquote then
            match read_string r with
            | None => None
            | Some (key, r1) =>
                match skip_jws r1 with
                | String c1 r2 =>
                    if Ascii.eqb c1 ":"%char then
                      match parse_value f r2 with
                      | None => None
                      | Some (v, r3) =>
                          let acc' := obj_set acc key v in
                          match skip_jws r3 with
                          | String c3 r4 =>
                              if Ascii.eqb c3 ","%char then parse_members f r4 acc'
                              else if Ascii.eqb c3 "}"%char then Some (acc', r4)
                              else None
                          | EmptyString => None
                          end
                      end
                    else None
                | EmptyString => None
                end
            end
          else None
      | EmptyString => None
      end
  end.

(** [JSON.parse(s)]; [None] stands for the [SyntaxError] it throws. *)
Definition JSON_parse (s : string) : option jsval :=
  match parse_value (S (String.length s)) s with
  | Some (v, r) => if String.eqb (skip_jws r) "" then Some v else None
  | None => None
  end.

(** The values that JSON text can denote: no [undefined], no [NaN],
    numbers in shortest form, property names distinct. *)
Fixpoint is_json (v : jsval) : bool :=
  match v with
  | VUndef => false
  | VNull | VBool _ | VStr _ => true
  | VNum NaN => false
  | VNum (Dec m e) =>
      match norm_dec m e with
      | Dec m' e' => (m' =? m) && (e' =? e)%nat
      | NaN => false
      end
  | VArr l => forallb is_json l
  | VObj fs =>
      forallb (fun f => is_json f.2) fs && bool_decide (NoDup (map fst fs))
  end.

(** A bound on the recursion depth [parse_value] needs for the text
    of a value. *)
Fixpoint size (v : jsval) : nat :=
  match v with
  | VArr l => S (list_sum (map (fun x => S (size x)) l))
  | VObj fs => S (list_sum (map (fun f => S (size f.2)) fs))
  | _ => 1
  end.

(** ** The SQL texts of the route handlers

    The record store is addressed through statements written for the
    former SQL database; [lib/db_shim.js] chooses what to do by looking
    for table names inside the statement text, so the texts are part of
    the program. *)

Definition SQL_upsertSeries : string :=
  "INSERT INTO series_by_id (
      tmdb_id, language, genre_ids, original_language, overview, original_name,
      created_by, number_of_episodes, number_of_seasons, poster_path, first_air_date,
      name, vote_average, vote_count, updated_at
    ) VALUES (?, ?, ?, ?, ?, ?, ?, ?, ?, ?, ?, ?, ?, ?, ?)
    ON CONFLICT DO UPDATE SET
      genre_ids = excluded.genre_ids,
      original_language = excluded.original_language,
      overview = excluded.overview,
      original_name = excluded.original_name,
      created_by = excluded.created_by,
      number_of_episodes = excluded.number_of_episodes,
      number_of_seasons = excluded.number_of_seasons,
      poster_path = excluded.poster_path,
      first_air_date = excluded.first_air_date,
      name = excluded.name,
      vote_average = excluded.vote_average,
      vote_count = excluded.vote_count,
      updated_at = excluded.updated_at".

Definition SQL_upsertSeasons : string :=
  "INSERT INTO series_seasons (
        series_id, language, season_id, season_number, name, overview, poster_path,
        air_date, episode_count, vote_average, updated_at
      ) VALUES (?, ?, ?, ?, ?, ?, ?, ?, ?, ?, ?)
      ON CONFLICT DO UPDATE SET
        season_number = excluded.season_number,
        name = excluded.name,
        overview = excluded.overview,
        poster_path = excluded.poster_path,
        air_date = excluded.air_date,
        episode_count = excluded.episode_count,
        vote_average = excluded.vote_average,
        updated_at = excluded.updated_at".

Definition SQL_readSeasons : string :=
  "SELECT season_id as id, season_number, name, overview, poster_path, air_date,
            episode_count, vote_average
     FROM series_seasons WHERE series_id = ? AND language = ?
     ORDER BY season_number ASC".

Definition SQL_getSeasonCacheMeta : string :=
  "SELECT COUNT(1) as count, MAX(updated_at) as updated_at
     FROM series_episodes
     WHERE series_id = ? AND language = ? AND season_number = ?".

Definition SQL_readSeasonEpisodes : string :=
  "SELECT episode_id as id, episode_number, name, overview, still_path, air_date,
            vote_average, vote_count
     FROM series_episodes
     WHERE series_id = ? AND language = ? AND season_number = ?
     ORDER BY episode_number ASC".

Definition SQL_readSeasonGuests : string :=
  "SELECT episode_id, episode_number, guest_id as id, name, original_name, character, profile_path, order_index
     FROM episode_guest_stars
     WHERE series_id = ? AND language = ? AND season_number = ?
     ORDER BY order_index ASC".

Definition SQL_readEpisode : string :=
  "SELECT episode_id as id, episode_number, name, overview, still_path, air_date,
            vote_average, vote_count, updated_at
     FROM series_episodes
     WHERE series_id = ? AND language = ? AND season_number = ? AND episode_number = ?
     LIMIT 1".

Definition SQL_readEpisodeGuests : string :=
  "SELECT guest_id as id, name, original_name, character, profile_path, order_index
     FROM episode_guest_stars
     WHERE series_id = ? AND language = ? AND season_number = ? AND episode_number = ?
     ORDER BY order_index ASC".

Definition SQL_upsertEpisode : string :=
  "INSERT INTO series_episodes (
        series_id, language, season_number, episode_id, episode_number, name, overview,
        still_path, air_date, vote_average, vote_count, updated_at
      ) VALUES (?, ?, ?, ?, ?, ?, ?, ?, ?, ?, ?, ?)
      ON CONFLICT DO UPDATE SET
        episode_number = excluded.episode_number,
        name = excluded.name,
        overview = excluded.overview,
        still_path = excluded.still_path,
        air_date = excluded.air_date,
        vote_average = excluded.vote_average,
        vote_count = excluded.vote_count,
        updated_at = excluded.updated_at".

Definition SQL_upsertGuestStar : string :=
  "INSERT INTO episode_guest_stars (
            series_id, language, season_number, episode_id, episode_number, guest_id, name,
            original_name, character, profile_path, order_index, updated_at
          ) VALUES (?, ?, ?, ?, ?, ?, ?, ?, ?, ?, ?, ?)
          ON CONFLICT DO UPDATE SET
            name = excluded.name,
            original_name = excluded.original_name,
            character = excluded.character,
            profile_path = excluded.profile_path,
            order_index = excluded.order_index,
            updated_at = excluded.updated_at".

Definition SQL_selectSeries : string :=
  "SELECT * FROM series_by_id WHERE tmdb_id = ? AND language = ? LIMIT 1".

Definition SQL_upsertMovieByChannel : string :=
  "INSERT INTO movies_by_channel (
      channel_id, language, tmdb_id, title, overview, release_date, poster_path,
      genres, rating, rating_count, director_name, cast_names, cast_profile_paths, updated_at
    ) VALUES (?, ?, ?, ?, ?, ?, ?, ?, ?, ?, ?, ?, ?, ?)
    ON CONFLICT(channel_id, language) DO UPDATE SET
      tmdb_id = excluded.tmdb_id,
      title = excluded.title,
      overview = excluded.overview,
      release_date = excluded.release_date,
      poster_path = excluded.poster_path,
      genres = excluded.genres,
      rating = excluded.rating,
      rating_count = excluded.rating_count,
      director_name = excluded.director_name,
      cast_names = excluded.cast_names,
      cast_profile_paths = excluded.cast_profile_paths,
      updated_at = excluded.updated_at".

Definition SQL_upsertMovieById : string :=
  "INSERT INTO movies_by_id (
      tmdb_id, language, title, overview, release_date, poster_path,
      genres, rating, rating_count, director_name, cast_names, cast_profile_paths, updated_at
    ) VALUES (?, ?, ?, ?, ?, ?, ?, ?, ?, ?, ?, ?, ?)
    ON CONFLICT(tmdb_id, language) DO UPDATE SET
      title = excluded.title,
      overview = excluded.overview,
      release_date = excluded.release_date,
      poster_path = excluded.poster_path,
      genres = excluded.genres,
      rating = excluded.rating,
      rating_count = excluded.rating_count,
      director_name = excluded.director_name,
      cast_names = excluded.cast_names,
      cast_profile_paths = excluded.cast_profile_paths,
      updated_at = excluded.updated_at".

Definition SQL_selectMovieByChannel : string :=
  "SELECT * FROM movies_by_channel WHERE channel_id = ? AND language = ? LIMIT 1".

Definition SQL_selectMovieById : string :=
  "SELECT * FROM movies_by_id WHERE tmdb_id = ? AND language = ? LIMIT 1".

(** ** The key-value backend and the monad of the handlers

    Every [await] is a step in a state-and-exception monad over the
    Redis contents.  A client whose server cannot be reached rejects
    each command ([down]). *)

Record entry := Entry { raw : string; ttl : option Z }.

Record redis := Redis { down : bool; data : gmap string entry }.

Definition M (A : Type) : Type := redis -> outcome A * redis.

Definition ret {A} (a : A) : M A := fun r => (Ok a, r).

Definition throw {A} (e : exn) : M A := fun r => (Throw e, r).

Definition bind {A B} (m : M A) (k : A -> M B) : M B :=
  fun r =>
    match m r with
    | (Ok a, r') => k a r'
    | (Throw e, r') => (Throw e, r')
    end.

(** [try { m } catch (e) { h }]. *)
Definition try_catch {A} (m : M A) (h : exn -> M A) : M A :=
  fun r =>
    match m r with
    | (Ok a, r') => (Ok a, r')
    | (Throw e, r') => h e r'
    end.

Definition lift {A} (o : outcome A) : M A := fun r => (o, r).

Notation "'let*' x ':=' m 'in' k" := (bind m (fun x => k))
  (at level 10, x name, m at level 100, k at level 200).

(** [client.get(key)] and [client.set(key, raw[, "EX", seconds])]. *)
Definition client_get (key : string) : M (option string) :=
  fun r =>
    if down r then (Throw RedisError, r)
    else (Ok (raw <$> data r !! key), r).

Definition client_set (key : string) (text : string) (ex : option Z) : M unit :=
  fun r =>
    if down r then (Throw RedisError, r)
    else (Ok tt, Redis (down r) (<[key := Entry text ex]> (data r))).

(** ** lib/cache.js *)

Definition CACHE_INTERVAL_SECONDS : Z := 30 * 24 * 60 * 60.

(** A parsed request URL: [u.pathname] and the decoded entries of
    [u.searchParams], in the order of the query string. *)
Record URL := mkURL { pathname : string; searchParams : list (string * string) }.

Definition lower_char (c : ascii) : ascii :=
  if ((65 <=? code c) && (code c <=? 90))%N then ascii_of_N (code c + 32) else c.

(** [String.prototype.toLowerCase], on the ASCII letters. *)
Fixpoint toLowerCase (s : string) : string :=
  match s with
  | EmptyString => EmptyString
  | String c r => String (lower_char c) (toLowerCase r)
  end.

Definition form_safe (c : ascii) : bool :=
  let n := code c in
  ((48 <=? n) && (n <=? 57) || (65 <=? n) && (n <=? 90) || (97 <=? n) && (n <=? 122)
   || (n =? 42) || (n =? 45) || (n =? 46) || (n =? 95))%N.

Definition HEX_char (d : N) : ascii :=
  if (d <? 10)%N then ascii_of_N (48 + d) else ascii_of_N (55 + d).

(** The [application/x-www-form-urlencoded] byte serializer. *)
Fixpoint form_encode (s : string) : string :=
  match s with
  | EmptyString => EmptyString
  | String c r =>
      if form_safe c then String c (form_encode r)
      else if Ascii.eqb c " "%char then String "+"%char (form_encode r)
      else String "%"%char
             (String (HEX_char (code c / 16))
                (String (HEX_char (code c mod 16)) (form_encode r)))
  end.

(** [URLSearchParams.prototype.toString]. *)
Definition params_toString (es : list (string * string)) : string :=
  join "&" (map (fun e => form_encode e.1 +:+ "=" +:+ form_encode e.2) es).

Section KeyCodec.

(** [a.localeCompare(b)]: the collation order of the host, of which
    only the sign is used. *)
Variable localeCompare : string -> string -> Z.

(** [Array.prototype.sort] is a stable sort; with the comparator
    [([a], [b]) => a.localeCompare(b)] it is insertion from the right
    into the sorted tail. *)
Fixpoint sort_insert (x : string * string) (l : list (string * string))
  : list (string * string) :=
  match l with
  | [] => [x]
  | y :: r =>
      if 0 <? localeCompare x.1 y.1 then y :: sort_insert x r else x :: l
  end.

Fixpoint sort_entries (l : list (string * string)) : list (string * string) :=
  match l with
  | [] => []
  | x :: r => sort_insert x (sort_entries r)
  end.

Definition not_api_key (e : string * string) : bool :=
  negb (String.eqb (toLowerCase e.1) "api_key").

Definition buildCacheKeyFromUrl (u : URL) : string :=
  let entries := filter (fun e => not_api_key e = true) (searchParams u) in
  let sorted := sort_entries entries in
  let query := params_toString sorted in
  if negb (String.eqb query "") then pathname u +:+ "?" +:+ query else pathname u.

End KeyCodec.

Definition cacheGet (key : string) : M jsval :=
  let* r := client_get key in
  match r with
  | None => ret VNull
  | Some text =>
      if String.eqb text "" then ret VNull
      else
        match JSON_parse text with
        | Some v => ret v
        | None => ret VNull
        end
  end.

(** [Number.isFinite(ttlSeconds) && ttlSeconds > 0]. *)
Definition positive_finite (n : num) : bool := num_gtb n (Int 0).

Definition floor_Z (n : num) : option Z :=
  match n with Dec m e => Some (m / pow10 e) | NaN => None end.

Definition cacheSet (key : string) (valueObj : jsval) (ttlSeconds : num) : M unit :=
  let text := default "" (JSON_stringify valueObj) in
  if positive_finite ttlSeconds
  then client_set key text (floor_Z ttlSeconds)
  else client_set key text None.

(** ** lib/db_shim.js *)

Definition param (ps : list jsval) (i : nat) : jsval := nth i ps VUndef.

(** [sql.includes(t)]. *)
Fixpoint includes (t s : string) : bool :=
  String.prefix t s ||
  match s with
  | String _ r => includes t r
  | EmptyString => false
  end.

(** Calling an array method on something that has none is a [TypeError]. *)
Definition as_array (v : jsval) : outcome (list jsval) :=
  match v with
  | VArr l => Ok l
  | _ => Throw TypeError
  end.

(** [l.findIndex(cb)], [None] for [-1]; and [l.find(cb)]. *)
Fixpoint findIndex (cb : jsval -> outcome bool) (l : list jsval) : outcome (option nat) :=
  match l with
  | [] => Ok None
  | x :: r =>
      match cb x with
      | Throw e => Throw e
      | Ok true => Ok (Some O)
      | Ok false =>
          match findIndex cb r with
          | Ok (Some i) => Ok (Some (S i))
          | other => other
          end
      end
  end.

Fixpoint find (cb : jsval -> outcome bool) (l : list jsval) : outcome jsval :=
  match l with
  | [] => Ok VUndef
  | x :: r =>
      match cb x with
      | Throw e => Throw e
      | Ok true => Ok x
      | Ok false => find cb r
      end
  end.

(** [(e) => Number(e.k) === Number(id)]. *)
Definition same_number (k : string) (id : jsval) (e : jsval) : outcome bool :=
  match get_prop e k with
  | Ok x => Ok (num_eqb (to_number x) (to_number id))
  | Throw err => Throw err
  end.

(** [if (idx >= 0) arr[idx] = x; else arr.push(x);] *)
Definition put_at (idx : option nat) (x : jsval) (arr : list jsval) : list jsval :=
  match idx with
  | Some i => <[i := x]> arr
  | None => (arr ++ [x])%list
  end.

Definition movie_channel_key (channelId language : jsval) : string :=
  "/movies/channel/" +:+ to_string channelId +:+ "?lang=" +:+ to_string language.

Definition movie_id_key (tmdbId language : jsval) : string :=
  "/movies/id/" +:+ to_string tmdbId +:+ "?lang=" +:+ to_string language.

Definition series_id_key (tmdbId language : jsval) : string :=
  "/series/id/" +:+ to_string tmdbId +:+ "?lang=" +:+ to_string language.

Definition seasons_key (seriesId language : jsval) : string :=
  "/series/" +:+ to_string seriesId +:+ "/seasons?lang=" +:+ to_string language.

Definition episodes_key (seriesId seasonNumber language : jsval) : string :=
  "/series/" +:+ to_string seriesId +:+ "/season/" +:+ to_string seasonNumber
  +:+ "/episodes?lang=" +:+ to_string language.

Definition lang_or_empty (language : jsval) : jsval := js_or language (VStr "").

(** *** [first()] *)

Definition first_episode (ps : list jsval) : M jsval :=
  let key := episodes_key (param ps 0) (param ps 2) (lang_or_empty (param ps 1)) in
  let* v := cacheGet key in
  let* episodes := lift (as_array (js_or v (VArr []))) in
  let* ep := lift (find (same_number "episode_number" (param ps 3)) episodes) in
  ret (js_or ep VNull).

Definition first_body (sql : string) (ps : list jsval) : M jsval :=
  if includes "FROM movies_by_channel" sql then
    let* v := cacheGet (movie_channel_key (param ps 0) (lang_or_empty (param ps 1))) in
    ret (js_or v VNull)
  else if includes "FROM movies_by_id" sql then
    let* v := cacheGet (movie_id_key (param ps 0) (lang_or_empty (param ps 1))) in
    ret (js_or v VNull)
  else if includes "FROM series_by_id" sql then
    let* v := cacheGet (series_id_key (param ps 0) (lang_or_empty (param ps 1))) in
    ret (js_or v VNull)
  else if includes "FROM series_episodes" sql && includes "LIMIT 1" sql then
    first_episode ps
  else ret VNull.

Definition first (sql : string) (ps : list jsval) : M jsval :=
  try_catch (first_body sql ps) (fun _ => ret VNull).

(** *** [all()] *)

Definition results (arr : jsval) : jsval := VObj [("results", arr)].

Definition guest_row (ep g : jsval) : outcome jsval :=
  match get_prop g "id" with
  | Throw e => Throw e
  | Ok gid =>
      Ok (VObj [("episode_id", js_nullish (field ep "episode_id") (field ep "id"));
                ("episode_number", field ep "episode_number");
                ("guest_id", gid);
                ("name", field g "name");
                ("original_name", field g "original_name");
                ("character", field g "character");
                ("profile_path", field g "profile_path");
                ("order_index", js_nullish (field g "order") VNull)])
  end.

Fixpoint mapO {A B} (f : A -> outcome B) (l : list A) : outcome (list B) :=
  match l with
  | [] => Ok []
  | x :: r =>
      match f x with
      | Throw e => Throw e
      | Ok y =>
          match mapO f r with
          | Ok ys => Ok (y :: ys)
          | Throw e => Throw e
          end
      end
  end.

(** The guests of one stored episode, as rows. *)
Definition episode_guest_rows (ep : jsval) : outcome (list jsval) :=
  match get_prop ep "guest_stars" with
  | Throw e => Throw e
  | Ok gs =>
      match gs with
      | VArr list => mapO (guest_row ep) list
      | _ => Ok []
      end
  end.

Fixpoint flatten_guests (episodes : list jsval) : outcome (list jsval) :=
  match episodes with
  | [] => Ok []
  | ep :: r =>
      match episode_guest_rows ep with
      | Throw e => Throw e
      | Ok rows =>
          match flatten_guests r with
          | Ok rest => Ok (rows ++ rest)%list
          | Throw e => Throw e
          end
      end
  end.

(** [for (const ep of episodes)]: arrays are iterated; the characters
    of a string are iterated too and have no guests; anything else is
    not iterable. *)
Definition all_guests (ps : list jsval) : M jsval :=
  let key := episodes_key (param ps 0) (param ps 2) (lang_or_empty (param ps 1)) in
  let* v := cacheGet key in
  match js_or v (VArr []) with
  | VArr episodes =>
      let* guests := lift (flatten_guests episodes) in
      ret (results (VArr guests))
  | VStr _ => ret (results (VArr []))
  | _ => throw TypeError
  end.

Definition all_body (sql : string) (ps : list jsval) : M jsval :=
  if includes "FROM series_seasons" sql then
    let* v := cacheGet (seasons_key (param ps 0) (lang_or_empty (param ps 1))) in
    ret (results (js_or v (VArr [])))
  else if includes "FROM series_episodes" sql && includes "ORDER BY episode_number" sql then
    let* v := cacheGet (episodes_key (param ps 0) (param ps 2) (lang_or_empty (param ps 1))) in
    ret (results (js_or v (VArr [])))
  else if includes "FROM episode_guest_stars" sql then
    all_guests ps
  else ret (results (VArr [])).

Definition all (sql : string) (ps : list jsval) : M jsval :=
  try_catch (all_body sql ps) (fun _ => ret (results (VArr []))).

(** *** [run()] *)

Definition ttl30 : num := Int CACHE_INTERVAL_SECONDS.

Definition movie_channel_row (ps : list jsval) : jsval :=
  VObj [("tmdb_id", param ps 2);
        ("title", param ps 3);
        ("overview", param ps 4);
        ("release_date", param ps 5);
        ("poster_path", param ps 6);
        ("genres", js_or (param ps 7) (VStr "[]"));
        ("rating", param ps 8);
        ("rating_count", param ps 9);
        ("director_name", param ps 10);
        ("cast_names", js_or (param ps 11) (VStr "[]"));
        ("cast_profile_paths", js_or (param ps 12) (VStr "[]"));
        ("updated_at", param ps 13)].

Definition run_movies_by_channel (ps : list jsval) : M unit :=
  let key := movie_channel_key (param ps 0) (lang_or_empty (param ps 1)) in
  cacheSet key (movie_channel_row ps) ttl30.

Definition movie_id_row (ps : list jsval) : jsval :=
  VObj [("tmdb_id", param ps 0);
        ("title", param ps 2);
        ("overview", param ps 3);
        ("release_date", param ps 4);
        ("poster_path", param ps 5);
        ("genres", js_or (param ps 6) (VStr "[]"));
        ("rating", param ps 7);
        ("rating_count", param ps 8);
        ("director_name", param ps 9);
        ("cast_names", js_or (param ps 10) (VStr "[]"));
        ("cast_profile_paths", js_or (param ps 11) (VStr "[]"));
        ("updated_at", param ps 12)].

Definition run_movies_by_id (ps : list jsval) : M unit :=
  let key := movie_id_key (param ps 0) (lang_or_empty (param ps 1)) in
  cacheSet key (movie_id_row ps) ttl30.

Definition series_row (ps : list jsval) : jsval :=
  VObj [("tmdb_id", param ps 0);
        ("genre_ids", js_or (param ps 2) (VStr "[]"));
        ("original_language", param ps 3);
        ("overview", param ps 4);
        ("original_name", param ps 5);
        ("created_by", js_or (param ps 6) (VStr "[]"));
        ("number_of_episodes", param ps 7);
        ("number_of_seasons", param ps 8);
        ("poster_path", param ps 9);
        ("first_air_date", param ps 10);
        ("name", param ps 11);
        ("vote_average", param ps 12);
        ("vote_count", param ps 13);
        ("updated_at", param ps 14)].

Definition run_series_by_id (ps : list jsval) : M unit :=
  let key := series_id_key (param ps 0) (lang_or_empty (param ps 1)) in
  cacheSet key (series_row ps) ttl30.

Definition season_row (ps : list jsval) : jsval :=
  VObj [("id", param ps 2);
        ("season_number", param ps 3);
        ("name", param ps 4);
        ("overview", param ps 5);
        ("poster_path", param ps 6);
        ("air_date", param ps 7);
        ("episode_count", param ps 8);
        ("vote_average", param ps 9);
        ("updated_at", param ps 10)].

Definition run_series_seasons (ps : list jsval) : M unit :=
  let key := seasons_key (param ps 0) (lang_or_empty (param ps 1)) in
  let* v := cacheGet key in
  let* arr := lift (as_array (js_or v (VArr []))) in
  let season := season_row ps in
  let* idx := lift (findIndex (same_number "id" (param ps 2)) arr) in
  cacheSet key (VArr (put_at idx season arr)) ttl30.

Definition episode_row (ps : list jsval) (guest_stars : jsval) : jsval :=
  VObj [("series_id", param ps 0);
        ("id", param ps 3);
        ("episode_id", param ps 3);
        ("episode_number", param ps 4);
        ("name", param ps 5);
        ("overview", param ps 6);
        ("still_path", param ps 7);
        ("air_date", param ps 8);
        ("vote_average", param ps 9);
        ("vote_count", param ps 10);
        ("updated_at", param ps 11);
        ("guest_stars", guest_stars)].

Definition run_series_episodes (ps : list jsval) : M unit :=
  let key := episodes_key (param ps 0) (param ps 2) (lang_or_empty (param ps 1)) in
  let* v := cacheGet key in
  let* arr := lift (as_array (js_or v (VArr []))) in
  let* old := lift (find (same_number "episode_id" (param ps 3)) arr) in
  let ep := episode_row ps (js_or (get_opt old "guest_stars") (VArr [])) in
  let* idx := lift (findIndex (same_number "episode_id" (param ps 3)) arr) in
  cacheSet key (VArr (put_at idx ep arr)) ttl30.

Definition placeholder_episode (ps : list jsval) : jsval :=
  VObj [("series_id", param ps 0);
        ("id", param ps 3);
        ("episode_id", param ps 3);
        ("episode_number", param ps 4);
        ("guest_stars", VArr [])].

Definition guest_of_params (ps : list jsval) : jsval :=
  VObj [("id", param ps 5);
        ("name", param ps 6);
        ("original_name", param ps 7);
        ("character", param ps 8);
        ("profile_path", param ps 9);
        ("order", param ps 10)].

(** [o.k = v] on a value. *)
Definition set_field (o : jsval) (k : string) (v : jsval) : jsval :=
  match o with
  | VObj fs => VObj (obj_set fs k v)
  | _ => o
  end.

(** The episode found by [arr.find] is the very object stored in
    [arr]: writing its [guest_stars] writes into the list, at the
    index of that episode. *)
Definition run_episode_guest_stars (ps : list jsval) : M unit :=
  let key := episodes_key (param ps 0) (param ps 2) (lang_or_empty (param ps 1)) in
  let* v := cacheGet key in
  let* arr0 := lift (as_array (js_or v (VArr []))) in
  let* idx := lift (findIndex (same_number "episode_id" (param ps 3)) arr0) in
  let arr := match idx with
             | None => (arr0 ++ [placeholder_episode ps])%list
             | Some _ => arr0
             end in
  let* at_ := lift (findIndex (same_number "episode_id" (param ps 3)) arr) in
  match at_ with
  | None => throw TypeError
  | Some i =>
      let episode := default VUndef (arr !! i) in
      let stars := js_or (field episode "guest_stars") (VArr []) in
      let* guests := lift (as_array stars) in
      let guest := guest_of_params ps in
      let* gidx := lift (findIndex (same_number "id" (param ps 5)) guests) in
      let episode' := set_field episode "guest_stars" (VArr (put_at gidx guest guests)) in
      cacheSet key (VArr (<[i := episode']> arr)) ttl30
  end.

Definition run_body (sql : string) (ps : list jsval) : M unit :=
  if includes "INSERT INTO movies_by_channel" sql then run_movies_by_channel ps
  else if includes "INSERT INTO movies_by_id" sql then run_movies_by_id ps
  else if includes "INSERT INTO series_by_id" sql then run_series_by_id ps
  else if includes "INSERT INTO series_seasons" sql then run_series_seasons ps
  else if includes "INSERT INTO series_episodes" sql then run_series_episodes ps
  else if includes "INSERT INTO episode_guest_stars" sql then run_episode_guest_stars ps
  else ret tt.

Definition run (sql : string) (ps : list jsval) : M unit :=
  try_catch (run_body sql ps) (fun _ => ret tt).

(** ** routes/series.js *)

(** The handler's environment: [env.DB] is the shim above (installed by
    [server.js] when no database is given), and the two settings the
    handlers read. *)
Record Env := mkEnv { TMDB_CACHE_SECONDS : jsval; REDIS_CACHE_TTL : jsval }.

Definition parseJsonArray (value : jsval) : list jsval :=
  if negb (truthy value) then []
  else
    match JSON_parse (to_string value) with
    | Some (VArr parsed) => parsed
    | _ => []
    end.

Definition stringify_str (v : jsval) : jsval :=
  match JSON_stringify v with
  | Some s => VStr s
  | None => VUndef
  end.

(** [Math.floor(Date.now() / 1000) - row.updated_at]. *)
Definition age_seconds (now : Z) (row : jsval) : num :=
  num_sub (Int now) (to_number (field row "updated_at")).

Definition shouldRefresh (now : Z) (row : jsval) : bool :=
  if negb (truthy row) then true
  else num_gtb (age_seconds now row) (Int CACHE_INTERVAL_SECONDS).

Definition zero_or_null (v : jsval) : bool := seq_num v (Int 0) || is_null v.

Definition missing (v : jsval) : bool := is_undefined v || is_null v.

Definition isExtendedDataMissing (row : jsval) : outcome bool :=
  match get_prop row "created_by" with
  | Throw e => Throw e
  | Ok created_by =>
      let createdBy := parseJsonArray created_by in
      let episodes := field row "number_of_episodes" in
      let seasonsCount := field row "number_of_seasons" in
      let looksLikeSearchOnly :=
        (length createdBy =? 0)%nat && zero_or_null episodes && zero_or_null seasonsCount in
      Ok (missing created_by
          || missing (field row "seasons")
          || missing (field row "number_of_episodes")
          || missing (field row "number_of_seasons")
          || looksLikeSearchOnly)
  end.

Definition upsertSeries (language : jsval) (item : jsval) (now : Z) : M unit :=
  let* id := lift (get_prop item "id") in
  run SQL_upsertSeries
    [id;
     language;
     stringify_str (js_or (field item "genre_ids") (VArr []));
     field item "original_language";
     field item "overview";
     field item "original_name";
     stringify_str (js_or (field item "created_by") (VArr []));
     js_nullish (field item "number_of_episodes") (VInt 0);
     js_nullish (field item "number_of_seasons") (VInt 0);
     field item "poster_path";
     field item "first_air_date";
     field item "name";
     js_nullish (field item "vote_average") (VInt 0);
     js_nullish (field item "vote_count") (VInt 0);
     VInt now].

(** [for (const x of xs) { body }]. *)
Fixpoint for_each (xs : list jsval) (body : jsval -> M unit) : M unit :=
  match xs with
  | [] => ret tt
  | x :: r => let* _ := body x in for_each r body
  end.

(** [!x || typeof x.id !== "number"]: the element is skipped. *)
Definition lacks_numeric_id (x : jsval) : bool :=
  negb (truthy x) || negb (is_number (field x "id")).

Definition upsertSeason (seriesId language : jsval) (now : Z) (season : jsval) : M unit :=
  if lacks_numeric_id season then ret tt
  else
    run SQL_upsertSeasons
      [seriesId;
       language;
       field season "id";
       field season "season_number";
       field season "name";
       field season "overview";
       field season "poster_path";
       field season "air_date";
       field season "episode_count";
       js_nullish (field season "vote_average") (VInt 0);
       VInt now].

Definition upsertSeasons (seriesId language : jsval) (seasons : jsval) (now : Z) : M unit :=
  match seasons with
  | VArr l => for_each l (upsertSeason seriesId language now)
  | _ => ret tt
  end.

Definition guest_params (seriesId seasonNumber language : jsval) (now : Z)
    (episode guest : jsval) : list jsval :=
  [seriesId;
   language;
   seasonNumber;
   field episode "id";
   field episode "episode_number";
   field guest "id";
   field guest "name";
   field guest "original_name";
   field guest "character";
   field guest "profile_path";
   js_nullish (field guest "order") VNull;
   VInt now].

Definition upsertGuestStar (seriesId seasonNumber language : jsval) (now : Z)
    (episode guest : jsval) : M unit :=
  if lacks_numeric_id guest then ret tt
  else run SQL_upsertGuestStar (guest_params seriesId seasonNumber language now episode guest).

Definition episode_params (seriesId seasonNumber language : jsval) (now : Z)
    (episode : jsval) : list jsval :=
  [seriesId;
   language;
   seasonNumber;
   field episode "id";
   field episode "episode_number";
   field episode "name";
   field episode "overview";
   field episode "still_path";
   field episode "air_date";
   js_nullish (field episode "vote_average") (VInt 0);
   js_nullish (field episode "vote_count") (VInt 0);
   VInt now].

(** The body of the loop of [upsertSeasonEpisodes]. *)
Definition upsertEpisode (seriesId seasonNumber language : jsval) (now : Z)
    (episode : jsval) : M unit :=
  if lacks_numeric_id episode then ret tt
  else
    let* _ := run SQL_upsertEpisode (episode_params seriesId seasonNumber language now episode) in
    match field episode "guest_stars" with
    | VArr guests =>
        for_each guests (upsertGuestStar seriesId seasonNumber language now episode)
    | _ => ret tt
    end.

Definition upsertSeasonEpisodes (seriesId seasonNumber language : jsval)
    (episodes : jsval) (now : Z) : M unit :=
  match episodes with
  | VArr l => for_each l (upsertEpisode seriesId seasonNumber language now)
  | _ => ret tt
  end.

Definition guest_payload (seriesId : jsval) (order_of : jsval -> jsval) (guest : jsval)
  : outcome jsval :=
  match get_prop guest "id" with
  | Throw e => Throw e
  | Ok gid =>
      Ok (VObj [("series_id", seriesId);
                ("id", gid);
                ("name", field guest "name");
                ("original_name", field guest "original_name");
                ("character", field guest "character");
                ("profile_path", field guest "profile_path");
                ("order", order_of guest)])
  end.

Definition readEpisode (seriesId seasonNumber episodeNumber language : jsval) : M jsval :=
  let* episodeRow :=
    first SQL_readEpisode [seriesId; language; seasonNumber; episodeNumber] in
  if negb (truthy episodeRow) then ret VNull
  else
    let* guestResult :=
      all SQL_readEpisodeGuests
        [seriesId; language; seasonNumber; field episodeRow "episode_number"] in
    let* rows := lift (as_array (js_or (field guestResult "results") (VArr []))) in
    let* guests := lift (mapO (guest_payload seriesId (fun g => field g "order_index")) rows) in
    ret (VObj [("series_id", seriesId);
               ("id", field episodeRow "id");
               ("episode_id", field episodeRow "id");
               ("episode_number", field episodeRow "episode_number");
               ("name", field episodeRow "name");
               ("overview", field episodeRow "overview");
               ("still_path", field episodeRow "still_path");
               ("air_date", field episodeRow "air_date");
               ("vote_average", js_nullish (field episodeRow "vote_average") (VInt 0));
               ("vote_count", js_nullish (field episodeRow "vote_count") (VInt 0));
               ("guest_stars", VArr guests);
               ("updated_at", field episodeRow "updated_at")]).

Definition buildEpisodePayload (seriesId : jsval) (episode : jsval) : outcome jsval :=
  match get_prop episode "id" with
  | Throw e => Throw e
  | Ok id =>
      match
        match field episode "guest_stars" with
        | VArr gs =>
            mapO (guest_payload seriesId (fun g => js_nullish (field g "order") VNull)) gs
        | _ => Ok []
        end
      with
      | Throw e => Throw e
      | Ok guests =>
          Ok (VObj [("series_id", seriesId);
                    ("id", id);
                    ("episode_id", id);
                    ("episode_number", field episode "episode_number");
                    ("name", field episode "name");
                    ("overview", field episode "overview");
                    ("still_path", field episode "still_path");
                    ("air_date", field episode "air_date");
                    ("vote_average", js_nullish (field episode "vote_average") (VInt 0));
                    ("vote_count", js_nullish (field episode "vote_count") (VInt 0));
                    ("guest_stars", VArr guests)])
      end
  end.

(** *** The episode handler *)

Record request := mkRequest { method : string; url : URL }.

(** Which tier answered: the handler's log lines, made part of the reply. *)
Inductive tier := Rejected | RecordStore | UrlCache | Upstream.

Record reply := mkReply { via : tier; status : Z; body : jsval }.

Definition jsonResponse (t : tier) (b : jsval) : reply := mkReply t 200 b.

Definition errorResponse (code : Z) (message : string) : reply :=
  mkReply Rejected code (VObj [("error", VStr message)]).

(** [s.split("/").filter(Boolean)]. *)
Fixpoint split_path (s : string) (cur : string) : list string :=
  match s with
  | EmptyString => if String.eqb cur "" then [] else [cur]
  | String c r =>
      if Ascii.eqb c "/"%char
      then (if String.eqb cur "" then split_path r "" else cur :: split_path r "")
      else split_path r (cur +:+ String c EmptyString)
  end.

Definition path_part (u : URL) (i : nat) : jsval :=
  match split_path (pathname u) "" !! i with
  | Some s => VStr s
  | None => VUndef
  end.

(** [Number.isInteger]. *)
Definition isInteger (n : num) : bool :=
  match norm n with
  | Dec _ O => true
  | _ => false
  end.

Fixpoint rtrim (s : string) : string :=
  match s with
  | EmptyString => EmptyString
  | String c r =>
      let r' := rtrim r in
      if is_space c && String.eqb r' "" then EmptyString else String c r'
  end.

Definition trim (s : string) : string := rtrim (skip_ws s).

(** [u.searchParams.get(name)]. *)
Fixpoint searchParams_get (es : list (string * string)) (name : string) : option string :=
  match es with
  | [] => None
  | (k, v) :: r => if String.eqb k name then Some v else searchParams_get r name
  end.

Definition normalizeLanguage (rawv : option string) : string :=
  match rawv with
  | Some s => if String.eqb s "" then "" else trim s
  | None => ""
  end.

Definition without_field (k : string) (v : jsval) : jsval :=
  match v with
  | VObj fs => VObj (filter (fun f => negb (String.eqb f.1 k) = true) fs)
  | _ => v
  end.

(** [Number(env.TMDB_CACHE_SECONDS || env.REDIS_CACHE_TTL || CACHE_INTERVAL_SECONDS)]. *)
Definition response_ttl (env : Env) : num :=
  to_number (js_or (js_or (TMDB_CACHE_SECONDS env) (REDIS_CACHE_TTL env))
               (VInt CACHE_INTERVAL_SECONDS)).

Section Handlers.

Variable localeCompare : string -> string -> Z.

(** [handleSeriesEpisode(request, env)]; [tmdb] is what [tmdbFetch]
    returns or throws for this request, should it be called. *)
Definition handleSeriesEpisode (env : Env) (now : Z) (tmdb : outcome jsval)
    (req : request) : M reply :=
  if negb (String.eqb (method req) "GET") then ret (errorResponse 405 "method not allowed")
  else
    let seriesId := to_number (path_part (url req) 2) in
    let seasonNumber := to_number (path_part (url req) 4) in
    let episodeNumber := to_number (path_part (url req) 6) in
    if negb (isInteger seriesId) || negb (isInteger seasonNumber)
       || negb (isInteger episodeNumber)
    then ret (errorResponse 400 "invalid series, season, or episode")
    else
      let language :=
        VStr (normalizeLanguage (searchParams_get (searchParams (url req)) "language")) in
      let* cached :=
        readEpisode (VNum seriesId) (VNum seasonNumber) (VNum episodeNumber) language in
      let ageSeconds := age_seconds now cached in
      let hasGuestStars :=
        match field cached "guest_stars" with
        | VArr gs => (0 <? length gs)%nat
        | _ => false
        end in
      if truthy cached && (num_leb ageSeconds (Int CACHE_INTERVAL_SECONDS) && hasGuestStars)
      then ret (jsonResponse RecordStore (without_field "updated_at" cached))
      else
        let cacheKey := buildCacheKeyFromUrl localeCompare (url req) in
        let* hit :=
          try_catch (cacheGet cacheKey) (fun _ => ret VUndef) in
        if truthy hit then ret (jsonResponse UrlCache hit)
        else
          let* data := lift tmdb in
          let* payload := lift (buildEpisodePayload (VNum seriesId) data) in
          let* _ :=
            upsertSeasonEpisodes (VNum seriesId) (VNum seasonNumber) language
              (VArr [data]) now in
          let* _ :=
            try_catch (cacheSet cacheKey payload (response_ttl env)) (fun _ => ret tt) in
          ret (jsonResponse Upstream payload).

End Handlers.

(** ** The movie routes (record-store variant) *)

Definition shouldRefreshMovie (now : Z) (row : jsval) : bool :=
  if negb (truthy row) then true
  else
    let rating := js_nullish (field row "rating") (VInt 0) in
    let ratingCount := js_nullish (field row "rating_count") (VInt 0) in
    if seq_num rating (Int 0) && seq_num ratingCount (Int 0) then true
    else num_gtb (age_seconds now row) (Int CACHE_INTERVAL_SECONDS).

Definition upsertMovieByChannel (channelId language : jsval) (payload : jsval) (now : Z)
  : M unit :=
  let* movieId := lift (get_prop payload "movieId") in
  run SQL_upsertMovieByChannel
    [channelId;
     language;
     movieId;
     field payload "title";
     field payload "overview";
     field payload "releaseDate";
     field payload "posterPath";
     stringify_str (js_or (field payload "genres") (VArr []));
     js_nullish (field payload "rating") (VInt 0);
     js_nullish (field payload "ratingCount") (VInt 0);
     field payload "directorName";
     stringify_str (js_or (field payload "cast") (VArr []));
     stringify_str (js_or (field payload "castProfilePaths") (VArr []));
     VInt now].

Definition upsertMovieById (language : jsval) (payload : jsval) (now : Z) : M unit :=
  let* movieId := lift (get_prop payload "movieId") in
  run SQL_upsertMovieById
    [movieId;
     language;
     field payload "title";
     field payload "overview";
     field payload "releaseDate";
     field payload "posterPath";
     stringify_str (js_or (field payload "genres") (VArr []));
     js_nullish (field payload "rating") (VInt 0);
     js_nullish (field payload "ratingCount") (VInt 0);
     field payload "directorName";
     stringify_str (js_or (field payload "cast") (VArr []));
     stringify_str (js_or (field payload "castProfilePaths") (VArr []));
     VInt now].

(** [SELECT * FROM movies_by_id ...] and the series counterpart. *)
Definition selectMovieById (movieId language : jsval) : M jsval :=
  first SQL_selectMovieById [movieId; language].

Definition selectMovieByChannel (channelId language : jsval) : M jsval :=
  first SQL_selectMovieByChannel [channelId; language].

Definition selectSeries (seriesId language : jsval) : M jsval :=
  first SQL_selectSeries [seriesId; language].

(** ** Notions used to state the properties

    *** About JSON text *)

Fixpoint all_digits (s : string) : bool :=
  match s with
  | EmptyString => true
  | String c r => is_digit c && all_digits r
  end.

(** [k] does not go on with a digit. *)
Definition no_digit_head (k : string) : bool :=
  match k with
  | EmptyString => true
  | String c _ => negb (is_digit c)
  end.

(** [k] cannot be read as the continuation of a number. *)
Definition num_stop (k : string) : bool :=
  match k with
  | EmptyString => true
  | String c _ =>
      negb (is_digit c || Ascii.eqb c "."%char || Ascii.eqb c "e"%char || Ascii.eqb c "E"%char)
  end.

(** A text starts with a character that opens a value. *)
Definition opens_value (s : string) : Prop :=
  exists c r, s = String c r /\ is_jspace c = false
              /\ Ascii.eqb c "]"%char = false /\ Ascii.eqb c "}"%char = false.

(** Parsing the text of [v] gives [v] back, whatever follows. *)
Definition roundtrips (v : jsval) : Prop :=
  forall fuel k, (size v <= fuel)%nat -> num_stop k = true ->
    parse_value fuel (emit v k) = Some (v, k).

Definition json_fields (fs : list (string * jsval)) : Prop :=
  Forall (fun f => is_json f.2 = true) fs /\ NoDup fs.*1.

(** *** About the store *)

(** What [cacheGet] makes of the entry found under a key. *)
Definition decode (e : option entry) : jsval :=
  match e with
  | None => VNull
  | Some en =>
      if String.eqb (raw en) "" then VNull else default VNull (JSON_parse (raw en))
  end.

Definition stored (key : string) (r : redis) : jsval := decode (data r !! key).

(** The list kept under [key], empty when there is none:
    [(await cacheGet(env, key)) || []]. *)
Definition list_at (key : string) (r : redis) : jsval :=
  js_or (stored key r) (VArr []).

(** The backend after a successful [cacheSet] with the thirty days'
    expiry. *)
Definition written (key : string) (v : jsval) (r : redis) : redis :=
  Redis (down r)
    (<[key := Entry (default "" (JSON_stringify v)) (Some CACHE_INTERVAL_SECONDS)]> (data r)).

(** Index of the first element whose property [k] is numerically [id]. *)
Fixpoint index_of (k : string) (id : jsval) (arr : list jsval) : option nat :=
  match arr with
  | [] => None
  | x :: r =>
      if num_eqb (to_number (field x k)) (to_number id) then Some O
      else S <$> index_of k id r
  end.

Definition objects (arr : list jsval) : Prop :=
  Forall (fun x => is_object x = true) arr.


(** Property [k] of [toJSON (VObj fs)], given what precedes [fs]. *)
Fixpoint props_lookup (fs : list (string * jsval)) (k : string) (cur : option jsval)
  : option jsval :=
  match fs with
  | [] => cur
  | (k', x) :: r =>
      props_lookup r k
        (if String.eqb k' k
         then (if is_undefined x then cur else Some (toJSON x))
         else cur)
  end.

(** *** About freshness *)

(** The movie row was never enriched: rating and rating count, read as
    [shouldRefresh] reads them, are both [0]. *)
Definition never_enriched (row : jsval) : bool :=
  seq_num (js_nullish (field row "rating") (VInt 0)) (Int 0)
  && seq_num (js_nullish (field row "rating_count") (VInt 0)) (Int 0).

(** *** About reads *)

(** The reads of the record store, one per table: [getOne] on the
    scalar tables and on an episode, [listByParent] on the list tables. *)
Definition selectEpisode (seriesId language seasonNumber episodeNumber : jsval) : M jsval :=
  first SQL_readEpisode [seriesId; language; seasonNumber; episodeNumber].

Definition listSeasons (seriesId language : jsval) : M jsval :=
  all SQL_readSeasons [seriesId; language].

Definition listEpisodes (seriesId language seasonNumber : jsval) : M jsval :=
  all SQL_readSeasonEpisodes [seriesId; language; seasonNumber].

Definition listGuests (seriesId language seasonNumber : jsval) : M jsval :=
  all SQL_readSeasonGuests [seriesId; language; seasonNumber].

(** Nothing usable is under [key]: the backend fails, or has no entry
    there, or has one that is not JSON text. *)
Definition miss (key : string) (r : redis) : Prop :=
  down r = true
  \/ data r !! key = None
  \/ exists e, data r !! key = Some e /\ JSON_parse (raw e) = None.

(** A computation that leaves the backend as it found it. *)
Definition readonly {A} (m : M A) : Prop := forall r, (m r).2 = r.

(** *** About list upserts *)



(** The guest stars of a stored episode, as the shim reads them:
    [episode.guest_stars || []]. *)
Definition guests_of (episode : jsval) : jsval :=
  js_or (field episode "guest_stars") (VArr []).

(** An episode list as the shim writes it: records, each with a list
    of guest records. *)
Definition wf_episode (e : jsval) : Prop :=
  is_object e = true /\ exists gl, guests_of e = VArr gl /\ objects gl.

Definition wf_episodes (arr : list jsval) : Prop := Forall wf_episode arr.

(** The episode of [arr] with the id [id], [undefined] when there is
    none: [arr.find((e) => Number(e.episode_id) === Number(id))]. *)
Definition episode_with (id : jsval) (arr : list jsval) : jsval :=
  match index_of "episode_id" id arr with
  | Some i => default VUndef (arr !! i)
  | None => VUndef
  end.

(** What an episode upsert keeps of the stored guest stars. *)
Definition carried_guests (id : jsval) (arr : list jsval) : jsval :=
  js_or (get_opt (episode_with id arr) "guest_stars") (VArr []).

(** A child id as the upstream API gives it: a JSON value that
    [Number] reads as a number. *)
Definition numeric_id (id : jsval) : Prop :=
  is_json id = true /\ num_eqb (to_number id) (to_number id) = true.



(** Two numbers that [===] cannot tell apart. *)
Definition same_num (a b : num) : Prop := forall n, num_eqb a n = num_eqb b n.


(** *** About the guest stars of an upserted episode *)

(** An upstream guest as the guest-star upsert stores it. *)
Definition stored_guest (seriesId seasonNumber language : jsval) (now : Z)
    (episode guest : jsval) : jsval :=
  toJSON (guest_of_params (guest_params seriesId seasonNumber language now episode guest)).

(** One incoming guest merged into a stored guest list: skipped
    without a numeric id, else upserted by id. *)
Definition merge_guest (seriesId seasonNumber language : jsval) (now : Z)
    (episode : jsval) (gl : list jsval) (guest : jsval) : list jsval :=
  if lacks_numeric_id guest then gl
  else put_at (index_of "id" (field guest "id") gl)
         (stored_guest seriesId seasonNumber language now episode guest) gl.

Definition merge_guests (seriesId seasonNumber language : jsval) (now : Z)
    (episode : jsval) (incoming gl : list jsval) : list jsval :=
  fold_left (merge_guest seriesId seasonNumber language now episode) incoming gl.

(** The guest-star payload of an upstream episode, empty when it
    carries none. *)
Definition incoming_guests (episode : jsval) : list jsval :=
  match field episode "guest_stars" with
  | VArr gs => gs
  | _ => []
  end.

Definition array_items (v : jsval) : list jsval :=
  match v with
  | VArr l => l
  | _ => []
  end.

(** Where the element upserted under [id] sits afterwards. *)
Definition slot (k : string) (id : jsval) (arr : list jsval) : nat :=
  match index_of k id arr with
  | Some i => i
  | None => length arr
  end.

(** [wf_episodes], as a test. *)
Definition wf_episodeb (e : jsval) : bool :=
  is_object e
  && match guests_of e with
     | VArr gl => forallb is_object gl
     | _ => false
     end.

(** *** Sample data *)

(** An upstream guest star. *)
Definition guest_star (id : Z) (name character : string) : jsval :=
  VObj [("id", VInt id);
        ("name", VStr name);
        ("original_name", VStr name);
        ("character", VStr character);
        ("profile_path", VNull);
        ("order", VInt 0)].

(** The first episode of a season as upstream sends it, without guest
    stars and with some. *)
Definition pilot_bare : jsval :=
  VObj [("id", VInt 63056);
        ("episode_number", VInt 1);
        ("name", VStr "Winter Is Coming");
        ("overview", VStr "Jon Arryn, the Hand of the King, is dead.");
        ("still_path", VStr "/pilot.jpg");
        ("air_date", VStr "2011-04-17");
        ("vote_average", VNum (Dec 79 1));
        ("vote_count", VInt 300)].

Definition pilot (guest_stars : list jsval) : jsval :=
  set_field pilot_bare "guest_stars" (VArr guest_stars).

(** The store after the first episode came in with one guest star. *)
Definition season_store : redis :=
  (upsertEpisode (VInt 1399) (VInt 1) (VStr "en") 1700000000
     (pilot [guest_star 117642 "Jason Momoa" "Khal Drogo"])
     (Redis false ∅)).2.

(** A movie payload that was never rated. *)
Definition unrated_movie : jsval :=
  VObj [("movieId", VInt 27205);
        ("title", VStr "Inception");
        ("overview", VStr "A thief who steals corporate secrets.");
        ("releaseDate", VStr "2010-07-15");
        ("posterPath", VStr "/inception.jpg");
        ("genres", VArr [VStr "Action"; VStr "Science Fiction"]);
        ("rating", VInt 0);
        ("ratingCount", VInt 0);
        ("directorName", VStr "Christopher Nolan");
        ("cast", VArr [VStr "Leonardo DiCaprio"]);
        ("castProfilePaths", VArr [VStr "/leo.jpg"])].

(** *** About cache keys *)







(** A collation for the examples: by code units. *)
Definition compare_code_units (a b : string) : Z :=
  match String.compare a b with
  | Lt => -1
  | Eq => 0
  | Gt => 1
  end.

(** *** About the episode handler *)

Definition request_series (req : request) : num := to_number (path_part (url req) 2).
Definition request_season (req : request) : num := to_number (path_part (url req) 4).
Definition request_episode (req : request) : num := to_number (path_part (url req) 6).

Definition request_language (req : request) : jsval :=
  VStr (normalizeLanguage (searchParams_get (searchParams (url req)) "language")).

(** A request the handler does not reject. *)
Definition episode_request (req : request) : bool :=
  String.eqb (method req) "GET"
  && isInteger (request_series req) && isInteger (request_season req)
  && isInteger (request_episode req).

(** The handler's [hasGuestStars]. *)
Definition hasGuestStars (cached : jsval) : bool :=
  match field cached "guest_stars" with
  | VArr gs => (0 <? length gs)%nat
  | _ => false
  end.

(** The condition under which the handler answers from the episode
    record: it exists, is not older than the threshold and has guest
    stars. *)
Definition episode_usable (now : Z) (cached : jsval) : bool :=
  truthy cached
  && (num_leb (age_seconds now cached) (Int CACHE_INTERVAL_SECONDS) && hasGuestStars cached).

(** The episode record the handler reads for a request. *)
Definition cached_episode (req : request) (r : redis) : jsval :=
  match (readEpisode (VNum (request_series req)) (VNum (request_season req))
           (VNum (request_episode req)) (request_language req) r).1 with
  | Ok v => v
  | Throw _ => VNull
  end.

(** The response kept under the key of the request's URL, [undefined]
    when the backend fails. *)
Definition url_cached (localeCompare : string -> string -> Z) (req : request) (r : redis)
  : jsval :=
  match (cacheGet (buildCacheKeyFromUrl localeCompare (url req)) r).1 with
  | Ok v => v
  | Throw _ => VUndef
  end.

(** A request for the first episode, and what upstream answers when
    that episode has no guest stars. *)
Definition pilot_request : request :=
  mkRequest "GET" (mkURL "/v1/series/1399/season/1/episode/1" [("language", "en")]).

Definition no_settings : Env := mkEnv VUndef VUndef.

(** The store after the handler answered [pilot_request] from
    upstream, the episode coming without guest stars. *)
Definition store_after_fetch : redis :=
  (handleSeriesEpisode compare_code_units no_settings 1700000000 (Ok pilot_bare)
     pilot_request (Redis false ∅)).2.

(** *** About the effect of writes *)

(** [r'] differs from [r] at most in the entry under [key]. *)
Definition only_at (key : string) (r r' : redis) : Prop :=
  down r' = down r /\ forall k, k <> key -> data r' !! k = data r !! k.

(** The expiry of the entry under [key]: [None] without an entry,
    [Some None] for an entry that never expires. *)
Definition expiry (key : string) (r : redis) : option (option Z) :=
  ttl <$> data r !! key.

(** What an upsert may do to the backend: nothing; or, on a working
    backend, one write under [key] that expires after thirty days. *)
Definition upsert_effect (key : string) (r r' : redis) : Prop :=
  r' = r
  \/ (down r = false /\ only_at key r r'
      /\ expiry key r' = Some (Some CACHE_INTERVAL_SECONDS)).

(** A computation whose only effect is that of an upsert under [key]. *)
Definition upserts_at {A} (key : string) (m : M A) : Prop :=
  forall r, upsert_effect key r (m r).2.

(** The statement names none of the tables [run] knows. *)
Definition unknown_insert (sql : string) : bool :=
  negb (includes "INSERT INTO movies_by_channel" sql)
  && negb (includes "INSERT INTO movies_by_id" sql)
  && negb (includes "INSERT INTO series_by_id" sql)
  && negb (includes "INSERT INTO series_seasons" sql)
  && negb (includes "INSERT INTO series_episodes" sql)
  && negb (includes "INSERT INTO episode_guest_stars" sql).

(** A time to live that [SET key value EX seconds] accepts once
    floored: not used at all, or at least one second. *)
Definition usable_ttl (ttlSeconds : num) : bool :=
  negb (positive_finite ttlSeconds) || num_leb (Int 1) ttlSeconds.

(** *** About the keys of the record store *)

(** An id as upstream gives it: a non-negative integer that a double
    holds exactly. *)
Definition record_id (a : Z) : Prop := 0 <= a < 2 ^ 53.

(** *** About [readEpisode] *)

(** The row the shim's [all()] makes of the guest [g] of the stored
    episode [ep]. *)
Definition guest_row_of (ep g : jsval) : jsval :=
  VObj [("episode_id", js_nullish (field ep "episode_id") (field ep "id"));
        ("episode_number", field ep "episode_number");
        ("guest_id", field g "id");
        ("name", field g "name");
        ("original_name", field g "original_name");
        ("character", field g "character");
        ("profile_path", field g "profile_path");
        ("order_index", js_nullish (field g "order") VNull)].

(** What [readEpisode] makes of the stored guest [g]: the shim's row
    calls the id [guest_id], so the [id] that is read is [undefined]. *)
Definition read_guest (seriesId g : jsval) : jsval :=
  VObj [("series_id", seriesId);
        ("id", VUndef);
        ("name", field g "name");
        ("original_name", field g "original_name");
        ("character", field g "character");
        ("profile_path", field g "profile_path");
        ("order", js_nullish (field g "order") VNull)].

(** The guests of all the episodes of a stored season, in list order. *)
Definition season_guests (arr : list jsval) : list jsval :=
  flat_map (fun e => array_items (guests_of e)) arr.

(** A season with two episodes, a guest star in each. *)
Definition second_episode : jsval :=
  VObj [("id", VInt 63057);
        ("episode_number", VInt 2);
        ("name", VStr "The Kingsroad");
        ("guest_stars", VArr [guest_star 1223786 "Emilia Clarke" "Daenerys Targaryen"])].

Definition two_episode_store : redis :=
  (upsertEpisode (VInt 1399) (VInt 1) (VStr "en") 1700000000 second_episode
     season_store).2.

(** ** routes/series.js: the search cache, the series and the season *)

(** [encodeURIComponent], on the bytes of the string: everything but
    letters, digits and [-_.!~*'()] is escaped. *)
Definition uri_unreserved (c : ascii) : bool :=
  let n := code c in
  ((48 <=? n) && (n <=? 57) || (65 <=? n) && (n <=? 90) || (97 <=? n) && (n <=? 122)
   || (n =? 33) || (n =? 39) || (n =? 40) || (n =? 41) || (n =? 42)
   || (n =? 45) || (n =? 46) || (n =? 95) || (n =? 126))%N.

Fixpoint encodeURIComponent (s : string) : string :=
  match s with
  | EmptyString => EmptyString
  | String c r =>
      if uri_unreserved c then String c (encodeURIComponent r)
      else String "%"%char
             (String (HEX_char (code c / 16))
                (String (HEX_char (code c mod 16)) (encodeURIComponent r)))
  end.

(** The key of [cacheSearch] and [readSearchCache]. *)
Definition search_key (query language : jsval) : string :=
  "/series/search?query=" +:+ encodeURIComponent (to_string query)
  +:+ "&language=" +:+ encodeURIComponent (to_string (js_or language (VStr ""))).

Definition cacheSearch (query language body : jsval) (now : Z) : M unit :=
  try_catch
    (cacheSet (search_key query language)
       (VObj [("body", body); ("updated_at", VInt now)]) ttl30)
    (fun _ => ret tt).

Definition readSearchCache (query language : jsval) (now : Z) : M jsval :=
  try_catch
    (let* cached := cacheGet (search_key query language) in
     if negb (truthy cached) || negb (truthy (field cached "body"))
        || negb (truthy (field cached "updated_at"))
     then ret VNull
     else if num_gtb (age_seconds now cached) (Int CACHE_INTERVAL_SECONDS) then ret VNull
     else ret (field cached "body"))
    (fun _ => ret VNull).

(** [Array.isArray(v) ? v : []]. *)
Definition array_or_empty (v : jsval) : jsval := if isArray v then v else VArr [].

(** [genre && typeof genre.id === "number" ? genre.id : null]. *)
Definition genre_id (genre : jsval) : jsval :=
  if truthy genre && is_number (field genre "id") then field genre "id" else VNull.

Definition extractGenreIdsFromDetails (details : jsval) : list jsval :=
  if negb (truthy details) then []
  else
    match field details "genres" with
    | VArr genres => filter (fun genreId => is_null genreId = false) (map genre_id genres)
    | _ => []
    end.

Definition buildSeriesPayload (details genreIds : jsval) : outcome jsval :=
  match get_prop details "id" with
  | Throw e => Throw e
  | Ok id =>
      Ok (VObj [("id", id);
                ("genre_ids", array_or_empty genreIds);
                ("original_language", field details "original_language");
                ("overview", field details "overview");
                ("original_name", field details "original_name");
                ("created_by", array_or_empty (field details "created_by"));
                ("number_of_episodes", field details "number_of_episodes");
                ("number_of_seasons", field details "number_of_seasons");
                ("poster_path", field details "poster_path");
                ("first_air_date", field details "first_air_date");
                ("name", field details "name");
                ("vote_average", field details "vote_average");
                ("vote_count", field details "vote_count");
                ("seasons", array_or_empty (field details "seasons"))])
  end.

Definition buildSeriesPayloadFromSearch (item : jsval) : outcome jsval :=
  match get_prop item "id" with
  | Throw e => Throw e
  | Ok id =>
      Ok (VObj [("id", id);
                ("genre_ids", array_or_empty (field item "genre_ids"));
                ("original_language", field item "original_language");
                ("overview", field item "overview");
                ("original_name", field item "original_name");
                ("poster_path", field item "poster_path");
                ("first_air_date", field item "first_air_date");
                ("name", field item "name");
                ("vote_average", field item "vote_average");
                ("vote_count", field item "vote_count")])
  end.

Definition rowToSeries (row seasons : jsval) : jsval :=
  if negb (truthy row) then VNull
  else
    VObj [("id", field row "tmdb_id");
          ("genre_ids", VArr (parseJsonArray (field row "genre_ids")));
          ("original_language", field row "original_language");
          ("overview", field row "overview");
          ("original_name", field row "original_name");
          ("created_by", VArr (parseJsonArray (field row "created_by")));
          ("number_of_episodes", js_nullish (field row "number_of_episodes") (VInt 0));
          ("number_of_seasons", js_nullish (field row "number_of_seasons") (VInt 0));
          ("poster_path", field row "poster_path");
          ("first_air_date", field row "first_air_date");
          ("name", field row "name");
          ("vote_average", js_nullish (field row "vote_average") (VInt 0));
          ("vote_count", js_nullish (field row "vote_count") (VInt 0));
          ("seasons", array_or_empty seasons)].

Definition readSeasons (seriesId language : jsval) : M jsval :=
  let* result := all SQL_readSeasons [seriesId; language] in
  ret (js_or (field result "results") (VArr [])).

Definition getSeasonCacheMeta (seriesId seasonNumber language : jsval) : M jsval :=
  let* row := first SQL_getSeasonCacheMeta [seriesId; language; seasonNumber] in
  ret (js_or row (VObj [("count", VInt 0); ("updated_at", VNull)])).

(** *** [readSeasonEpisodes] *)

(** The characters of a string, as [for ... of] steps through them:
    one per UTF-8 sequence. *)
Definition is_continuation (c : ascii) : bool :=
  ((128 <=? code c) && (code c <? 192))%N.

Fixpoint utf8_chars (s cur : string) : list string :=
  match s with
  | EmptyString => if String.eqb cur "" then [] else [cur]
  | String c r =>
      if is_continuation c then utf8_chars r (cur +:+ String c EmptyString)
      else ((if String.eqb cur "" then [] else [cur])
            ++ utf8_chars r (String c EmptyString))%list
  end.

(** [for (const x of v)]: arrays and strings are iterable. *)
Definition for_of (v : jsval) : outcome (list jsval) :=
  match v with
  | VArr l => Ok l
  | VStr s => Ok (map VStr (utf8_chars s ""))
  | _ => Throw TypeError
  end.

(** The equality of [Map] keys.  Objects and arrays are equal only to
    themselves; the key an episode is looked up by and the keys the
    guest rows were filed under come from two different reads of the
    backend, so such a key is never found. *)
Definition same_value_zero (a b : jsval) : bool :=
  match a, b with
  | VUndef, VUndef | VNull, VNull => true
  | VBool x, VBool y => Bool.eqb x y
  | VNum NaN, VNum NaN => true
  | VNum x, VNum y => num_eqb x y
  | VStr x, VStr y => String.eqb x y
  | _, _ => false
  end.

Definition season_guest_entry (seriesId row : jsval) : jsval :=
  VObj [("series_id", seriesId);
        ("id", field row "id");
        ("name", field row "name");
        ("original_name", field row "original_name");
        ("character", field row "character");
        ("profile_path", field row "profile_path");
        ("order", field row "order_index")].

(** [byEpisode.get(k) || []], once the guest rows are filed. *)
Definition guests_by_episode (seriesId : jsval) (rows : list jsval) (k : jsval)
  : list jsval :=
  map (season_guest_entry seriesId)
    (filter (fun row => same_value_zero (field row "episode_id") k = true) rows).

Definition read_season_episode (seriesId : jsval) (rows : list jsval) (episode : jsval)
  : outcome jsval :=
  match get_prop episode "id" with
  | Throw e => Throw e
  | Ok id =>
      Ok (VObj [("series_id", seriesId);
                ("id", id);
                ("episode_id", id);
                ("episode_number", field episode "episode_number");
                ("name", field episode "name");
                ("overview", field episode "overview");
                ("still_path", field episode "still_path");
                ("air_date", field episode "air_date");
                ("vote_average", js_nullish (field episode "vote_average") (VInt 0));
                ("vote_count", js_nullish (field episode "vote_count") (VInt 0));
                ("guest_stars", VArr (guests_by_episode seriesId rows id))])
  end.

Definition readSeasonEpisodes (seriesId seasonNumber language : jsval) : M jsval :=
  let* episodesResult := all SQL_readSeasonEpisodes [seriesId; language; seasonNumber] in
  let episodes := js_or (field episodesResult "results") (VArr []) in
  let* guestResult := all SQL_readSeasonGuests [seriesId; language; seasonNumber] in
  let guests := js_or (field guestResult "results") (VArr []) in
  let* rows := lift (for_of guests) in
  let* _ := lift (mapO (fun row => get_prop row "episode_id") rows) in
  let* list := lift (as_array episodes) in
  let* out := lift (mapO (read_season_episode seriesId rows) list) in
  ret (VArr out).

(** The element of the season handler's answer for one upstream episode. *)
Definition season_episode_payload (seriesId episode : jsval) : outcome jsval :=
  match get_prop episode "id" with
  | Throw e => Throw e
  | Ok id =>
      match
        match field episode "guest_stars" with
        | VArr gs =>
            mapO (guest_payload seriesId (fun g => js_nullish (field g "order") VNull)) gs
        | _ => Ok []
        end
      with
      | Throw e => Throw e
      | Ok guests =>
          Ok (VObj [("series_id", seriesId);
                    ("id", id);
                    ("episode_number", field episode "episode_number");
                    ("name", field episode "name");
                    ("overview", field episode "overview");
                    ("still_path", field episode "still_path");
                    ("air_date", field episode "air_date");
                    ("vote_average", js_nullish (field episode "vote_average") (VInt 0));
                    ("vote_count", js_nullish (field episode "vote_count") (VInt 0));
                    ("guest_stars", VArr guests)])
      end
  end.

(** [s.split("/").pop()]: what follows the last slash. *)
Fixpoint last_segment (s cur : string) : string :=
  match s with
  | EmptyString => cur
  | String c r =>
      if Ascii.eqb c "/"%char then last_segment r ""
      else last_segment r (cur +:+ String c EmptyString)
  end.

Definition opt_string (o : option string) : jsval :=
  match o with
  | Some s => VStr s
  | None => VNull
  end.

(** [Number.isFinite(topRaw) && topRaw > 0 ? Math.floor(topRaw) : 1]. *)
Definition top_of (topRaw : num) : Z :=
  if positive_finite topRaw then default 1 (floor_Z topRaw) else 1.

Section SeriesHandlers.

Variable localeCompare : string -> string -> Z.

(** The tail the three handlers share: the entry under the key of
    the URL, if there is one, else [upstream]. *)
Definition url_cache_or (req : request) (upstream : string -> M reply) : M reply :=
  let cacheKey := buildCacheKeyFromUrl localeCompare (url req) in
  let* hit := try_catch (cacheGet cacheKey) (fun _ => ret VUndef) in
  if truthy hit then ret (jsonResponse UrlCache hit) else upstream cacheKey.

Definition handleSeriesById (env : Env) (now : Z) (tmdb : outcome jsval)
    (req : request) : M reply :=
  if negb (String.eqb (method req) "GET") then ret (errorResponse 405 "method not allowed")
  else
    let seriesId := to_number (VStr (last_segment (pathname (url req)) "")) in
    if negb (isInteger seriesId) then ret (errorResponse 400 "invalid series id")
    else
      let language :=
        VStr (normalizeLanguage (searchParams_get (searchParams (url req)) "language")) in
      let* cachedRow := first SQL_selectSeries [VNum seriesId; language] in
      let* complete :=
        if truthy cachedRow && negb (shouldRefresh now cachedRow)
        then let* missing := lift (isExtendedDataMissing cachedRow) in ret (negb missing)
        else ret false in
      let* seasons :=
        if complete then readSeasons (VNum seriesId) language else ret VUndef in
      if complete && num_gtb (to_number (field seasons "length")) (Int 0)
      then ret (jsonResponse RecordStore (rowToSeries cachedRow seasons))
      else
        url_cache_or req (fun cacheKey =>
          let* data := lift tmdb in
          let genreIds := extractGenreIdsFromDetails data in
          let* payload := lift (buildSeriesPayload data (VArr genreIds)) in
          let* _ := upsertSeries language payload now in
          let* _ :=
            upsertSeasons (VNum seriesId) language (field payload "seasons") now in
          let body := set_field payload "seasons" (field payload "seasons") in
          let* _ :=
            try_catch (cacheSet cacheKey body (response_ttl env)) (fun _ => ret tt) in
          ret (jsonResponse Upstream body)).

Definition handleSeriesSeason (env : Env) (now : Z) (tmdb : outcome jsval)
    (req : request) : M reply :=
  if negb (String.eqb (method req) "GET") then ret (errorResponse 405 "method not allowed")
  else
    let seriesId := to_number (path_part (url req) 2) in
    let seasonNumber := to_number (path_part (url req) 4) in
    if negb (isInteger seriesId) || negb (isInteger seasonNumber)
    then ret (errorResponse 400 "invalid series or season id")
    else
      let language :=
        VStr (normalizeLanguage (searchParams_get (searchParams (url req)) "language")) in
      let* cacheMeta := getSeasonCacheMeta (VNum seriesId) (VNum seasonNumber) language in
      let fresh :=
        num_gtb (to_number (field cacheMeta "count")) (Int 0)
        && num_leb (age_seconds now cacheMeta) (Int CACHE_INTERVAL_SECONDS) in
      let* cached :=
        if fresh then readSeasonEpisodes (VNum seriesId) (VNum seasonNumber) language
        else ret VUndef in
      if fresh && num_gtb (to_number (field cached "length")) (Int 0)
      then ret (jsonResponse RecordStore cached)
      else
        url_cache_or req (fun cacheKey =>
          let* data := lift tmdb in
          let* eps := lift (get_prop data "episodes") in
          let episodes := array_or_empty eps in
          let* _ :=
            upsertSeasonEpisodes (VNum seriesId) (VNum seasonNumber) language episodes now in
          let* _ :=
            try_catch (cacheSet cacheKey episodes (response_ttl env)) (fun _ => ret tt) in
          let* payload :=
            lift (mapO (season_episode_payload (VNum seriesId)) (array_items episodes)) in
          ret (jsonResponse Upstream (VArr payload))).

End SeriesHandlers.

(** [limited.filter(...).map(buildSeriesPayloadFromSearch)]. *)
Definition search_payload (top : Z) (results : list jsval) : outcome (list jsval) :=
  let limited := take (Z.to_nat (Z.min top (Z.of_nat (length results)))) results in
  mapO buildSeriesPayloadFromSearch
    (filter (fun item => lacks_numeric_id item = false) limited).

Definition handleSeriesSearch (now : Z) (tmdb : outcome jsval) (req : request) : M reply :=
  if negb (String.eqb (method req) "GET") then ret (errorResponse 405 "method not allowed")
  else
    let query := opt_string (searchParams_get (searchParams (url req)) "query") in
    if negb (truthy query) then ret (errorResponse 400 "query is required")
    else
      let language :=
        VStr (normalizeLanguage (searchParams_get (searchParams (url req)) "language")) in
      let topRaw :=
        to_number (js_or (opt_string (searchParams_get (searchParams (url req)) "top"))
                     (VInt 1)) in
      let top := top_of topRaw in
      let* cached := readSearchCache query language now in
      let* data := if truthy cached then ret cached else lift tmdb in
      let* _ := if truthy cached then ret tt else cacheSearch query language data now in
      let* res := lift (get_prop data "results") in
      let results := array_items (array_or_empty res) in
      if (length results =? 0)%nat then ret (errorResponse 404 "TMDB series not found")
      else
        let* payload := lift (search_payload top results) in
        ret (jsonResponse (if truthy cached then UrlCache else Upstream) (VArr payload)).

(** *** About the handlers *)

(** A request the season handler does not reject. *)
Definition season_request (req : request) : bool :=
  String.eqb (method req) "GET"
  && isInteger (request_series req) && isInteger (request_season req).

(** The series id of a request for a series or a movie by id. *)
Definition request_id (req : request) : num :=
  to_number (VStr (last_segment (pathname (url req)) "")).

(** A request the series handler does not reject. *)
Definition series_request (req : request) : bool :=
  String.eqb (method req) "GET" && isInteger (request_id req).

(** The path is one the server dispatches to the handlers of this API. *)
Definition api_path (req : request) : bool := String.prefix "/v1/" (pathname (url req)).

(** What the season handler does once the request is accepted and
    nothing is kept under the URL's key: fetch, store, keep, reshape. *)
Definition season_upstream (localeCompare : string -> string -> Z) (env : Env) (now : Z)
    (tmdb : outcome jsval) (req : request) : M reply :=
  let* data := lift tmdb in
  let* eps := lift (get_prop data "episodes") in
  let episodes := array_or_empty eps in
  let* _ :=
    upsertSeasonEpisodes (VNum (request_series req)) (VNum (request_season req))
      (request_language req) episodes now in
  let* _ :=
    try_catch (cacheSet (buildCacheKeyFromUrl localeCompare (url req)) episodes
                 (response_ttl env)) (fun _ => ret tt) in
  let* payload :=
    lift (mapO (season_episode_payload (VNum (request_series req)))
            (array_items episodes)) in
  ret (jsonResponse Upstream (VArr payload)).

(** A request for the first season, and an upstream answer with one
    episode. *)
Definition season_one_request : request :=
  mkRequest "GET" (mkURL "/v1/series/1399/season/1" [("language", "en")]).

Definition season_one : jsval :=
  VObj [("episodes", VArr [pilot [guest_star 117642 "Jason Momoa" "Khal Drogo"]])].

(** The series row and the seasons the series handler reads for a
    request. *)
Definition cached_series (req : request) (r : redis) : jsval :=
  match (selectSeries (VNum (request_id req)) (request_language req) r).1 with
  | Ok v => v
  | Throw _ => VNull
  end.

Definition cached_seasons (req : request) (r : redis) : jsval :=
  match (readSeasons (VNum (request_id req)) (request_language req) r).1 with
  | Ok v => v
  | Throw _ => VArr []
  end.

(** The condition under which the series handler answers from the
    series row: it exists, is not older than the threshold, passes the
    completeness test, and there are seasons. *)
Definition series_usable (now : Z) (row seasons : jsval) : bool :=
  truthy row && negb (shouldRefresh now row)
  && match isExtendedDataMissing row with
     | Ok missing => negb missing
     | Throw _ => false
     end
  && num_gtb (to_number (field seasons "length")) (Int 0).

(** What the series handler does once the request is accepted, the
    row is not usable and nothing is kept under the URL's key. *)
Definition series_upstream (localeCompare : string -> string -> Z) (env : Env) (now : Z)
    (tmdb : outcome jsval) (req : request) : M reply :=
  let* data := lift tmdb in
  let genreIds := extractGenreIdsFromDetails data in
  let* payload := lift (buildSeriesPayload data (VArr genreIds)) in
  let* _ := upsertSeries (request_language req) payload now in
  let* _ :=
    upsertSeasons (VNum (request_id req)) (request_language req)
      (field payload "seasons") now in
  let body := set_field payload "seasons" (field payload "seasons") in
  let* _ :=
    try_catch (cacheSet (buildCacheKeyFromUrl localeCompare (url req)) body
                 (response_ttl env)) (fun _ => ret tt) in
  ret (jsonResponse Upstream body).

(** No row of the series table has a [seasons] property. *)
Definition bare_series_rows (r : redis) : Prop :=
  forall id language, field (stored (series_id_key id language) r) "seasons" = VUndef.

Definition keeps_bare {A} (m : M A) : Prop :=
  forall r, bare_series_rows r -> bare_series_rows (m r).2.

(** A request for a series, and the store after the handler answered
    it from upstream with the details of the series. *)
Definition series_one_request : request :=
  mkRequest "GET" (mkURL "/v1/series/1399" [("language", "en")]).

(** *** About the search handler *)








(** ** The movie routes (record-store variant), continued *)

Definition rowToMovie (row channelId : jsval) : jsval :=
  if negb (truthy row) then VNull
  else
    VObj [("channelId", js_nullish channelId VNull);
          ("movieId", field row "tmdb_id");
          ("title", field row "title");
          ("overview", field row "overview");
          ("releaseDate", field row "release_date");
          ("posterPath", field row "poster_path");
          ("genres", VArr (parseJsonArray (field row "genres")));
          ("rating", js_nullish (field row "rating") (VInt 0));
          ("ratingCount", js_nullish (field row "rating_count") (VInt 0));
          ("directorName", field row "director_name");
          ("cast", VArr (parseJsonArray (field row "cast_names")));
          ("castProfilePaths", VArr (parseJsonArray (field row "cast_profile_paths")));
          ("updatedAt", field row "updated_at")].

Section MovieHandlers.

Variable localeCompare : string -> string -> Z.


End MovieHandlers.

(** ** routes/movie.js: the year in a title *)

(** [(19|20)\d{2}] at the head of [s], not followed by a digit. *)
Definition year_here (s : string) : option Z :=
  match s with
  | String a (String b (String c (String d rest))) =>
      if (Ascii.eqb a "1"%char && Ascii.eqb b "9"%char
          || Ascii.eqb a "2"%char && Ascii.eqb b "0"%char)
         && is_digit c && is_digit d
         && negb (match rest with String e _ => is_digit e | EmptyString => false end)
      then Some (Z.of_N (digits_value 0 (String a (String b (String c (String d "")))))%N)
      else None
  | _ => None
  end.

(** The first match of [/(?<!\d)(19|20)\d{2}(?!\d)/]; [after_digit]
    tells whether the character before [s] is a digit. *)
Fixpoint first_year (after_digit : bool) (s : string) : option Z :=
  match s with
  | EmptyString => None
  | String c r =>
      match (if after_digit then None else year_here s) with
      | Some y => Some y
      | None => first_year (is_digit c) r
      end
  end.

Definition extractYear (title : string) : jsval :=
  match first_year false title with
  | Some y => VInt y
  | None => VNull
  end.

(** *** About the movie handler *)

(** A value JSON keeps as it is, or no value at all. *)
Definition plain (v : jsval) : bool := is_undefined v || is_json v.

(** What [rowToMovie] makes of the row that [upsertMovieById] wrote
    for [payload] at [now]. *)
Definition movie_from_record (payload : jsval) (now : Z) : jsval :=
  VObj [("channelId", VNull);
        ("movieId", field payload "movieId");
        ("title", field payload "title");
        ("overview", field payload "overview");
        ("releaseDate", field payload "releaseDate");
        ("posterPath", field payload "posterPath");
        ("genres", array_or_empty (field payload "genres"));
        ("rating", js_nullish (field payload "rating") (VInt 0));
        ("ratingCount", js_nullish (field payload "ratingCount") (VInt 0));
        ("directorName", field payload "directorName");
        ("cast", array_or_empty (field payload "cast"));
        ("castProfilePaths", array_or_empty (field payload "castProfilePaths"));
        ("updatedAt", VInt now)].




(** A movie payload as [fetchMovieDetails] returns it, and a request
    for that movie. *)
Definition inception : jsval :=
  VObj [("movieId", VInt 27205);
        ("title", VStr "Inception");
        ("overview", VStr "A thief who steals corporate secrets.");
        ("releaseDate", VStr "2010-07-15");
        ("posterPath", VStr "/inception.jpg");
        ("genres", VArr [VStr "Action"; VStr "Science Fiction"]);
        ("rating", VNum (Dec 84 1));
        ("ratingCount", VInt 34000);
        ("directorName", VStr "Christopher Nolan");
        ("cast", VArr [VStr "Leonardo DiCaprio"]);
        ("castProfilePaths", VArr [VNull])].


(** The payload has no rating yet: rating and rating count, with zero
    for an absent one, are both [0]. *)
Definition unrated (payload : jsval) : bool :=
  seq_num (js_nullish (field payload "rating") (VInt 0)) (Int 0)
  && seq_num (js_nullish (field payload "ratingCount") (VInt 0)) (Int 0).


(** No character of [s] is a digit. *)
Fixpoint digit_free (s : string) : bool :=
  match s with
  | EmptyString => true
  | String c r => negb (is_digit c) && digit_free r
  end.

(** Four digits that begin with 19 or 20. *)
Definition year_text (s : string) : bool :=
  match s with
  | String a (String b (String c (String d EmptyString))) =>
      (Ascii.eqb a "1"%char && Ascii.eqb b "9"%char
       || Ascii.eqb a "2"%char && Ascii.eqb b "0"%char)
      && is_digit c && is_digit d
  | _ => false
  end.

(** [s] does not begin with a digit. *)
Definition no_digit_ahead (s : string) : bool :=
  match s with
  | String e _ => negb (is_digit e)
  | EmptyString => true
  end.

(** ** server.js: the routes *)

(** What the server does with a request. *)
Inductive handler :=
| Preflight
| MethodNotAllowed
| Health
| HandleSearch
| HandleMovieLookup
| HandleMovieById
| HandleStreamUrl
| HandleSeriesSearch
| HandleSeriesEpisode
| HandleSeriesSeason
| HandleSeriesById
| HandleTmdbProxy
| NotFound.

(** The patterns of the routes, each piece followed by the rest of the
    pattern: a literal, [\d+] (one digit, then more digits or the
    rest), and [$]. *)
Definition lit (t : string) (k : string -> bool) (s : string) : bool :=
  match strip_prefix t s with
  | Some r => k r
  | None => false
  end.

Fixpoint more_digits (k : string -> bool) (s : string) : bool :=
  k s ||
  match s with
  | String c r => is_digit c && more_digits k r
  | EmptyString => false
  end.

Definition digits_plus (k : string -> bool) (s : string) : bool :=
  match s with
  | String c r => is_digit c && more_digits k r
  | EmptyString => false
  end.

Definition at_end (s : string) : bool := String.eqb s "".

(** [/^\/v1\/movie\/\d+\/\d+$/]. *)
Definition movie_by_id_path : string -> bool :=
  lit "/v1/movie/" (digits_plus (lit "/" (digits_plus at_end))).

(** [/^\/v1\/series\/\d+\/season\/\d+\/episode\/\d+$/]. *)
Definition series_episode_path : string -> bool :=
  lit "/v1/series/"
    (digits_plus (lit "/season/" (digits_plus (lit "/episode/" (digits_plus at_end))))).

(** [/^\/v1\/series\/\d+\/season\/\d+$/]. *)
Definition series_season_path : string -> bool :=
  lit "/v1/series/" (digits_plus (lit "/season/" (digits_plus at_end))).

Definition dispatch (req : request) : handler :=
  if String.eqb (method req) "OPTIONS" then Preflight
  else if negb (String.eqb (method req) "GET") then MethodNotAllowed
  else
    let p := pathname (url req) in
    if String.eqb p "/v1/health" then Health
    else if String.eqb p "/v1/search" then HandleSearch
    else if String.eqb p "/v1/movie/lookup" then HandleMovieLookup
    else if String.eqb p "/v1/movie" then HandleMovieLookup
    else if String.prefix "/v1/movie/" p then HandleMovieLookup
    else if movie_by_id_path p then HandleMovieById
    else if String.eqb p "/v1/stream-url" then HandleStreamUrl
    else if String.eqb p "/v1/series/search" then HandleSeriesSearch
    else if String.eqb p "/v1/series" || String.eqb p "/v1/series/" then HandleSeriesSearch
    else if series_episode_path p then HandleSeriesEpisode
    else if series_season_path p then HandleSeriesSeason
    else if String.prefix "/v1/series/" p then HandleSeriesById
    else if String.prefix "/3/" p then HandleTmdbProxy
    else NotFound.

(** The request reaches one of the handlers of the series routes. *)
Definition series_route (h : handler) : bool :=
  match h with
  | HandleSeriesSearch | HandleSeriesEpisode | HandleSeriesSeason | HandleSeriesById => true
  | _ => false
  end.

(** A run of one digit or more. *)
Definition number_text (s : string) : bool := all_digits s && negb (String.eqb s "").

(** *** Sample payloads *)

(** A movie record as the specification's scenario upserts it. *)
Definition rated (payload : jsval) (rating ratingCount : num) : Prop :=
  is_nullish payload = false
  /\ field payload "rating" = VNum rating
  /\ field payload "ratingCount" = VNum ratingCount.

(** The detail payload of a series with creators, 73 episodes and 8 seasons. *)
Definition detail_item : jsval :=
  VObj [("id", VInt 1399);
        ("genre_ids", VArr [VInt 10765; VInt 18]);
        ("original_language", VStr "en");
        ("overview", VStr "Seven noble families fight for control of the mythical land of Westeros.");
        ("original_name", VStr "Game of Thrones");
        ("created_by", VArr [VObj [("id", VInt 9813); ("name", VStr "David Benioff")]]);
        ("number_of_episodes", VInt 73);
        ("number_of_seasons", VInt 8);
        ("poster_path", VStr "/got.jpg");
        ("first_air_date", VStr "2011-04-17");
        ("name", VStr "Game of Thrones");
        ("vote_average", VNum (Dec 84 1));
        ("vote_count", VInt 21000);
        ("seasons", VArr [VObj [("id", VInt 3624); ("season_number", VInt 1)]])].

(** * Theorems *)
(** ** Decimal digits *)

Lemma digit_char_val (d : N) : (d < 10)%N -> digit_val (digit_char d) = d.
Proof.
  intros H. unfold digit_val, digit_char, code.
  rewrite N_ascii_embedding by lia. lia.
Qed.

Lemma digit_char_is_digit (d : N) : (d < 10)%N -> is_digit (digit_char d) = true.
Proof.
  intros H. unfold is_digit, digit_char, code.
  rewrite N_ascii_embedding by lia.
  apply andb_true_intro; split; apply N.leb_le; lia.
Qed.

Lemma mod10_lt (n : N) : (n mod 10 < 10)%N.
Proof. apply N.mod_lt. discriminate. Qed.

Lemma span_digits_app (ds k : string) :
  all_digits ds = true -> no_digit_head k = true ->
  span_digits (ds +:+ k) = (ds, k).
Proof.
  induction ds as [|c ds IH]; simpl; intros Hd Hk.
  - destruct k as [|c k]; simpl in *; [reflexivity|].
    apply negb_true_iff in Hk. now rewrite Hk.
  - apply andb_true_iff in Hd as [Hc Hd]. rewrite Hc, IH by assumption. reflexivity.
Qed.

Lemma digits_value_app (a b : string) (acc : N) :
  digits_value acc (a +:+ b) = digits_value (digits_value acc a) b.
Proof. revert acc. induction a as [|c a IH]; simpl; intros; [reflexivity | apply IH]. Qed.

Lemma fixed_digits_all (e : nat) : forall n acc,
  all_digits acc = true -> all_digits (fixed_digits e n acc) = true.
Proof.
  induction e as [|e IH]; simpl; intros n acc H; [assumption|].
  apply IH. simpl. rewrite digit_char_is_digit by apply mod10_lt. assumption.
Qed.

Lemma fixed_digits_length (e : nat) : forall n acc,
  String.length (fixed_digits e n acc) = (e + String.length acc)%nat.
Proof.
  induction e as [|e IH]; simpl; intros n acc; [reflexivity|].
  rewrite IH. simpl. lia.
Qed.

Lemma fixed_digits_value (e : nat) : forall n acc a,
  digits_value a (fixed_digits e n acc)
  = digits_value (a * 10 ^ N.of_nat e + n mod 10 ^ N.of_nat e)%N acc.
Proof.
  induction e as [|e IH]; intros n acc a.
  - simpl. f_equal. rewrite N.mod_1_r. lia.
  - cbn [fixed_digits]. rewrite IH. cbn [digits_value].
    rewrite digit_char_val by apply mod10_lt.
    f_equal. rewrite Nat2N.inj_succ, N.pow_succ_r'.
    set (p := (10 ^ N.of_nat e)%N).
    assert (Hp : (p <> 0)%N) by (apply N.pow_nonzero; discriminate).
    rewrite N.Div0.mod_mul_r. ring.
Qed.

Lemma digits_aux_all (fuel : nat) : forall n acc,
  all_digits acc = true -> all_digits (digits_aux fuel n acc) = true.
Proof.
  induction fuel as [|f IH]; simpl; intros n acc H; [assumption|].
  assert (all_digits (String (digit_char (n mod 10)) acc) = true)
    by (simpl; rewrite digit_char_is_digit by apply mod10_lt; assumption).
  destruct (n / 10 =? 0)%N; [assumption | now apply IH].
Qed.

Lemma digits_aux_value (fuel : nat) : forall n acc,
  (n < 2 ^ N.of_nat fuel)%N ->
  digits_value 0 (digits_aux fuel n acc) = digits_value n acc.
Proof.
  induction fuel as [|f IH]; intros n acc Hn.
  - simpl in *. f_equal. lia.
  - cbn [digits_aux]. cbv zeta.
    pose proof (N.div_mod n 10 ltac:(discriminate)) as Hdm.
    pose proof (mod10_lt n) as Hlt.
    destruct (N.eqb_spec (n / 10) 0) as [Hz|Hz].
    + cbn [digits_value]. rewrite digit_char_val by assumption. f_equal. lia.
    + rewrite IH.
      * cbn [digits_value]. rewrite digit_char_val by assumption. f_equal. lia.
      * rewrite Nat2N.inj_succ, N.pow_succ_r' in Hn.
        apply N.Div0.div_lt_upper_bound. lia.
Qed.

Lemma size_nat_bound (n : N) : (n < 2 ^ N.of_nat (S (N.size_nat n)))%N.
Proof.
  rewrite Nat2N.inj_succ, N.pow_succ_r'.
  destruct n as [|p]; [reflexivity|].
  assert (H : forall q, (N.pos q < 2 ^ N.of_nat (Pos.size_nat q))%N).
  { induction q as [q IH|q IH|]; cbn [Pos.size_nat];
      rewrite ?Nat2N.inj_succ, ?N.pow_succ_r'; lia. }
  specialize (H p). simpl N.size_nat. lia.
Qed.

Lemma digits_value_digits (n : N) : digits_value 0 (digits n) = n.
Proof. unfold digits. rewrite digits_aux_value by apply size_nat_bound. reflexivity. Qed.

Lemma digits_all (n : N) : all_digits (digits n) = true.
Proof. unfold digits. now apply digits_aux_all. Qed.

(** The first digit of a positive number is not a zero. *)
Lemma digits_aux_head (fuel : nat) : forall n acc,
  (n <> 0)%N -> (n < 2 ^ N.of_nat fuel)%N ->
  exists c rest, digits_aux fuel n acc = String c rest
                 /\ is_digit c = true /\ Ascii.eqb c "0"%char = false.
Proof.
  induction fuel as [|f IH]; intros n acc Hn Hlt.
  - simpl in Hlt. lia.
  - cbn [digits_aux]. cbv zeta.
    pose proof (N.div_mod n 10 ltac:(discriminate)) as Hdm.
    pose proof (mod10_lt n) as Hm.
    destruct (N.eqb_spec (n / 10) 0) as [Hz|Hz].
    + exists (digit_char (n mod 10)), acc. split; [reflexivity|]. split.
      * now apply digit_char_is_digit.
      * assert (n mod 10 <> 0)%N by lia.
        unfold digit_char. apply Ascii.eqb_neq. intros E.
        apply (f_equal N_of_ascii) in E. rewrite N_ascii_embedding in E by lia.
        simpl in E. lia.
    + apply IH; [assumption|].
      rewrite Nat2N.inj_succ, N.pow_succ_r' in Hlt.
      apply N.Div0.div_lt_upper_bound. lia.
Qed.

Lemma digits_head (n : N) :
  exists c rest, digits n = String c rest /\ is_digit c = true
                 /\ (Ascii.eqb c "0"%char && negb (String.eqb rest "") = false).
Proof.
  destruct (N.eq_dec n 0%N) as [->|Hn].
  - exists "0"%char, "". repeat split.
  - destruct (digits_aux_head (S (N.size_nat n)) n "" Hn (size_nat_bound n))
      as (c & rest & E & Hd & Hz).
    exists c, rest. repeat split; try assumption. now rewrite Hz.
Qed.

(** ** Text of numbers *)

Lemma append_cons (c : ascii) (a b : string) : String c a +:+ b = String c (a +:+ b).
Proof. reflexivity. Qed.

Lemma append_nil_l (b : string) : "" +:+ b = b.
Proof. reflexivity. Qed.

Lemma append_assoc (a b c : string) : (a +:+ b) +:+ c = a +:+ (b +:+ c).
Proof. induction a as [|x a IH]; [reflexivity|]. rewrite !append_cons. now f_equal. Qed.

Lemma append_nil_r (a : string) : a +:+ "" = a.
Proof. induction a as [|x a IH]; [reflexivity|]. rewrite append_cons. now f_equal. Qed.

Lemma num_stop_no_digit (k : string) : num_stop k = true -> no_digit_head k = true.
Proof.
  destruct k as [|c k]; simpl; [reflexivity|].
  rewrite negb_true_iff, !orb_false_iff. intros [[[H _] _] _]. now rewrite H.
Qed.

Lemma scan_frac_stop (k : string) : num_stop k = true -> scan_frac true k = Some ("", k).
Proof.
  destruct k as [|c k]; simpl; [reflexivity|].
  rewrite negb_true_iff, !orb_false_iff. intros [[[_ H] _] _]. now rewrite H.
Qed.

Lemma scan_exp_stop (k : string) : num_stop k = true -> scan_exp k = Some (0, k).
Proof.
  destruct k as [|c k]; simpl; [reflexivity|].
  rewrite negb_true_iff, !orb_false_iff. intros [[[_ _] H1] H2]. now rewrite H1, H2.
Qed.

Lemma pow10_N (e : nat) : Z.to_N (pow10 e) = (10 ^ N.of_nat e)%N.
Proof.
  unfold pow10. rewrite <- (N2Z.id (10 ^ N.of_nat e)). f_equal.
  rewrite N2Z.inj_pow, nat_N_Z. reflexivity.
Qed.

Lemma is_digit_not_minus (c : ascii) : is_digit c = true -> Ascii.eqb c "-"%char = false.
Proof.
  intros H. apply Ascii.eqb_neq. intros ->. discriminate H.
Qed.

Lemma norm_dec_idem (e : nat) : forall m,
  match norm_dec m e with
  | Dec m' e' => norm_dec m' e' = Dec m' e'
  | NaN => False
  end.
Proof.
  induction e as [|e IH]; intros m; simpl.
  - reflexivity.
  - destruct (m mod 10 =? 0) eqn:E; [apply IH|].
    simpl. now rewrite E.
Qed.

(** The unsigned part of the text of [m * 10^-e]. *)
Lemma scan_unsigned (m : Z) (e : nat) (k : string) :
  num_stop k = true ->
  let a := Z.to_N (Z.abs m) in
  let p := Z.to_N (pow10 e) in
  let fr := match e with
            | O => ""
            | S _ => String "."%char (fixed_digits e (a mod p) "")
            end in
  exists ip fp c0 rest0,
    span_digits (digits (a / p) +:+ fr +:+ k) = (ip, fr +:+ k)
    /\ ip = String c0 rest0
    /\ is_digit c0 = true
    /\ (Ascii.eqb c0 "0"%char && negb (String.eqb rest0 "") = false)
    /\ scan_frac true (fr +:+ k) = Some (fp, k)
    /\ String.length fp = e
    /\ digits_value 0%N (ip +:+ fp) = a.
Proof.
  intros Hk a p fr.
  destruct (digits_head (a / p)) as (c0 & rest0 & E & Hd & Hz).
  assert (Hp : p = (10 ^ N.of_nat e)%N) by apply pow10_N.
  assert (Hp0 : p <> 0%N) by (rewrite Hp; apply N.pow_nonzero; discriminate).
  exists (digits (a / p)),
    (match e with O => "" | S _ => fixed_digits e (a mod p) "" end), c0, rest0.
  split; [|split; [assumption|split; [assumption|split; [assumption|]]]].
  - apply span_digits_app; [apply digits_all|].
    subst fr. destruct e; [now apply num_stop_no_digit | reflexivity].
  - subst fr. destruct e as [|e].
    + rewrite append_nil_l. split; [now apply scan_frac_stop|]. split; [reflexivity|].
      rewrite append_nil_r, digits_value_digits.
      rewrite Hp. simpl. apply N.div_1_r.
    + rewrite append_cons. cbn [scan_frac]. simpl Ascii.eqb. cbv iota.
      rewrite span_digits_app;
        [| now apply fixed_digits_all | now apply num_stop_no_digit].
      assert (Hl : String.length (fixed_digits (S e) (a mod p) "") = S e)
        by (rewrite fixed_digits_length; simpl; lia).
      destruct (fixed_digits (S e) (a mod p) "") as [|x xs] eqn:Ef; [discriminate Hl|].
      simpl andb. cbv iota. split; [reflexivity|]. split; [assumption|].
      rewrite digits_value_app, digits_value_digits, <- Ef, fixed_digits_value.
      simpl digits_value. rewrite <- Hp, N.Div0.mod_mod.
      pose proof (N.div_mod a p Hp0). lia.
Qed.

Lemma scan_json_number_text (m : Z) (e : nat) (k : string) :
  num_stop k = true ->
  scan_json_number (dec_text m e +:+ k) = Some (norm_dec m e, k).
Proof.
  intros Hk. unfold dec_text.
  destruct (scan_unsigned m e k Hk) as (ip & fp & c0 & rest0 & Hs & Hip & Hd & Hz & Hf & Hl & Hv).
  cbv zeta in Hs.
  set (a := Z.to_N (Z.abs m)) in *. set (p := Z.to_N (pow10 e)) in *.
  set (fr := match e with O => "" | S _ => String "."%char (fixed_digits e (a mod p) "") end) in *.
  rewrite !append_assoc.
  assert (Hres : forall neg : bool, (if neg then - Z.of_N a else Z.of_N a) = m ->
            mk_num neg ip fp 0 = norm_dec m e).
  { intros neg Hm. unfold mk_num. rewrite Hv, Hm, Hl.
    destruct e as [|e].
    - simpl. f_equal. lia.
    - replace (0 <=? 0 - Z.of_nat (S e)) with false by (symmetry; apply Z.leb_gt; lia).
      f_equal. lia. }
  unfold scan_json_number.
  destruct (m <? 0) eqn:Em.
  - rewrite append_cons, append_nil_l. simpl Ascii.eqb. cbv iota.
    rewrite Hs, Hip. rewrite Hz. rewrite <- Hip. rewrite Hf.
    rewrite scan_exp_stop by assumption.
    rewrite Hres; [reflexivity|]. apply Z.ltb_lt in Em. subst a. lia.
  - rewrite append_nil_l.
    assert (Hh : exists r, digits (a / p) +:+ fr +:+ k = String c0 r).
    { assert (E : digits (a / p) = ip).
      { pose proof Hs as Hs'.
        rewrite span_digits_app in Hs'; [congruence | apply digits_all |].
        subst fr. destruct e; [now apply num_stop_no_digit | reflexivity]. }
      rewrite E, Hip, append_cons. eauto. }
    destruct Hh as [r Hr]. rewrite Hr. rewrite (is_digit_not_minus _ Hd). rewrite <- Hr.
    rewrite Hs, Hip. rewrite Hz. rewrite <- Hip. rewrite Hf.
    rewrite scan_exp_stop by assumption.
    rewrite Hres; [reflexivity|]. apply Z.ltb_ge in Em. subst a. lia.
Qed.

(** ** Text of strings *)

Lemma read_string_esc_char (c : ascii) (t s k : string) :
  read_string t = Some (s, k) ->
  read_string (esc_char c t) = Some (String c s, k).
Proof.
  intros H.
  destruct c as [[] [] [] [] [] [] [] []];
    vm_compute esc_char; cbn [read_string]; vm_compute Ascii.eqb; cbv iota;
    try (vm_compute N.ltb; cbv iota); try (vm_compute unescape; cbv iota);
    try (vm_compute hex4; cbv iota; vm_compute utf8);
    rewrite H; reflexivity.
Qed.

Lemma read_string_esc (s k : string) :
  read_string (esc_string s (String dquote k)) = Some (s, k).
Proof.
  induction s as [|c s IH]; [reflexivity|].
  simpl esc_string. now apply read_string_esc_char.
Qed.

(** ** Text of values *)

(** Evaluate the character tests whose arguments are known. *)
Ltac known_test t :=
  let v := eval vm_compute in t in
  match v with
  | true => change t with true
  | false => change t with false
  end.

Ltac char_tests :=
  repeat match goal with
    | |- context [Ascii.eqb ?a ?b] => known_test (Ascii.eqb a b)
    | |- context [is_jspace ?a] => known_test (is_jspace a)
    | |- context [is_digit ?a] => known_test (is_digit a)
    end;
  cbn [orb andb negb]; cbv iota.

Lemma jsval_ind' (P : jsval -> Prop) :
  P VUndef -> P VNull -> (forall b, P (VBool b)) -> (forall n, P (VNum n)) ->
  (forall s, P (VStr s)) ->
  (forall l, Forall P l -> P (VArr l)) ->
  (forall fs, Forall (fun f => P f.2) fs -> P (VObj fs)) ->
  forall v, P v.
Proof.
  intros Hu Hn Hb Hnum Hs Ha Ho.
  fix F 1. intros [| |b|n|s|l|fs];
    [exact Hu | exact Hn | apply Hb | apply Hnum | apply Hs | |].
  - apply Ha. induction l as [|x l IH]; constructor; [apply F | apply IH].
  - apply Ho. induction fs as [|[k x] fs IH]; constructor; [apply F | apply IH].
Qed.

Lemma toJSON_VObj (fs : list (string * jsval)) :
  toJSON (VObj fs) = VObj (toJSON_props fs []).
Proof.
  reflexivity.
Qed.

Lemma emit_VArr (l : list jsval) (k : string) :
  emit (VArr l) k = String "["%char (emit_elems l k).
Proof.
  simpl. f_equal. induction l as [|x l IH]; simpl; [reflexivity|].
  destruct l; [reflexivity|]. now rewrite IH.
Qed.

Lemma emit_VObj (fs : list (string * jsval)) (k : string) :
  emit (VObj fs) k = String "{"%char (emit_members fs k).
Proof.
  simpl. f_equal. induction fs as [|[key x] fs IH]; simpl; [reflexivity|].
  destruct fs; [reflexivity|]. now rewrite IH.
Qed.

Lemma dec_text_head (m : Z) (e : nat) (k : string) :
  exists c r, dec_text m e +:+ k = String c r
              /\ (Ascii.eqb c "-"%char || is_digit c = true).
Proof.
  unfold dec_text. destruct (m <? 0).
  - eexists _, _. rewrite append_cons. split; reflexivity.
  - rewrite append_nil_l.
    destruct (digits_head (Z.to_N (Z.abs m) / Z.to_N (pow10 e))) as (c & r & E & Hd & _).
    rewrite E. eexists _, _. rewrite !append_cons. split; [reflexivity|].
    rewrite Hd. apply orb_true_r.
Qed.

Lemma digit_or_minus_opens (c : ascii) :
  Ascii.eqb c "-"%char || is_digit c = true ->
  is_jspace c = false /\ Ascii.eqb c "]"%char = false /\ Ascii.eqb c "}"%char = false.
Proof.
  destruct c as [[] [] [] [] [] [] [] []]; vm_compute; intros H;
    try discriminate H; repeat split.
Qed.

Lemma emit_opens (v : jsval) (k : string) : opens_value (emit v k).
Proof.
  destruct v as [| |[]|[|m e]|s|l|fs];
    try (eexists _, _; split; [reflexivity | repeat split]).
  destruct (dec_text_head m e k) as (c & r & E & H).
  exists c, r. split; [exact E|]. now apply digit_or_minus_opens.
Qed.

Lemma skip_jws_opens (s : string) : opens_value s -> skip_jws s = s.
Proof. intros (c & r & -> & H & _). simpl. now rewrite H. Qed.

Lemma obj_set_fresh (fs : list (string * jsval)) (k : string) (v : jsval) :
  k ∉ fs.*1 -> obj_set fs k v = (fs ++ [(k, v)])%list.
Proof.
  induction fs as [|[k' v'] fs IH]; simpl; intros H; [reflexivity|].
  apply not_elem_of_cons in H as [Hne H].
  destruct (String.eqb_spec k' k) as [->|_]; [congruence|].
  now rewrite IH.
Qed.

Lemma fold_obj_set_nodup (fs acc : list (string * jsval)) :
  NoDup ((acc ++ fs)%list.*1) ->
  fold_left (fun a f => obj_set a f.1 f.2) fs acc = (acc ++ fs)%list.
Proof.
  revert acc. induction fs as [|[k v] fs IH]; intros acc H; simpl.
  - now rewrite app_nil_r.
  - rewrite obj_set_fresh.
    + rewrite IH; rewrite <- app_assoc; [reflexivity | exact H].
    + rewrite fmap_app in H. apply NoDup_app in H as (_ & H & _).
      intros Hin. apply (H k Hin). simpl. left.
Qed.

Lemma parse_elems_emit (l : list jsval) :
  l <> [] -> Forall roundtrips l ->
  forall fuel k, (list_sum (map (fun x => S (size x)) l) <= fuel)%nat ->
    parse_elems fuel (emit_elems l k) = Some (l, k).
Proof.
  induction l as [|x l IH]; intros Hne Hall fuel k Hf; [congruence|].
  apply Forall_cons in Hall as [Hx Hall].
  simpl in Hf. destruct fuel as [|f]; [lia|].
  cbn [parse_elems emit_elems].
  destruct l as [|y l].
  - rewrite Hx by (simpl; lia || reflexivity). reflexivity.
  - rewrite Hx by (simpl; lia || reflexivity).
    cbn [skip_jws]. char_tests.
    rewrite IH; [reflexivity | discriminate | assumption | simpl in *; lia].
Qed.

Lemma parse_members_emit (fs : list (string * jsval)) :
  fs <> [] -> Forall (fun f => roundtrips f.2) fs ->
  forall fuel k acc, (list_sum (map (fun f => S (size f.2)) fs) <= fuel)%nat ->
    parse_members fuel (emit_members fs k) acc
    = Some (fold_left (fun a f => obj_set a f.1 f.2) fs acc, k).
Proof.
  induction fs as [|[key x] fs IH]; intros Hne Hall fuel k acc Hf; [congruence|].
  apply Forall_cons in Hall as [Hx Hall]. simpl in Hx.
  simpl in Hf. destruct fuel as [|f]; [lia|].
  cbn [parse_members emit_members fold_left].
  unfold emit_string at 1. cbn [skip_jws]. char_tests.
  rewrite read_string_esc.
  cbn [skip_jws]. char_tests.
  destruct fs as [|g fs].
  - rewrite Hx by (simpl; lia || reflexivity). reflexivity.
  - rewrite Hx by (simpl; lia || reflexivity).
    cbn [skip_jws]. char_tests.
    rewrite IH; [reflexivity | discriminate | assumption | simpl in *; lia].
Qed.

Lemma parse_emit (v : jsval) : is_json v = true -> roundtrips v.
Proof.
  induction v as [| |b|n|s|l IH|fs IH] using jsval_ind'; intros Hj fuel k Hf Hk;
    try discriminate Hj; (destruct fuel as [|f]; [simpl in Hf; lia|]).
  - reflexivity.
  - destruct b; reflexivity.
  - destruct n as [|m e]; [discriminate Hj|].
    simpl in Hj. pose proof (norm_dec_idem e m) as Hn.
    destruct (norm_dec m e) as [|m' e'] eqn:E; [discriminate Hj|].
    apply andb_true_iff in Hj as [Hm He].
    apply Z.eqb_eq in Hm. apply Nat.eqb_eq in He. subst m' e'.
    cbn [emit parse_value].
    destruct (dec_text_head m e k) as (c & r & Et & Hc).
    destruct (digit_or_minus_opens c Hc) as (Hsp & _).
    rewrite Et. cbn [skip_jws]. rewrite Hsp, Hc. rewrite <- Et.
    rewrite scan_json_number_text by assumption. now rewrite E.
  - cbn [emit parse_value]. unfold emit_string. cbn [skip_jws].
    char_tests. rewrite read_string_esc. reflexivity.
  - rewrite emit_VArr. cbn [parse_value skip_jws].
    char_tests.
    destruct l as [|x l]; [reflexivity|].
    assert (Hall : Forall roundtrips (x :: l)).
    { simpl in Hj. rewrite Forall_forall in IH. apply Forall_forall. intros y Hy.
      apply IH; [assumption|].
      change (forallb is_json (x :: l) = true) in Hj.
      rewrite forallb_forall in Hj. apply Hj. now apply list_elem_of_In. }
    destruct (emit_opens x
                (match l with [] => String "]"%char k
                 | _ :: _ => String ","%char (emit_elems l k) end))
      as (c & r & Ec & Hsp & Hb & _).
    cbn [emit_elems]. rewrite Ec. cbn [skip_jws]. rewrite Hsp, Hb. rewrite <- Ec.
    change (emit x _) with (emit_elems (x :: l) k).
    rewrite parse_elems_emit; [reflexivity | discriminate | assumption |].
    simpl in Hf. simpl. lia.
  - rewrite emit_VObj. cbn [parse_value skip_jws].
    char_tests.
    destruct fs as [|[key x] fs]; [reflexivity|].
    simpl in Hj. apply andb_true_iff in Hj as [Hj Hnd].
    apply bool_decide_eq_true in Hnd.
    assert (Hall : Forall (fun f => roundtrips f.2) ((key, x) :: fs)).
    { rewrite Forall_forall in IH. apply Forall_forall. intros y Hy.
      apply IH; [assumption|].
      change (forallb (fun f => is_json f.2) ((key, x) :: fs) = true) in Hj.
      rewrite forallb_forall in Hj. apply Hj. now apply list_elem_of_In. }
    assert (Eh : exists r, emit_members ((key, x) :: fs) k = String dquote r)
      by (eexists; reflexivity).
    destruct Eh as [r Eh]. rewrite Eh. cbn [skip_jws]. char_tests. rewrite <- Eh.
    rewrite parse_members_emit; [| discriminate | assumption | simpl in Hf; simpl; lia].
    rewrite fold_obj_set_nodup by exact Hnd. reflexivity.
Qed.

Lemma length_cons (c : ascii) (s : string) : String.length (String c s) = S (String.length s).
Proof. reflexivity. Qed.

Lemma list_sum_cons (n : nat) (l : list nat) : list_sum (n :: l) = (n + list_sum l)%nat.
Proof. reflexivity. Qed.

Lemma length_append (a b : string) :
  String.length (a +:+ b) = (String.length a + String.length b)%nat.
Proof. induction a as [|c a IH]; [reflexivity|]. rewrite append_cons. simpl. now rewrite IH. Qed.

Lemma esc_char_length (c : ascii) (k : string) :
  (S (String.length k) <= String.length (esc_char c k))%nat.
Proof.
  unfold esc_char. repeat (match goal with |- context [if ?b then _ else _] => destruct b end);
    simpl; lia.
Qed.

Lemma esc_string_length (s k : string) :
  (String.length k <= String.length (esc_string s k))%nat.
Proof.
  induction s as [|c s IH]; simpl; [lia|].
  pose proof (esc_char_length c (esc_string s k)). lia.
Qed.

Lemma emit_string_length (s k : string) :
  (2 + String.length k <= String.length (emit_string s k))%nat.
Proof.
  unfold emit_string. cbn [String.length].
  pose proof (esc_string_length s (String dquote k)). simpl in *. lia.
Qed.

Lemma size_le_length (v : jsval) : forall k,
  (size v + String.length k <= String.length (emit v k))%nat.
Proof.
  induction v as [| |b|n|s|l IH|fs IH] using jsval_ind'; intros k.
  - cbn [emit size]. rewrite length_append. simpl. lia.
  - cbn [emit size]. rewrite length_append. simpl. lia.
  - destruct b; cbn [emit size]; rewrite length_append; simpl; lia.
  - destruct n as [|m e]; [cbn [emit size]; rewrite length_append; simpl; lia|].
    destruct (dec_text_head m e "") as (c & r & Et & _).
    rewrite append_nil_r in Et.
    cbn [emit size]. rewrite length_append, Et. simpl. lia.
  - cbn [emit size]. pose proof (emit_string_length s k). lia.
  - rewrite emit_VArr. cbn [size String.length].
    enough (list_sum (map (fun x => S (size x)) l) + String.length k
            <= String.length (emit_elems l k))%nat by lia.
    induction l as [|x l IHl]; [simpl; lia|].
    apply Forall_cons in IH as [Hx IH]. specialize (IHl IH).
    cbn [emit_elems map]. rewrite list_sum_cons.
    destruct l as [|y l].
    + specialize (Hx (String "]"%char k)). rewrite length_cons in Hx. simpl in *. lia.
    + specialize (Hx (String ","%char (emit_elems (y :: l) k))).
      rewrite length_cons in Hx. lia.
  - rewrite emit_VObj. cbn [size String.length].
    enough (list_sum (map (fun f => S (size f.2)) fs) + String.length k
            <= String.length (emit_members fs k))%nat by lia.
    induction fs as [|[key x] fs IHl]; [simpl; lia|].
    apply Forall_cons in IH as [Hx IH]. specialize (IHl IH). simpl in Hx.
    cbn [emit_members map]. rewrite list_sum_cons.
    match goal with |- context [emit_string key ?t] =>
      pose proof (emit_string_length key t) as Hs end.
    rewrite length_cons in Hs.
    destruct fs as [|g fs].
    + specialize (Hx (String "}"%char k)). rewrite length_cons in Hx. simpl in *. lia.
    + specialize (Hx (String ","%char (emit_members (g :: fs) k))).
      rewrite length_cons in Hx. simpl snd in *. lia.
Qed.

(** Parsing the text of a JSON value gives the value back. *)
Lemma JSON_parse_emit (v : jsval) :
  is_json v = true -> JSON_parse (emit v "") = Some v.
Proof.
  intros Hj. unfold JSON_parse.
  rewrite (parse_emit v Hj); [reflexivity | | reflexivity].
  pose proof (size_le_length v ""). simpl in *. lia.
Qed.

(** ** JSON values *)

Lemma forallb_Forall {A} (p : A -> bool) (l : list A) :
  forallb p l = true <-> Forall (fun x => p x = true) l.
Proof.
  induction l as [|x l IH]; simpl.
  - split; [constructor | reflexivity].
  - rewrite andb_true_iff, Forall_cons, IH. reflexivity.
Qed.

Lemma is_json_VObj (fs : list (string * jsval)) :
  is_json (VObj fs) = true <-> json_fields fs.
Proof.
  change (is_json (VObj fs))
    with (forallb (fun f => is_json f.2) fs && bool_decide (NoDup (map fst fs))).
  unfold json_fields.
  rewrite andb_true_iff, bool_decide_eq_true, forallb_Forall. reflexivity.
Qed.

Lemma is_json_VArr (l : list jsval) :
  is_json (VArr l) = true <-> Forall (fun x => is_json x = true) l.
Proof.
  change (is_json (VArr l)) with (forallb is_json l). apply forallb_Forall.
Qed.

Lemma is_json_Dec (m : Z) (e : nat) :
  is_json (VNum (Dec m e)) = true <-> norm_dec m e = Dec m e.
Proof.
  simpl. destruct (norm_dec m e) as [|m' e'].
  - split; discriminate.
  - rewrite andb_true_iff, Z.eqb_eq, Nat.eqb_eq. split.
    + now intros [-> ->].
    + intros [= -> ->]. auto.
Qed.

Lemma norm_dec_json (m : Z) (e : nat) :
  exists m' e', norm_dec m e = Dec m' e' /\ is_json (VNum (Dec m' e')) = true.
Proof.
  pose proof (norm_dec_idem e m) as H.
  destruct (norm_dec m e) as [|m' e']; [contradiction|].
  exists m', e'. split; [reflexivity|]. now apply is_json_Dec.
Qed.

Lemma obj_set_keys (fs : list (string * jsval)) (k : string) (v : jsval) :
  (obj_set fs k v).*1 = if bool_decide (k ∈ fs.*1) then fs.*1 else (fs.*1 ++ [k])%list.
Proof.
  induction fs as [|[k' v'] fs IH]; [reflexivity|].
  cbn [obj_set]. destruct (String.eqb_spec k' k) as [->|Hne].
  - rewrite !fmap_cons. cbn [fst].
    rewrite bool_decide_eq_true_2 by (apply elem_of_cons; now left). reflexivity.
  - rewrite !fmap_cons. cbn [fst]. rewrite IH.
    destruct (decide (k ∈ fs.*1)) as [Hin|Hin].
    + rewrite !bool_decide_eq_true_2; [reflexivity | apply elem_of_cons; now right | assumption].
    + rewrite !bool_decide_eq_false_2; [reflexivity | | assumption].
      intros [E|H']%elem_of_cons; [congruence | contradiction].
Qed.

Lemma obj_set_json (fs : list (string * jsval)) (k : string) (v : jsval) :
  json_fields fs -> is_json v = true -> json_fields (obj_set fs k v).
Proof.
  intros [Hall Hnd] Hv. split.
  - clear Hnd. induction fs as [|[k' v'] fs IH]; cbn [obj_set].
    + now constructor.
    + apply Forall_cons in Hall as [H1 H2].
      destruct (String.eqb k' k); constructor; auto.
  - rewrite obj_set_keys. case_bool_decide as Hin; [assumption|].
    apply NoDup_app. split; [assumption|]. split.
    + intros x Hx [->|[]%elem_of_nil]%elem_of_cons. contradiction.
    + apply NoDup_singleton.
Qed.

Lemma json_fields_nil : json_fields [].
Proof. split; constructor. Qed.

Lemma toJSON_props_json (fs : list (string * jsval)) :
  Forall (fun f => is_json (toJSON f.2) = true) fs ->
  forall acc, json_fields acc -> json_fields (toJSON_props fs acc).
Proof.
  induction 1 as [|[k x] fs Hx _ IH]; intros acc Hacc; cbn [toJSON_props]; [assumption|].
  apply IH. destruct (is_undefined x); [assumption|]. now apply obj_set_json.
Qed.

(** What [JSON.stringify] writes is the text of a JSON value. *)
Lemma toJSON_is_json (v : jsval) : is_json (toJSON v) = true.
Proof.
  induction v as [| |b|n|s|l IH|fs IH] using jsval_ind'; try reflexivity.
  - destruct n as [|m e]; [reflexivity|]. cbn [toJSON norm].
    destruct (norm_dec_json m e) as (m' & e' & -> & H). exact H.
  - cbn [toJSON]. apply is_json_VArr. now apply Forall_map.
  - rewrite toJSON_VObj. apply is_json_VObj.
    apply toJSON_props_json; [assumption | apply json_fields_nil].
Qed.

Lemma is_json_not_undefined (v : jsval) : is_json v = true -> is_undefined v = false.
Proof. destruct v; [discriminate | reflexivity ..]. Qed.

Lemma toJSON_props_fixed (fs : list (string * jsval)) :
  Forall (fun f => is_json f.2 = true /\ toJSON f.2 = f.2) fs ->
  forall acc, toJSON_props fs acc = fold_left (fun a f => obj_set a f.1 f.2) fs acc.
Proof.
  induction 1 as [|[k x] fs [Hj Hx] _ IH]; intros acc; cbn [toJSON_props fold_left];
    [reflexivity|].
  simpl in Hj, Hx. rewrite (is_json_not_undefined x Hj), Hx. apply IH.
Qed.

(** A JSON value survives [JSON.stringify] unchanged. *)
Lemma toJSON_fixed (v : jsval) : is_json v = true -> toJSON v = v.
Proof.
  induction v as [| |b|n|s|l IH|fs IH] using jsval_ind'; intros Hj; try reflexivity.
  - discriminate Hj.
  - destruct n as [|m e]; [discriminate Hj|].
    apply is_json_Dec in Hj. cbn [toJSON norm]. now rewrite Hj.
  - apply is_json_VArr in Hj. cbn [toJSON]. f_equal.
    induction l as [|x l IHl]; [reflexivity|].
    apply Forall_cons in IH as [Hx IH]. apply Forall_cons in Hj as [Hjx Hj].
    cbn [map]. rewrite Hx by assumption. f_equal. now apply IHl.
  - apply is_json_VObj in Hj. destruct Hj as [Hall Hnd].
    rewrite toJSON_VObj. f_equal. rewrite toJSON_props_fixed.
    + now rewrite fold_obj_set_nodup.
    + rewrite Forall_forall in *. intros f Hf. split; [now apply Hall|].
      apply IH; [assumption | now apply Hall].
Qed.

Lemma mk_num_json (neg : bool) (ip fp : string) (x : Z) :
  is_json (VNum (mk_num neg ip fp x)) = true.
Proof.
  unfold mk_num. destruct (0 <=? _).
  - now apply is_json_Dec.
  - match goal with |- context [norm_dec ?m ?e] =>
      destruct (norm_dec_json m e) as (m' & e' & -> & H) end. exact H.
Qed.

Lemma scan_json_number_json (s : string) (n : num) (r : string) :
  scan_json_number s = Some (n, r) -> is_json (VNum n) = true.
Proof.
  unfold scan_json_number. intros H.
  repeat case_match; simplify_eq; apply mk_num_json.
Qed.

Lemma parse_json_aux (fuel : nat) :
  (forall s v r, parse_value fuel s = Some (v, r) -> is_json v = true)
  /\ (forall s l r, parse_elems fuel s = Some (l, r) ->
        Forall (fun x => is_json x = true) l)
  /\ (forall s acc fs r, parse_members fuel s acc = Some (fs, r) ->
        json_fields acc -> json_fields fs).
Proof.
  induction fuel as [|f (IHv & IHe & IHm)]; [repeat split; intros; discriminate|].
  split; [|split].
  - intros s v r H. cbn [parse_value] in H.
    repeat case_match; simplify_eq; try reflexivity.
    + eapply scan_json_number_json; eassumption.
    + apply is_json_VArr. eapply IHe; eassumption.
    + apply is_json_VObj. eapply IHm; [eassumption | apply json_fields_nil].
  - intros s l r H. cbn [parse_elems] in H.
    repeat case_match; simplify_eq.
    + constructor; [eapply IHv | eapply IHe]; eassumption.
    + constructor; [eapply IHv; eassumption | constructor].
  - intros s acc fs r H Hacc. cbn [parse_members] in H. cbv zeta in H.
    repeat case_match; simplify_eq.
    + eapply IHm; [eassumption|]. apply obj_set_json; [assumption|].
      eapply IHv; eassumption.
    + apply obj_set_json; [assumption|]. eapply IHv; eassumption.
Qed.

(** Whatever [JSON.parse] returns is a JSON value. *)
Lemma JSON_parse_json (s : string) (v : jsval) :
  JSON_parse s = Some v -> is_json v = true.
Proof.
  unfold JSON_parse. intros H. repeat case_match; simplify_eq.
  eapply (proj1 (parse_json_aux _)); eassumption.
Qed.

(** [JSON.parse(JSON.stringify(v))]. *)
Lemma JSON_roundtrip (v : jsval) (text : string) :
  JSON_stringify v = Some text -> JSON_parse text = Some (toJSON v).
Proof.
  unfold JSON_stringify. destruct (is_undefined v); [discriminate|].
  intros [= <-]. apply JSON_parse_emit, toJSON_is_json.
Qed.

(** ** The cache helpers *)

Lemma cacheGet_up (key : string) (r : redis) :
  down r = false -> cacheGet key r = (Ok (stored key r), r).
Proof.
  intros Hd. unfold cacheGet, bind, client_get, stored, decode. rewrite Hd.
  destruct (data r !! key) as [[text t]|]; simpl; [|reflexivity].
  destruct (String.eqb text ""); [reflexivity|].
  destruct (JSON_parse text); reflexivity.
Qed.

Lemma cacheGet_down (key : string) (r : redis) :
  down r = true -> cacheGet key r = (Throw RedisError, r).
Proof. intros Hd. unfold cacheGet, bind, client_get. now rewrite Hd. Qed.

Lemma stored_is_json (key : string) (r : redis) : is_json (stored key r) = true.
Proof.
  unfold stored, decode. destruct (data r !! key) as [[text t]|]; simpl; [|reflexivity].
  destruct (String.eqb text ""); [reflexivity|].
  destruct (JSON_parse text) as [v|] eqn:E; [|reflexivity].
  simpl. now apply JSON_parse_json in E.
Qed.

Lemma cacheSet_up (key : string) (v : jsval) (r : redis) :
  down r = false -> cacheSet key v ttl30 r = (Ok tt, written key v r).
Proof.
  destruct r as [d m]. simpl. intros ->. reflexivity.
Qed.

Lemma cacheSet_down (key : string) (v : jsval) (n : num) (r : redis) :
  down r = true -> cacheSet key v n r = (Throw RedisError, r).
Proof.
  intros Hd. unfold cacheSet, client_set. destruct (positive_finite n); now rewrite Hd.
Qed.

Lemma emit_nonempty (v : jsval) (k : string) : String.eqb (emit v k) "" = false.
Proof.
  pose proof (size_le_length v k) as H.
  destruct (emit v k); [|reflexivity].
  destruct v; simpl in H; lia.
Qed.

Lemma stored_written (key : string) (v : jsval) (r : redis) :
  is_undefined v = false -> stored key (written key v r) = toJSON v.
Proof.
  intros Hv. unfold stored, written, decode. simpl data.
  rewrite lookup_insert_eq. simpl raw.
  unfold JSON_stringify. rewrite Hv. simpl default.
  rewrite emit_nonempty, JSON_parse_emit by apply toJSON_is_json. reflexivity.
Qed.

Lemma stored_written_ne (key key' : string) (v : jsval) (r : redis) :
  key <> key' -> stored key' (written key v r) = stored key' r.
Proof.
  intros Hne. unfold stored, written. simpl data. now rewrite lookup_insert_ne.
Qed.

Lemma list_at_json (key : string) (r : redis) (arr : list jsval) :
  list_at key r = VArr arr -> Forall (fun x => is_json x = true) arr.
Proof.
  unfold list_at, js_or. intros H. apply is_json_VArr.
  destruct (truthy (stored key r)).
  - rewrite <- H. apply stored_is_json.
  - injection H as <-. reflexivity.
Qed.

Lemma toJSON_list_fixed (l : list jsval) :
  Forall (fun x => is_json x = true) l -> map toJSON l = l.
Proof.
  induction 1 as [|x l Hx _ IH]; [reflexivity|].
  cbn [map]. now rewrite toJSON_fixed, IH.
Qed.

Lemma toJSON_put_at (idx : option nat) (x : jsval) (arr : list jsval) :
  Forall (fun y => is_json y = true) arr ->
  toJSON (VArr (put_at idx x arr)) = VArr (put_at idx (toJSON x) arr).
Proof.
  intros H. cbn [toJSON]. f_equal. destruct idx as [i|]; cbn [put_at].
  - change (map toJSON (<[i:=x]> arr)) with (toJSON <$> <[i:=x]> arr).
    rewrite list_fmap_insert.
    change (toJSON <$> arr) with (map toJSON arr). now rewrite toJSON_list_fixed.
  - rewrite map_app. cbn [map]. now rewrite toJSON_list_fixed.
Qed.

(** ** Searching a list of records *)

Lemma objects_not_nullish (x : jsval) : is_object x = true -> is_nullish x = false.
Proof. destruct x; try discriminate; reflexivity. Qed.

Lemma same_number_object (k : string) (id x : jsval) :
  is_nullish x = false ->
  same_number k id x = Ok (num_eqb (to_number (field x k)) (to_number id)).
Proof. intros H. unfold same_number, get_prop. now rewrite H. Qed.

Lemma findIndex_index_of (k : string) (id : jsval) (arr : list jsval) :
  Forall (fun x => is_nullish x = false) arr ->
  findIndex (same_number k id) arr = Ok (index_of k id arr).
Proof.
  induction 1 as [|x arr Hx _ IH]; [reflexivity|].
  cbn [findIndex index_of]. rewrite same_number_object by assumption.
  destruct (num_eqb _ _); [reflexivity|].
  rewrite IH. now destruct (index_of k id arr).
Qed.

Lemma find_index_of (k : string) (id : jsval) (arr : list jsval) :
  Forall (fun x => is_nullish x = false) arr ->
  find (same_number k id) arr
  = Ok (match index_of k id arr with
        | Some i => default VUndef (arr !! i)
        | None => VUndef
        end).
Proof.
  induction 1 as [|x arr Hx _ IH]; [reflexivity|].
  cbn [find index_of]. rewrite same_number_object by assumption.
  destruct (num_eqb _ _); [reflexivity|].
  rewrite IH. now destruct (index_of k id arr).
Qed.

Lemma objects_nullish (arr : list jsval) :
  objects arr -> Forall (fun x => is_nullish x = false) arr.
Proof. intros H. eapply Forall_impl; [exact H|]. intros x. apply objects_not_nullish. Qed.

Lemma index_of_Some (k : string) (id : jsval) (arr : list jsval) (i : nat) :
  index_of k id arr = Some i ->
  exists x, arr !! i = Some x
            /\ num_eqb (to_number (field x k)) (to_number id) = true
            /\ forall j y, (j < i)%nat -> arr !! j = Some y ->
                 num_eqb (to_number (field y k)) (to_number id) = false.
Proof.
  revert i. induction arr as [|x arr IH]; intros i H; [discriminate|].
  cbn [index_of] in H. destruct (num_eqb _ _) eqn:E.
  - injection H as <-. exists x. repeat split; [assumption|]. intros j y Hj. lia.
  - destruct (index_of k id arr) as [i'|] eqn:E'; [|discriminate].
    injection H as <-. destruct (IH i' eq_refl) as (y & Hy & Hm & Hlt).
    exists y. repeat split; [exact Hy | exact Hm |].
    intros [|j] z Hj Hz; [now injection Hz as <- |].
    apply (Hlt j z); [lia | exact Hz].
Qed.

Lemma index_of_None (k : string) (id : jsval) (arr : list jsval) :
  index_of k id arr = None ->
  forall j y, arr !! j = Some y ->
    num_eqb (to_number (field y k)) (to_number id) = false.
Proof.
  induction arr as [|x arr IH]; intros H j y Hy; [discriminate|].
  cbn [index_of] in H. destruct (num_eqb _ _) eqn:E; [discriminate|].
  destruct (index_of k id arr) eqn:E'; [discriminate|].
  destruct j as [|j]; [now injection Hy as <- | now apply (IH eq_refl j)].
Qed.

Lemma index_of_lt (k : string) (id : jsval) (arr : list jsval) (i : nat) :
  index_of k id arr = Some i -> (i < length arr)%nat.
Proof.
  intros H. destruct (index_of_Some _ _ _ _ H) as (x & Hx & _).
  now apply lookup_lt_Some in Hx.
Qed.

(** ** Properties of an object after [toJSON] *)

Lemma obj_lookup_set (fs : list (string * jsval)) (k k' : string) (v : jsval) :
  obj_lookup (obj_set fs k' v) k = if String.eqb k' k then Some v else obj_lookup fs k.
Proof.
  induction fs as [|[k0 v0] fs IH]; cbn [obj_set obj_lookup].
  - reflexivity.
  - destruct (String.eqb_spec k0 k') as [->|Hne]; cbn [obj_lookup].
    + destruct (String.eqb k' k); reflexivity.
    + rewrite IH. destruct (String.eqb_spec k0 k) as [->|]; [|reflexivity].
      destruct (String.eqb_spec k' k); [congruence | reflexivity].
Qed.

Lemma obj_lookup_props (fs acc : list (string * jsval)) (k : string) :
  obj_lookup (toJSON_props fs acc) k = props_lookup fs k (obj_lookup acc k).
Proof.
  revert acc. induction fs as [|[k' x] fs IH]; intros acc; cbn [toJSON_props props_lookup];
    [reflexivity|].
  rewrite IH. f_equal. destruct (is_undefined x).
  - now destruct (String.eqb k' k).
  - apply obj_lookup_set.
Qed.

Lemma field_toJSON_obj (fs : list (string * jsval)) (k : string) :
  field (toJSON (VObj fs)) k = default VUndef (props_lookup fs k None).
Proof. rewrite toJSON_VObj. cbn [field]. now rewrite obj_lookup_props. Qed.

(** ** Dispatch on the statement text *)

Ltac sql_dispatch :=
  repeat match goal with
    | |- context [includes ?a ?b] => known_test (includes a b)
    end;
  cbn [orb andb negb]; cbv iota.

Lemma run_upsertMovieById (ps : list jsval) :
  run SQL_upsertMovieById ps = try_catch (run_movies_by_id ps) (fun _ => ret tt).
Proof. unfold run, run_body. sql_dispatch. reflexivity. Qed.

Lemma run_upsertMovieByChannel (ps : list jsval) :
  run SQL_upsertMovieByChannel ps = try_catch (run_movies_by_channel ps) (fun _ => ret tt).
Proof. unfold run, run_body. sql_dispatch. reflexivity. Qed.

Lemma run_upsertSeries (ps : list jsval) :
  run SQL_upsertSeries ps = try_catch (run_series_by_id ps) (fun _ => ret tt).
Proof. unfold run, run_body. sql_dispatch. reflexivity. Qed.

Lemma run_upsertSeasons (ps : list jsval) :
  run SQL_upsertSeasons ps = try_catch (run_series_seasons ps) (fun _ => ret tt).
Proof. unfold run, run_body. sql_dispatch. reflexivity. Qed.

Lemma run_upsertEpisode (ps : list jsval) :
  run SQL_upsertEpisode ps = try_catch (run_series_episodes ps) (fun _ => ret tt).
Proof. unfold run, run_body. sql_dispatch. reflexivity. Qed.

Lemma run_upsertGuestStar (ps : list jsval) :
  run SQL_upsertGuestStar ps = try_catch (run_episode_guest_stars ps) (fun _ => ret tt).
Proof. unfold run, run_body. sql_dispatch. reflexivity. Qed.

Lemma first_selectMovieById (ps : list jsval) :
  first SQL_selectMovieById ps
  = try_catch (let* v := cacheGet (movie_id_key (param ps 0) (lang_or_empty (param ps 1))) in
               ret (js_or v VNull)) (fun _ => ret VNull).
Proof. unfold first, first_body. sql_dispatch. reflexivity. Qed.

Lemma first_selectMovieByChannel (ps : list jsval) :
  first SQL_selectMovieByChannel ps
  = try_catch (let* v := cacheGet (movie_channel_key (param ps 0) (lang_or_empty (param ps 1))) in
               ret (js_or v VNull)) (fun _ => ret VNull).
Proof. unfold first, first_body. sql_dispatch. reflexivity. Qed.

Lemma first_selectSeries (ps : list jsval) :
  first SQL_selectSeries ps
  = try_catch (let* v := cacheGet (series_id_key (param ps 0) (lang_or_empty (param ps 1))) in
               ret (js_or v VNull)) (fun _ => ret VNull).
Proof. unfold first, first_body. sql_dispatch. reflexivity. Qed.

Lemma first_readEpisode (ps : list jsval) :
  first SQL_readEpisode ps = try_catch (first_episode ps) (fun _ => ret VNull).
Proof. unfold first, first_body. sql_dispatch. reflexivity. Qed.

Lemma all_readEpisodeGuests (ps : list jsval) :
  all SQL_readEpisodeGuests ps
  = try_catch (all_guests ps) (fun _ => ret (results (VArr []))).
Proof. unfold all, all_body. sql_dispatch. reflexivity. Qed.

Lemma all_readSeasons (ps : list jsval) :
  all SQL_readSeasons ps
  = try_catch (let* v := cacheGet (seasons_key (param ps 0) (lang_or_empty (param ps 1))) in
               ret (results (js_or v (VArr [])))) (fun _ => ret (results (VArr []))).
Proof. unfold all, all_body. sql_dispatch. reflexivity. Qed.

Lemma all_readSeasonEpisodes (ps : list jsval) :
  all SQL_readSeasonEpisodes ps
  = try_catch
      (let* v := cacheGet (episodes_key (param ps 0) (param ps 2) (lang_or_empty (param ps 1))) in
       ret (results (js_or v (VArr [])))) (fun _ => ret (results (VArr []))).
Proof. unfold all, all_body. sql_dispatch. reflexivity. Qed.

Lemma all_readSeasonGuests (ps : list jsval) :
  all SQL_readSeasonGuests ps
  = try_catch (all_guests ps) (fun _ => ret (results (VArr []))).
Proof. unfold all, all_body. sql_dispatch. reflexivity. Qed.

(** From here on the statement texts are only used through the lemmas
    above. *)
#[global] Opaque SQL_upsertSeries SQL_upsertSeasons SQL_readSeasons SQL_getSeasonCacheMeta
  SQL_readSeasonEpisodes SQL_readSeasonGuests SQL_readEpisode SQL_readEpisodeGuests
  SQL_upsertEpisode SQL_upsertGuestStar SQL_selectSeries SQL_upsertMovieByChannel
  SQL_upsertMovieById SQL_selectMovieByChannel SQL_selectMovieById.

(** ** Freshness *)

Lemma pow10_0 : pow10 0 = 1.
Proof. reflexivity. Qed.

Lemma age_of_int (now t : Z) (row : jsval) :
  field row "updated_at" = VInt t -> age_seconds now row = Dec (now * 1 - t * 1) 0.
Proof. intros H. unfold age_seconds. rewrite H. reflexivity. Qed.

Lemma stale_of_int (now t : Z) (row : jsval) :
  field row "updated_at" = VInt t ->
  num_gtb (age_seconds now row) (Int CACHE_INTERVAL_SECONDS)
  = (CACHE_INTERVAL_SECONDS <? now - t).
Proof.
  intros H. rewrite (age_of_int now t row H). unfold num_gtb, Int.
  rewrite pow10_0. f_equal; lia.
Qed.

Lemma shouldRefreshMovie_split (now : Z) (row : jsval) :
  truthy row = true ->
  shouldRefreshMovie now row
  = never_enriched row || num_gtb (age_seconds now row) (Int CACHE_INTERVAL_SECONDS).
Proof.
  intros H. unfold shouldRefreshMovie, never_enriched. rewrite H. simpl negb. cbv iota.
  now destruct (_ && _).
Qed.

(** C6, amended.  The age test is a strict threshold of thirty days: a
    present record updated at [now - staleAfterSeconds - 1] is stale for
    the series and for the movie routes; one updated at
    [now - staleAfterSeconds + 1] is fresh for the series routes, and
    for the movie routes it is fresh exactly when its rating and rating
    count are not both zero; an absent record is always stale. *)
Theorem freshness_boundary (now : Z) (row : jsval) :
  CACHE_INTERVAL_SECONDS = 30 * 86400
  /\ (truthy row = false ->
        shouldRefresh now row = true /\ shouldRefreshMovie now row = true)
  /\ (truthy row = true ->
      field row "updated_at" = VInt (now - CACHE_INTERVAL_SECONDS - 1) ->
        shouldRefresh now row = true /\ shouldRefreshMovie now row = true)
  /\ (truthy row = true ->
      field row "updated_at" = VInt (now - CACHE_INTERVAL_SECONDS + 1) ->
        shouldRefresh now row = false
        /\ shouldRefreshMovie now row = never_enriched row).
Proof.
  split; [reflexivity|]. split; [|split].
  - intros H. unfold shouldRefresh, shouldRefreshMovie. now rewrite H.
  - intros Ht Hu. rewrite shouldRefreshMovie_split by assumption.
    unfold shouldRefresh. rewrite Ht. simpl negb. cbv iota.
    rewrite (stale_of_int now _ row Hu).
    assert (E : (CACHE_INTERVAL_SECONDS <? now - (now - CACHE_INTERVAL_SECONDS - 1)) = true)
      by (apply Z.ltb_lt; lia).
    rewrite E. split; [reflexivity | apply orb_true_r].
  - intros Ht Hu. rewrite shouldRefreshMovie_split by assumption.
    unfold shouldRefresh. rewrite Ht. simpl negb. cbv iota.
    rewrite (stale_of_int now _ row Hu).
    assert (E : (CACHE_INTERVAL_SECONDS <? now - (now - CACHE_INTERVAL_SECONDS + 1)) = false)
      by (apply Z.ltb_ge; lia).
    rewrite E. split; [reflexivity | apply orb_false_r].
Qed.

Lemma freshness_boundary_witness :
  let now := 1700000000 in
  let row := VObj [("rating", VNum (Dec 84 1)); ("rating_count", VInt 1000);
                   ("updated_at", VInt (now - CACHE_INTERVAL_SECONDS + 1))] in
  shouldRefresh now row = false /\ shouldRefreshMovie now row = never_enriched row.
Proof.
  intros now row.
  apply (proj2 (proj2 (proj2 (freshness_boundary now row)))); reflexivity.
Defined.

(** C6 as stated fails on the movie routes: a movie record one second
    under the threshold whose rating and rating count are zero is
    stale. *)
Lemma freshness_boundary_counterexample :
  ~ (forall (now : Z) (row : jsval),
       truthy row = true ->
       field row "updated_at" = VInt (now - CACHE_INTERVAL_SECONDS + 1) ->
       shouldRefreshMovie now row = false).
Proof.
  intros H.
  specialize (H 1700000000
                (VObj [("rating", VInt 0); ("rating_count", VInt 0);
                       ("updated_at", VInt (1700000000 - CACHE_INTERVAL_SECONDS + 1))])
                eq_refl eq_refl).
  discriminate H.
Qed.

(** ** Scalar tables: write, then read back *)

(** Property [k] of a row literal after it went through the store. *)
Ltac row_field :=
  rewrite field_toJSON_obj;
  cbn [props_lookup String.eqb Ascii.eqb Bool.eqb andb param nth].

Lemma scalar_write_read (key : string) (row : list (string * jsval)) (r : redis) :
  down r = false ->
  try_catch (cacheSet key (VObj row) ttl30) (fun _ => ret tt) r
    = (Ok tt, written key (VObj row) r)
  /\ try_catch (let* v := cacheGet key in ret (js_or v VNull)) (fun _ => ret VNull)
       (written key (VObj row) r)
     = (Ok (toJSON (VObj row)), written key (VObj row) r).
Proof.
  intros Hd. split.
  - unfold try_catch. now rewrite cacheSet_up.
  - unfold try_catch, bind. rewrite cacheGet_up by exact Hd.
    rewrite stored_written by reflexivity. reflexivity.
Qed.

Lemma upsertMovieById_read (lang payload : jsval) (now : Z) (r : redis) :
  down r = false -> is_nullish payload = false ->
  exists r' row,
    upsertMovieById lang payload now r = (Ok tt, r')
    /\ selectMovieById (field payload "movieId") lang r' = (Ok row, r')
    /\ truthy row = true
    /\ field row "updated_at" = VInt now
    /\ field row "rating" = toJSON (js_nullish (field payload "rating") (VInt 0))
    /\ field row "rating_count" = toJSON (js_nullish (field payload "ratingCount") (VInt 0)).
Proof.
  intros Hd Hp.
  unfold upsertMovieById, selectMovieById, bind, lift, get_prop. rewrite Hp.
  rewrite run_upsertMovieById, first_selectMovieById.
  unfold run_movies_by_id, movie_id_row. cbn [param nth].
  match goal with |- context [cacheSet ?k (VObj ?row) _] =>
    destruct (scalar_write_read k row r Hd) as [Hw Hr] end.
  eexists _, _. split; [exact Hw|]. split; [exact Hr|].
  split; [reflexivity|].
  assert (Hnn : forall v, is_undefined (js_nullish v (VInt 0)) = false)
    by (intros [| | | | | |]; reflexivity).
  repeat split; row_field; rewrite ?Hnn; reflexivity.
Qed.

Lemma upsertMovieByChannel_read (channelId lang payload : jsval) (now : Z) (r : redis) :
  down r = false -> is_nullish payload = false ->
  exists r' row,
    upsertMovieByChannel channelId lang payload now r = (Ok tt, r')
    /\ selectMovieByChannel channelId lang r' = (Ok row, r')
    /\ truthy row = true
    /\ field row "updated_at" = VInt now
    /\ field row "rating" = toJSON (js_nullish (field payload "rating") (VInt 0))
    /\ field row "rating_count" = toJSON (js_nullish (field payload "ratingCount") (VInt 0)).
Proof.
  intros Hd Hp.
  unfold upsertMovieByChannel, selectMovieByChannel, bind, lift, get_prop. rewrite Hp.
  rewrite run_upsertMovieByChannel, first_selectMovieByChannel.
  unfold run_movies_by_channel, movie_channel_row. cbn [param nth].
  match goal with |- context [cacheSet ?k (VObj ?row) _] =>
    destruct (scalar_write_read k row r Hd) as [Hw Hr] end.
  eexists _, _. split; [exact Hw|]. split; [exact Hr|].
  split; [reflexivity|].
  assert (Hnn : forall v, is_undefined (js_nullish v (VInt 0)) = false)
    by (intros [| | | | | |]; reflexivity).
  repeat split; row_field; rewrite ?Hnn; reflexivity.
Qed.

(** C7.  A movie row whose rating and rating count are both zero is
    stale whatever its age; in particular the row read back right after
    an upsert with rating 0 and rating count 0 is stale although its
    [updated_at] is current, and the row read back right after an
    upsert with rating 8.4 and rating count 1000 is fresh; in both
    movie tables. *)
Theorem movie_zero_rating_stale :
  (forall (now : Z) (row : jsval),
     truthy row = true -> never_enriched row = true -> shouldRefreshMovie now row = true)
  /\ (forall (r : redis) (channelId lang payload : jsval) (now : Z),
        down r = false -> rated payload (Int 0) (Int 0) ->
        (exists r' row,
           upsertMovieById lang payload now r = (Ok tt, r')
           /\ selectMovieById (field payload "movieId") lang r' = (Ok row, r')
           /\ field row "updated_at" = VInt now
           /\ shouldRefreshMovie now row = true)
        /\ (exists r' row,
              upsertMovieByChannel channelId lang payload now r = (Ok tt, r')
              /\ selectMovieByChannel channelId lang r' = (Ok row, r')
              /\ field row "updated_at" = VInt now
              /\ shouldRefreshMovie now row = true))
  /\ (forall (r : redis) (channelId lang payload : jsval) (now : Z),
        down r = false -> rated payload (Dec 84 1) (Int 1000) ->
        (exists r' row,
           upsertMovieById lang payload now r = (Ok tt, r')
           /\ selectMovieById (field payload "movieId") lang r' = (Ok row, r')
           /\ shouldRefreshMovie now row = false)
        /\ (exists r' row,
              upsertMovieByChannel channelId lang payload now r = (Ok tt, r')
              /\ selectMovieByChannel channelId lang r' = (Ok row, r')
              /\ shouldRefreshMovie now row = false)).
Proof.
  assert (Hage : forall now row, field row "updated_at" = VInt now ->
            num_gtb (age_seconds now row) (Int CACHE_INTERVAL_SECONDS) = false).
  { intros now row H. rewrite (stale_of_int now now row H). apply Z.ltb_ge.
    unfold CACHE_INTERVAL_SECONDS. lia. }
  split; [|split].
  - intros now row Ht Hz. rewrite shouldRefreshMovie_split by assumption.
    now rewrite Hz.
  - intros r channelId lang payload now Hd (Hp & Hr & Hc). split.
    + destruct (upsertMovieById_read lang payload now r Hd Hp)
        as (r' & row & H1 & H2 & Ht & Hu & Hra & Hco).
      exists r', row. repeat split; try assumption.
      rewrite shouldRefreshMovie_split by assumption.
      unfold never_enriched. rewrite Hra, Hco, Hr, Hc. reflexivity.
    + destruct (upsertMovieByChannel_read channelId lang payload now r Hd Hp)
        as (r' & row & H1 & H2 & Ht & Hu & Hra & Hco).
      exists r', row. repeat split; try assumption.
      rewrite shouldRefreshMovie_split by assumption.
      unfold never_enriched. rewrite Hra, Hco, Hr, Hc. reflexivity.
  - intros r channelId lang payload now Hd (Hp & Hr & Hc). split.
    + destruct (upsertMovieById_read lang payload now r Hd Hp)
        as (r' & row & H1 & H2 & Ht & Hu & Hra & Hco).
      exists r', row. repeat split; try assumption.
      rewrite shouldRefreshMovie_split by assumption.
      rewrite (Hage now row Hu).
      unfold never_enriched. rewrite Hra, Hco, Hr, Hc. reflexivity.
    + destruct (upsertMovieByChannel_read channelId lang payload now r Hd Hp)
        as (r' & row & H1 & H2 & Ht & Hu & Hra & Hco).
      exists r', row. repeat split; try assumption.
      rewrite shouldRefreshMovie_split by assumption.
      rewrite (Hage now row Hu).
      unfold never_enriched. rewrite Hra, Hco, Hr, Hc. reflexivity.
Qed.

(** ** Reads never fail *)

Lemma readonly_ret {A} (a : A) : readonly (ret a).
Proof. intros r. reflexivity. Qed.

Lemma readonly_throw {A} (e : exn) : readonly (@throw A e).
Proof. intros r. reflexivity. Qed.

Lemma readonly_lift {A} (o : outcome A) : readonly (lift o).
Proof. intros r. reflexivity. Qed.

Lemma readonly_bind {A B} (m : M A) (k : A -> M B) :
  readonly m -> (forall a, readonly (k a)) -> readonly (bind m k).
Proof.
  intros Hm Hk r. unfold bind. specialize (Hm r).
  destruct (m r) as [[a|e] r']; simpl in *; subst r'; [apply Hk | reflexivity].
Qed.

Lemma readonly_try_catch {A} (m : M A) (h : exn -> M A) :
  readonly m -> (forall e, readonly (h e)) -> readonly (try_catch m h).
Proof.
  intros Hm Hh r. unfold try_catch. specialize (Hm r).
  destruct (m r) as [[a|e] r']; simpl in *; subst r'; [reflexivity | apply Hh].
Qed.

Lemma readonly_cacheGet (key : string) : readonly (cacheGet key).
Proof.
  intros r. destruct (down r) eqn:E.
  - now rewrite cacheGet_down.
  - now rewrite cacheGet_up.
Qed.

Ltac readonly_tac :=
  repeat first
    [ apply readonly_ret | apply readonly_throw | apply readonly_lift
    | apply readonly_cacheGet
    | apply readonly_bind; [|intros ?]
    | apply readonly_try_catch; [|intros ?]
    | match goal with
      | |- readonly (if ?b then _ else _) => destruct b
      | |- readonly (match ?x with _ => _ end) => destruct x
      end ].

Lemma readonly_first (sql : string) (ps : list jsval) : readonly (first sql ps).
Proof. unfold first, first_body, first_episode. readonly_tac. Qed.

Lemma readonly_all (sql : string) (ps : list jsval) : readonly (all sql ps).
Proof. unfold all, all_body, all_guests. readonly_tac. Qed.

Lemma first_total (sql : string) (ps : list jsval) (r : redis) :
  exists v, first sql ps r = (Ok v, r).
Proof.
  pose proof (readonly_first sql ps r) as Hr.
  assert (Hb : readonly (first_body sql ps))
    by (unfold first_body, first_episode; readonly_tac).
  specialize (Hb r). unfold first, try_catch in *.
  destruct (first_body sql ps r) as [[v|e] r']; simpl in Hb; subst r'; eauto.
Qed.

Lemma all_body_results (sql : string) (ps : list jsval) (r r' : redis) (v : jsval) :
  all_body sql ps r = (Ok v, r') -> exists l, v = results l.
Proof.
  unfold all_body, all_guests, bind, ret, throw, lift.
  intros H. repeat case_match; simplify_eq; eauto.
Qed.

Lemma all_total (sql : string) (ps : list jsval) (r : redis) :
  exists l, all sql ps r = (Ok (results l), r).
Proof.
  assert (Hb : readonly (all_body sql ps))
    by (unfold all_body, all_guests; readonly_tac).
  specialize (Hb r). unfold all, try_catch.
  destruct (all_body sql ps r) as [[v|e] r'] eqn:E; simpl in Hb; subst r'.
  - destruct (all_body_results _ _ _ _ _ E) as [l ->]. eauto.
  - eauto.
Qed.

(** What the shim's [try { ... cacheGet ... } catch] sees on a miss. *)
Lemma cacheGet_miss (key : string) (r : redis) :
  miss key r ->
  cacheGet key r = (Throw RedisError, r) \/ cacheGet key r = (Ok VNull, r).
Proof.
  intros Hm. destruct (down r) eqn:Hd; [left; now apply cacheGet_down|].
  right. rewrite cacheGet_up by assumption. f_equal. f_equal.
  unfold stored, decode.
  destruct Hm as [Hm|[Hm|(e & Hm & Hp)]]; [congruence | now rewrite Hm |].
  rewrite Hm, Hp. now destruct (String.eqb (raw e) "").
Qed.

Lemma getOne_miss (key : string) (r : redis) :
  miss key r ->
  try_catch (let* v := cacheGet key in ret (js_or v VNull)) (fun _ => ret VNull) r
  = (Ok VNull, r).
Proof.
  intros Hm. unfold try_catch, bind.
  destruct (cacheGet_miss key r Hm) as [-> | ->]; reflexivity.
Qed.

Lemma listByParent_miss (key : string) (r : redis) :
  miss key r ->
  try_catch (let* v := cacheGet key in ret (results (js_or v (VArr []))))
    (fun _ => ret (results (VArr []))) r
  = (Ok (results (VArr [])), r).
Proof.
  intros Hm. unfold try_catch, bind.
  destruct (cacheGet_miss key r Hm) as [-> | ->]; reflexivity.
Qed.

(** C9.  The reads of the record store never raise and leave the
    backend unchanged; on a key that is missing, or when the backend
    read fails, or when the stored text is not JSON, [getOne] returns
    [null] and [listByParent] returns the empty list, in every table. *)
Theorem reads_never_fail :
  (forall sql ps r, exists v, first sql ps r = (Ok v, r))
  /\ (forall sql ps r, exists l, all sql ps r = (Ok (results l), r))
  /\ (forall r id lang,
        (miss (movie_id_key id (lang_or_empty lang)) r ->
           selectMovieById id lang r = (Ok VNull, r))
        /\ (miss (movie_channel_key id (lang_or_empty lang)) r ->
              selectMovieByChannel id lang r = (Ok VNull, r))
        /\ (miss (series_id_key id (lang_or_empty lang)) r ->
              selectSeries id lang r = (Ok VNull, r))
        /\ (miss (seasons_key id (lang_or_empty lang)) r ->
              listSeasons id lang r = (Ok (results (VArr [])), r)))
  /\ (forall r id lang season episode,
        miss (episodes_key id season (lang_or_empty lang)) r ->
        selectEpisode id lang season episode r = (Ok VNull, r)
        /\ listEpisodes id lang season r = (Ok (results (VArr [])), r)
        /\ listGuests id lang season r = (Ok (results (VArr [])), r)).
Proof.
  split; [exact first_total|]. split; [exact all_total|]. split.
  - intros r id lang. repeat split; intros Hm.
    + unfold selectMovieById. rewrite first_selectMovieById. now apply getOne_miss.
    + unfold selectMovieByChannel. rewrite first_selectMovieByChannel. now apply getOne_miss.
    + unfold selectSeries. rewrite first_selectSeries. now apply getOne_miss.
    + unfold listSeasons. rewrite all_readSeasons. now apply listByParent_miss.
  - intros r id lang season episode Hm. repeat split.
    + unfold selectEpisode. rewrite first_readEpisode.
      unfold try_catch, first_episode, bind. cbn [param nth].
      destruct (cacheGet_miss _ r Hm) as [-> | ->]; reflexivity.
    + unfold listEpisodes. rewrite all_readSeasonEpisodes. now apply listByParent_miss.
    + unfold listGuests. rewrite all_readSeasonGuests.
      unfold try_catch, all_guests, bind. cbn [param nth].
      destruct (cacheGet_miss _ r Hm) as [-> | ->]; reflexivity.
Qed.

Lemma reads_never_fail_witness :
  let r := Redis false {[ "/movies/id/27205?lang=en" := Entry "{oops" None ]} in
  selectMovieById (VInt 27205) (VStr "en") r = (Ok VNull, r).
Proof.
  intros r.
  apply (proj1 (proj1 (proj2 (proj2 reads_never_fail)) r (VInt 27205) (VStr "en"))).
  right. right. exists (Entry "{oops" None). split; vm_compute; reflexivity.
Defined.

(** ** The completeness test of the series routes *)

Lemma isExtendedDataMissing_without_seasons (row : jsval) :
  is_nullish row = false -> field row "seasons" = VUndef ->
  isExtendedDataMissing row = Ok true.
Proof.
  intros Hn Hs. unfold isExtendedDataMissing, get_prop. rewrite Hn, Hs.
  f_equal. now destruct (missing (field row "created_by")).
Qed.

Lemma truthy_toJSON_obj (fs : list (string * jsval)) : truthy (toJSON (VObj fs)) = true.
Proof. rewrite toJSON_VObj. reflexivity. Qed.

Lemma isExtendedDataMissing_search_only (row : jsval) :
  is_nullish row = false ->
  parseJsonArray (field row "created_by") = [] ->
  zero_or_null (field row "number_of_episodes") = true ->
  zero_or_null (field row "number_of_seasons") = true ->
  isExtendedDataMissing row = Ok true.
Proof.
  intros Hn Hc He Hs. unfold isExtendedDataMissing, get_prop. rewrite Hn, Hc, He, Hs.
  f_equal. simpl. apply orb_true_r.
Qed.

(** C2, the code's behaviour.  A record that looks like a search
    result is incomplete; but so is the row read back right after any
    upsert into the series-by-id table, a full detail upsert included:
    the stored row has no [seasons] property, which the test requires. *)
Theorem isExtendedDataMissing_after_upsert :
  (forall row,
     is_nullish row = false ->
     parseJsonArray (field row "created_by") = [] ->
     zero_or_null (field row "number_of_episodes") = true ->
     zero_or_null (field row "number_of_seasons") = true ->
     isExtendedDataMissing row = Ok true)
  /\ (forall (r : redis) (lang item : jsval) (now : Z),
        down r = false -> is_nullish item = false ->
        exists r' row,
          upsertSeries lang item now r = (Ok tt, r')
          /\ selectSeries (field item "id") lang r' = (Ok row, r')
          /\ truthy row = true
          /\ shouldRefresh now row = false
          /\ isExtendedDataMissing row = Ok true).
Proof.
  split; [exact isExtendedDataMissing_search_only|].
  intros r lang item now Hd Hi.
  unfold upsertSeries, selectSeries, bind, lift, get_prop. rewrite Hi.
  rewrite run_upsertSeries, first_selectSeries.
  unfold run_series_by_id, series_row. cbn [param nth].
  match goal with |- context [cacheSet ?k (VObj ?row) _] =>
    destruct (scalar_write_read k row r Hd) as [Hw Hr] end.
  eexists _, _. split; [exact Hw|]. split; [exact Hr|].
  split; [apply truthy_toJSON_obj|]. split.
  - unfold shouldRefresh. rewrite truthy_toJSON_obj. cbn [negb]. cbv iota.
    rewrite (stale_of_int now now); [apply Z.ltb_ge; unfold CACHE_INTERVAL_SECONDS; lia|].
    row_field. reflexivity.
  - apply isExtendedDataMissing_without_seasons; [now rewrite toJSON_VObj|].
    row_field. reflexivity.
Qed.

Lemma isExtendedDataMissing_after_upsert_witness :
  exists r' row,
    upsertSeries (VStr "en") detail_item 1700000000 (Redis false ∅) = (Ok tt, r')
    /\ selectSeries (VInt 1399) (VStr "en") r' = (Ok row, r')
    /\ truthy row = true
    /\ shouldRefresh 1700000000 row = false
    /\ isExtendedDataMissing row = Ok true.
Proof.
  apply (proj2 isExtendedDataMissing_after_upsert
           (Redis false ∅) (VStr "en") detail_item 1700000000); reflexivity.
Defined.

(** The row read back after the detail upsert has its creators and
    counts in place; only [seasons] is missing. *)
Lemma detail_row_is_populated :
  exists r' row,
    upsertSeries (VStr "en") detail_item 1700000000 (Redis false ∅) = (Ok tt, r')
    /\ selectSeries (VInt 1399) (VStr "en") r' = (Ok row, r')
    /\ length (parseJsonArray (field row "created_by")) = 1%nat
    /\ field row "number_of_episodes" = VInt 73
    /\ field row "number_of_seasons" = VInt 8
    /\ field row "seasons" = VUndef
    /\ isExtendedDataMissing row = Ok true.
Proof.
  eexists _, _. split; [vm_compute; reflexivity|].
  split; [vm_compute; reflexivity|].
  repeat split; vm_compute; reflexivity.
Qed.

(** ** List tables: one upsert *)

Lemma truthy_VArr_or (v : jsval) (l : list jsval) :
  js_or (toJSON (VArr l)) v = toJSON (VArr l).
Proof. reflexivity. Qed.

Lemma list_at_written (key : string) (l : list jsval) (r : redis) :
  list_at key (written key (VArr l) r) = VArr (map toJSON l).
Proof. unfold list_at. rewrite stored_written by reflexivity. reflexivity. Qed.

Lemma list_at_written_put (key : string) (idx : option nat) (x : jsval)
    (arr : list jsval) (r : redis) :
  Forall (fun y => is_json y = true) arr ->
  list_at key (written key (VArr (put_at idx x arr)) r)
  = VArr (put_at idx (toJSON x) arr).
Proof.
  intros H. unfold list_at. rewrite stored_written by reflexivity.
  now rewrite toJSON_put_at.
Qed.


Lemma run_seasons_spec (ps : list jsval) (r : redis) (arr : list jsval) :
  down r = false ->
  list_at (seasons_key (param ps 0) (lang_or_empty (param ps 1))) r = VArr arr ->
  objects arr ->
  let key := seasons_key (param ps 0) (lang_or_empty (param ps 1)) in
  let arr' := put_at (index_of "id" (param ps 2) arr) (season_row ps) arr in
  run SQL_upsertSeasons ps r = (Ok tt, written key (VArr arr') r)
  /\ list_at key (written key (VArr arr') r)
     = VArr (put_at (index_of "id" (param ps 2) arr) (toJSON (season_row ps)) arr).
Proof.
  intros Hd Hl Ho key arr'. split.
  - rewrite run_upsertSeasons. unfold try_catch, run_series_seasons, bind, lift.
    rewrite cacheGet_up by assumption.
    change (js_or (stored ?k r) (VArr [])) with (list_at k r). rewrite Hl.
    cbn [as_array]. rewrite findIndex_index_of by now apply objects_nullish.
    now rewrite cacheSet_up.
  - apply list_at_written_put. eapply list_at_json; eassumption.
Qed.

Lemma run_episodes_spec (ps : list jsval) (r : redis) (arr : list jsval) :
  down r = false ->
  list_at (episodes_key (param ps 0) (param ps 2) (lang_or_empty (param ps 1))) r = VArr arr ->
  objects arr ->
  let key := episodes_key (param ps 0) (param ps 2) (lang_or_empty (param ps 1)) in
  let ep := episode_row ps (carried_guests (param ps 3) arr) in
  let arr' := put_at (index_of "episode_id" (param ps 3) arr) ep arr in
  run SQL_upsertEpisode ps r = (Ok tt, written key (VArr arr') r)
  /\ list_at key (written key (VArr arr') r)
     = VArr (put_at (index_of "episode_id" (param ps 3) arr) (toJSON ep) arr).
Proof.
  intros Hd Hl Ho key ep arr'. split.
  - rewrite run_upsertEpisode. unfold try_catch, run_series_episodes, bind, lift.
    rewrite cacheGet_up by assumption.
    change (js_or (stored ?k r) (VArr [])) with (list_at k r). rewrite Hl.
    cbn [as_array]. rewrite find_index_of by now apply objects_nullish.
    rewrite findIndex_index_of by now apply objects_nullish.
    now rewrite cacheSet_up.
  - apply list_at_written_put. eapply list_at_json; eassumption.
Qed.

Lemma objects_app (a b : list jsval) : objects a -> objects b -> objects (a ++ b)%list.
Proof. intros Ha Hb. apply Forall_app. now split. Qed.


Lemma run_guest_spec (ps : list jsval) (r : redis) (arr : list jsval) :
  down r = false ->
  list_at (episodes_key (param ps 0) (param ps 2) (lang_or_empty (param ps 1))) r = VArr arr ->
  let key := episodes_key (param ps 0) (param ps 2) (lang_or_empty (param ps 1)) in
  let arr1 := match index_of "episode_id" (param ps 3) arr with
              | None => (arr ++ [placeholder_episode ps])%list
              | Some _ => arr
              end in
  objects arr ->
  forall i episode guests,
    index_of "episode_id" (param ps 3) arr1 = Some i ->
    arr1 !! i = Some episode ->
    guests_of episode = VArr guests ->
    objects guests ->
    let guests' := put_at (index_of "id" (param ps 5) guests) (guest_of_params ps) guests in
    let arr' := <[i := set_field episode "guest_stars" (VArr guests')]> arr1 in
    run SQL_upsertGuestStar ps r = (Ok tt, written key (VArr arr') r).
Proof.
  intros Hd Hl key arr1 Ho i episode guests Hi He Hg Hog guests' arr'.
  assert (Ho1 : objects arr1).
  { subst arr1. destruct (index_of _ _ arr); [assumption|].
    apply objects_app; [assumption|]. now constructor. }
  rewrite run_upsertGuestStar. unfold try_catch, run_episode_guest_stars, bind, lift.
  rewrite cacheGet_up by assumption.
  change (js_or (stored ?k r) (VArr [])) with (list_at k r). rewrite Hl.
  cbn [as_array]. rewrite findIndex_index_of by now apply objects_nullish.
  fold arr1. rewrite findIndex_index_of by now apply objects_nullish.
  rewrite Hi, He. change (default VUndef (Some episode)) with episode.
  change (js_or (field episode "guest_stars") (VArr [])) with (guests_of episode).
  rewrite Hg. cbn [as_array].
  rewrite findIndex_index_of by now apply objects_nullish.
  now rewrite cacheSet_up.
Qed.


(** [toJSON] looks at a property list through the names, the
    [undefined]s and the [toJSON]s of its values only. *)
Lemma toJSON_props_ext (l l' : list (string * jsval)) :
  Forall2 (fun a b => a.1 = b.1 /\ is_undefined a.2 = is_undefined b.2
                      /\ toJSON a.2 = toJSON b.2) l l' ->
  forall acc, toJSON_props l acc = toJSON_props l' acc.
Proof.
  induction 1 as [|[k x] [k' x'] l l' (Hk & Hu & Hx) _ IH]; intros acc; [reflexivity|].
  simpl in Hk, Hu, Hx. subst k'. cbn [toJSON_props]. rewrite Hu, Hx. apply IH.
Qed.

Lemma toJSON_idem (v : jsval) : toJSON (toJSON v) = toJSON v.
Proof. apply toJSON_fixed, toJSON_is_json. Qed.

Lemma toJSON_obj_set (fs : list (string * jsval)) (k : string) (v : jsval) :
  is_json (VObj fs) = true -> is_undefined v = false ->
  toJSON (VObj (obj_set fs k v)) = VObj (obj_set fs k (toJSON v)).
Proof.
  intros Hj Hv.
  assert (Hj' : is_json (VObj (obj_set fs k (toJSON v))) = true).
  { apply is_json_VObj, obj_set_json; [now apply is_json_VObj | apply toJSON_is_json]. }
  rewrite <- (toJSON_fixed _ Hj'). rewrite !toJSON_VObj. f_equal.
  apply toJSON_props_ext. clear Hj Hj'.
  induction fs as [|[k' x] fs IH]; cbn [obj_set].
  - constructor; [|constructor]. simpl. rewrite toJSON_idem.
    repeat split. rewrite Hv. symmetry. apply is_json_not_undefined, toJSON_is_json.
  - destruct (String.eqb k' k).
    + constructor.
      * simpl. rewrite toJSON_idem. repeat split.
        rewrite Hv. symmetry. apply is_json_not_undefined, toJSON_is_json.
      * clear IH. induction fs as [|a fs IH']; constructor; auto.
    + constructor; [auto | exact IH].
Qed.

Lemma toJSON_set_field (e : jsval) (k : string) (v : jsval) :
  is_json e = true -> is_undefined v = false ->
  toJSON (set_field e k v) = set_field e k (toJSON v).
Proof.
  intros Hj Hv. destruct e; try (cbn [set_field]; now apply toJSON_fixed).
  cbn [set_field]. now apply toJSON_obj_set.
Qed.

Lemma list_at_written_insert (key : string) (i : nat) (x : jsval)
    (arr : list jsval) (r : redis) :
  Forall (fun y => is_json y = true) arr ->
  list_at key (written key (VArr (<[i := x]> arr)) r) = VArr (<[i := toJSON x]> arr).
Proof. intros H. now apply (list_at_written_put key (Some i)). Qed.

Lemma obj_lookup_is_json (fs : list (string * jsval)) (k : string) (x : jsval) :
  Forall (fun f => is_json f.2 = true) fs -> obj_lookup fs k = Some x -> is_json x = true.
Proof.
  induction 1 as [|[k' y] fs Hy _ IH]; cbn [obj_lookup]; [discriminate|].
  destruct (String.eqb k' k); [now intros [= <-] | exact IH].
Qed.

Lemma field_is_json (e : jsval) (k : string) :
  is_json e = true -> truthy (field e k) = true -> is_json (field e k) = true.
Proof.
  intros Hj Ht. destruct e; try discriminate Ht.
  - cbn [field] in *. destruct (String.eqb k "length"); [|discriminate Ht].
    now apply is_json_Dec.
  - cbn [field] in *. destruct (String.eqb k "length"); [|discriminate Ht].
    now apply is_json_Dec.
  - cbn [field] in *. apply is_json_VObj in Hj. destruct Hj as [Hall _].
    destruct (obj_lookup fs k) as [x|] eqn:E; [|discriminate Ht].
    eapply obj_lookup_is_json; eassumption.
Qed.

Lemma guests_of_is_json (e : jsval) : is_json e = true -> is_json (guests_of e) = true.
Proof.
  intros Hj. unfold guests_of, js_or.
  destruct (truthy (field e "guest_stars")) eqn:E; [now apply field_is_json | reflexivity].
Qed.

(** The guest-star upsert on an episode that is in the list. *)
Lemma run_guest_existing (ps : list jsval) (r : redis) (arr : list jsval)
    (i : nat) (episode : jsval) (guests : list jsval) :
  down r = false ->
  list_at (episodes_key (param ps 0) (param ps 2) (lang_or_empty (param ps 1))) r = VArr arr ->
  objects arr ->
  index_of "episode_id" (param ps 3) arr = Some i ->
  arr !! i = Some episode ->
  guests_of episode = VArr guests ->
  objects guests ->
  let key := episodes_key (param ps 0) (param ps 2) (lang_or_empty (param ps 1)) in
  let guests' :=
    put_at (index_of "id" (param ps 5) guests) (toJSON (guest_of_params ps)) guests in
  exists r',
    run SQL_upsertGuestStar ps r = (Ok tt, r')
    /\ down r' = false
    /\ list_at key r' = VArr (<[i := set_field episode "guest_stars" (VArr guests')]> arr).
Proof.
  intros Hd Hl Ho Hi He Hg Hog key guests'.
  pose proof (list_at_json _ _ _ Hl) as Hj.
  pose proof (run_guest_spec ps r arr Hd Hl Ho i episode guests) as Hrun.
  rewrite Hi in Hrun. specialize (Hrun Hi He Hg Hog). cbv zeta in Hrun.
  eexists. split; [exact Hrun|]. split; [exact Hd|].
  fold key. rewrite list_at_written_insert by assumption. f_equal. f_equal.
  assert (Hje : is_json episode = true).
  { rewrite Forall_forall in Hj. apply Hj. eapply list_elem_of_lookup_2; eassumption. }
  rewrite toJSON_set_field by (assumption || reflexivity). f_equal.
  apply toJSON_put_at.
  pose proof (guests_of_is_json episode Hje) as Hjg.
  rewrite Hg in Hjg. now apply is_json_VArr.
Qed.


(** ** Numeric equality of ids *)








Lemma row_id_stable (fs : list (string * jsval)) (k : string) (id : jsval) :
  is_json id = true ->
  props_lookup fs k None = Some (toJSON id) ->
  to_number (field (toJSON (VObj fs)) k) = to_number id.
Proof.
  intros Hj H. rewrite field_toJSON_obj, H. cbn [default]. now rewrite toJSON_fixed.
Qed.

Lemma season_row_id (ps : list jsval) :
  is_json (param ps 2) = true ->
  to_number (field (toJSON (season_row ps)) "id") = to_number (param ps 2).
Proof.
  intros Hj. unfold season_row. row_field.
  rewrite (is_json_not_undefined _ Hj). cbn [default]. now rewrite toJSON_fixed.
Qed.

Lemma episode_row_id (ps : list jsval) (gs : jsval) :
  is_json (param ps 3) = true ->
  to_number (field (toJSON (episode_row ps gs)) "episode_id") = to_number (param ps 3).
Proof.
  intros Hj. unfold episode_row. row_field.
  rewrite (is_json_not_undefined _ Hj). cbn [default]. now rewrite toJSON_fixed.
Qed.

Lemma guest_row_id (ps : list jsval) :
  is_json (param ps 5) = true ->
  to_number (field (toJSON (guest_of_params ps)) "id") = to_number (param ps 5).
Proof.
  intros Hj. unfold guest_of_params. row_field.
  rewrite (is_json_not_undefined _ Hj). cbn [default]. now rewrite toJSON_fixed.
Qed.


(** ** The placeholder episode *)

Lemma objects_toJSON_obj (fs : list (string * jsval)) : is_object (toJSON (VObj fs)) = true.
Proof. now rewrite toJSON_VObj. Qed.



(** ** Lists reached from the empty list *)


Lemma Forall_put_at {P : jsval -> Prop} (idx : option nat) (x : jsval) (arr : list jsval) :
  Forall P arr -> P x -> Forall P (put_at idx x arr).
Proof.
  intros Ha Hx. destruct idx as [i|]; cbn [put_at].
  - now apply Forall_insert.
  - apply Forall_app. split; [assumption | now constructor].
Qed.

Lemma down_written (key : string) (v : jsval) (r : redis) : down (written key v r) = down r.
Proof. reflexivity. Qed.


Lemma field_set_field_same (e : jsval) (k : string) (v : jsval) :
  is_object e = true -> field (set_field e k v) k = v.
Proof.
  destruct e; try discriminate. intros _. cbn [set_field field].
  now rewrite obj_lookup_set, String.eqb_refl.
Qed.

Lemma field_set_field_other (e : jsval) (k k' : string) (v : jsval) :
  k <> k' -> field (set_field e k v) k' = field e k'.
Proof.
  intros Hne. destruct e; try reflexivity. cbn [set_field field].
  rewrite obj_lookup_set. now destruct (String.eqb_spec k k').
Qed.

Lemma is_object_set_field (e : jsval) (k : string) (v : jsval) :
  is_object (set_field e k v) = is_object e.
Proof. now destruct e. Qed.








(** ** The string form of a numeric id *)






Lemma same_num_sym (a b : num) : same_num a b -> same_num b a.
Proof. intros H n. symmetry. apply H. Qed.







(** ** An episode upsert with its guest stars *)

Lemma obj_set_same (fs : list (string * jsval)) (k : string) (v : jsval) :
  obj_lookup fs k = Some v -> obj_set fs k v = fs.
Proof.
  induction fs as [|[k' x] fs IH]; cbn [obj_lookup obj_set]; [discriminate|].
  destruct (String.eqb_spec k' k) as [->|_].
  - now intros [= ->].
  - intros H. now rewrite IH.
Qed.

Lemma obj_set_twice (fs : list (string * jsval)) (k : string) (v w : jsval) :
  obj_set (obj_set fs k v) k w = obj_set fs k w.
Proof.
  induction fs as [|[k' x] fs IH]; cbn [obj_set].
  - now rewrite String.eqb_refl.
  - destruct (String.eqb_spec k' k) as [->|Hne]; cbn [obj_set].
    + now rewrite String.eqb_refl.
    + destruct (String.eqb_spec k' k); [congruence|]. now rewrite IH.
Qed.

Lemma set_field_twice (e : jsval) (k : string) (v w : jsval) :
  set_field (set_field e k v) k w = set_field e k w.
Proof. destruct e; try reflexivity. cbn [set_field]. now rewrite obj_set_twice. Qed.

Lemma set_field_same (e : jsval) (k : string) (v : jsval) :
  is_object e = true -> field e k = v -> is_undefined v = false -> set_field e k v = e.
Proof.
  destruct e; try discriminate. intros _. cbn [field set_field]. intros H Hv. f_equal.
  apply obj_set_same. destruct (obj_lookup fs k); cbn [default] in H; [now subst|].
  subst v. discriminate.
Qed.

Lemma index_of_insert (k : string) (id x : jsval) (arr : list jsval) (i : nat) :
  (i < length arr)%nat ->
  num_eqb (to_number (field x k)) (to_number id) = true ->
  (forall j y, (j < i)%nat -> arr !! j = Some y ->
     num_eqb (to_number (field y k)) (to_number id) = false) ->
  index_of k id (<[i := x]> arr) = Some i.
Proof.
  revert i. induction arr as [|y arr IH]; intros i Hi Hx Hlt; [simpl in Hi; lia|].
  destruct i as [|i]; cbn [index_of].
  - cbn. now rewrite Hx.
  - cbn [list_insert insert index_of].
    change (<[S i := x]> (y :: arr)) with (y :: <[i := x]> arr). cbn [index_of].
    rewrite (Hlt 0%nat y) by (lia || reflexivity).
    rewrite IH; [reflexivity | simpl in Hi; lia | assumption |].
    intros j z Hj Hz. apply (Hlt (S j) z); [lia | exact Hz].
Qed.

Lemma put_at_slot (k : string) (id x : jsval) (arr : list jsval) :
  let arr1 := put_at (index_of k id arr) x arr in
  (slot k id arr < length arr1)%nat
  /\ arr1 !! slot k id arr = Some x
  /\ (forall j y, (j < slot k id arr)%nat -> arr1 !! j = Some y ->
        num_eqb (to_number (field y k)) (to_number id) = false)
  /\ arr1 = <[slot k id arr := x]> arr1.
Proof.
  unfold slot. destruct (index_of k id arr) as [i|] eqn:E; cbn [put_at].
  - pose proof (index_of_lt _ _ _ _ E) as Hi.
    destruct (index_of_Some _ _ _ _ E) as (o & Ho & _ & Hlt).
    repeat split.
    + now rewrite length_insert.
    + now apply list_lookup_insert_eq.
    + intros j y Hj Hy. rewrite list_lookup_insert_ne in Hy by lia. eapply Hlt; eassumption.
    + now rewrite list_insert_insert_eq.
  - pose proof (index_of_None _ _ _ E) as Hn. repeat split.
    + rewrite length_app. simpl. lia.
    + rewrite lookup_app_r, Nat.sub_diag by lia. reflexivity.
    + intros j y Hj Hy. rewrite lookup_app_l in Hy by assumption. eapply Hn; eassumption.
    + rewrite insert_app_r_alt, Nat.sub_diag by lia. reflexivity.
Qed.

Section EpisodeUpsert.

Variables (sid sn lang : jsval) (now : Z) (episode : jsval).

Local Abbreviation key := (episodes_key sid sn (lang_or_empty lang)).
Local Abbreviation eid := (field episode "id").

Lemma guest_step (arr1 : list jsval) (i : nat) (row0 : jsval) (gl : list jsval)
    (guest : jsval) (r : redis) :
  down r = false ->
  list_at key r = VArr (<[i := set_field row0 "guest_stars" (VArr gl)]> arr1) ->
  objects arr1 -> (i < length arr1)%nat -> is_object row0 = true ->
  num_eqb (to_number (field row0 "episode_id")) (to_number eid) = true ->
  (forall j y, (j < i)%nat -> arr1 !! j = Some y ->
     num_eqb (to_number (field y "episode_id")) (to_number eid) = false) ->
  objects gl ->
  exists r',
    upsertGuestStar sid sn lang now episode guest r = (Ok tt, r')
    /\ down r' = false
    /\ list_at key r'
       = VArr (<[i := set_field row0 "guest_stars"
                        (VArr (merge_guest sid sn lang now episode gl guest))]> arr1)
    /\ objects (merge_guest sid sn lang now episode gl guest).
Proof.
  intros Hd Hl Ho Hi Hr Hm Hlt Hog.
  unfold upsertGuestStar, merge_guest.
  destruct (lacks_numeric_id guest); [exists r; now repeat split|].
  set (ps := guest_params sid sn lang now episode guest).
  set (ep := set_field row0 "guest_stars" (VArr gl)) in *.
  assert (Hoep : is_object ep = true) by (subst ep; now rewrite is_object_set_field).
  assert (Ho2 : objects (<[i := ep]> arr1)) by now apply Forall_insert.
  assert (Hidx : index_of "episode_id" (param ps 3) (<[i := ep]> arr1) = Some i).
  { apply index_of_insert; [assumption | | assumption].
    subst ep. rewrite field_set_field_other by discriminate. exact Hm. }
  assert (Hat : <[i := ep]> arr1 !! i = Some ep) by now apply list_lookup_insert_eq.
  assert (Hg : guests_of ep = VArr gl)
    by (subst ep; unfold guests_of; now rewrite field_set_field_same).
  destruct (run_guest_existing ps r _ i ep gl Hd Hl Ho2 Hidx Hat Hg Hog)
    as (r' & Hrun & Hd' & Hafter).
  exists r'. split; [exact Hrun|]. split; [exact Hd'|]. split.
  - change (episodes_key (param ps 0) (param ps 2) (lang_or_empty (param ps 1)))
      with key in Hafter.
    rewrite Hafter, list_insert_insert_eq. subst ep. now rewrite set_field_twice.
  - apply Forall_put_at; [assumption|]. unfold stored_guest, guest_of_params.
    apply objects_toJSON_obj.
Qed.

Lemma guests_loop (arr1 : list jsval) (i : nat) (row0 : jsval) (guests : list jsval) :
  objects arr1 -> (i < length arr1)%nat -> is_object row0 = true ->
  num_eqb (to_number (field row0 "episode_id")) (to_number eid) = true ->
  (forall j y, (j < i)%nat -> arr1 !! j = Some y ->
     num_eqb (to_number (field y "episode_id")) (to_number eid) = false) ->
  forall (gl : list jsval) (r : redis),
    down r = false ->
    list_at key r = VArr (<[i := set_field row0 "guest_stars" (VArr gl)]> arr1) ->
    objects gl ->
    exists r',
      for_each guests (upsertGuestStar sid sn lang now episode) r = (Ok tt, r')
      /\ down r' = false
      /\ list_at key r'
         = VArr (<[i := set_field row0 "guest_stars"
                          (VArr (merge_guests sid sn lang now episode guests gl))]> arr1).
Proof.
  intros Ho Hi Hr Hm Hlt.
  induction guests as [|g guests IH]; intros gl r Hd Hl Hog.
  - exists r. now repeat split.
  - destruct (guest_step arr1 i row0 gl g r Hd Hl Ho Hi Hr Hm Hlt Hog)
      as (r1 & Hrun & Hd1 & Hl1 & Hog1).
    destruct (IH _ r1 Hd1 Hl1 Hog1) as (r2 & Hrun2 & Hd2 & Hl2).
    exists r2. split; [|now split].
    cbn [for_each]. unfold bind. now rewrite Hrun.
Qed.

End EpisodeUpsert.

Lemma field_json_or_undefined (e : jsval) (k : string) :
  is_json e = true -> field e k = VUndef \/ is_json (field e k) = true.
Proof.
  intros Hj. destruct e; try (now left).
  - cbn [field]. destruct (String.eqb k "length"); [right; now apply is_json_Dec | now left].
  - cbn [field]. destruct (String.eqb k "length"); [right; now apply is_json_Dec | now left].
  - cbn [field]. apply is_json_VObj in Hj. destruct Hj as [Hall _].
    destruct (obj_lookup fs k) as [x|] eqn:E; [|now left].
    right. eapply obj_lookup_is_json; eassumption.
Qed.

Lemma numeric_field (e : jsval) (k : string) :
  is_json e = true -> is_number (field e k) = true -> numeric_id (field e k).
Proof.
  intros Hj Hn. destruct (field_json_or_undefined e k Hj) as [E|E];
    [rewrite E in Hn; discriminate|].
  split; [assumption|].
  destruct (field e k) as [| | |[|m e']| | |]; try discriminate.
  cbn. apply Z.eqb_refl.
Qed.

Lemma lacks_numeric_id_false (x : jsval) :
  lacks_numeric_id x = false -> is_number (field x "id") = true.
Proof.
  unfold lacks_numeric_id. rewrite orb_false_iff, !negb_false_iff. now intros [_ H].
Qed.

Lemma wf_objects (arr : list jsval) : wf_episodes arr -> objects arr.
Proof. intros H. eapply Forall_impl; [exact H|]. now intros e [He _]. Qed.

Lemma carried_guests_wf (id : jsval) (arr : list jsval) :
  Forall (fun x => is_json x = true) arr -> wf_episodes arr ->
  exists gl, carried_guests id arr = VArr gl
             /\ Forall (fun x => is_json x = true) gl /\ objects gl
             /\ (forall i old, index_of "episode_id" id arr = Some i ->
                   arr !! i = Some old -> guests_of old = VArr gl)
             /\ (index_of "episode_id" id arr = None -> gl = []).
Proof.
  intros Hj Hg. unfold carried_guests, episode_with.
  destruct (index_of "episode_id" id arr) as [i|] eqn:E.
  - destruct (index_of_Some _ _ _ _ E) as (e & He & _). rewrite He.
    change (default VUndef (Some e)) with e.
    rewrite Forall_forall in Hj. unfold wf_episodes in Hg. rewrite Forall_forall in Hg.
    assert (Hin : e ∈ arr) by (eapply list_elem_of_lookup_2; eassumption).
    destruct (Hg e Hin) as (Ho & gl & Hgl & Hog).
    unfold get_opt. rewrite (objects_not_nullish _ Ho).
    change (js_or (field e "guest_stars") (VArr [])) with (guests_of e).
    exists gl. split; [assumption|]. split; [|split; [assumption|split]].
    + apply is_json_VArr. rewrite <- Hgl. now apply guests_of_is_json, Hj.
    + intros i' old [= <-] Hold. rewrite He in Hold. now injection Hold as <-.
    + discriminate.
  - exists []. repeat split; try constructor. intros i old H. discriminate.
Qed.

Lemma insert_put_at_slot (k : string) (id x y : jsval) (arr : list jsval) :
  <[slot k id arr := y]> (put_at (index_of k id arr) x arr)
  = put_at (index_of k id arr) y arr.
Proof.
  unfold slot. destruct (index_of k id arr) as [i|]; cbn [put_at].
  - apply list_insert_insert_eq.
  - rewrite insert_app_r_alt, Nat.sub_diag by lia. reflexivity.
Qed.

(** C1, amended.  An episode upsert writes the episode row with the
    guest-star array the list held for that id (an empty one for a new
    id); when the incoming episode carries a guest-star array, each of
    its guests that has a numeric id is then upserted by guest id into
    that array -- replaced in place or appended -- and the stored guests
    it does not mention stay.  Without a guest-star payload the stored
    array is exactly the previous one. *)
Theorem episode_upsert_guest_stars
    (sid sn lang : jsval) (now : Z) (episode : jsval) (r : redis) (arr : list jsval) :
  let key := episodes_key sid sn (lang_or_empty lang) in
  let eid := field episode "id" in
  let prev := array_items (carried_guests eid arr) in
  let merged := merge_guests sid sn lang now episode (incoming_guests episode) prev in
  let row0 := toJSON (episode_row (episode_params sid sn lang now episode) (VArr prev)) in
  let stored_episode := set_field row0 "guest_stars" (VArr merged) in
  down r = false ->
  list_at key r = VArr arr ->
  wf_episodes arr ->
  is_json episode = true ->
  lacks_numeric_id episode = false ->
  (exists r',
     upsertEpisode sid sn lang now episode r = (Ok tt, r')
     /\ list_at key r' = VArr (put_at (index_of "episode_id" eid arr) stored_episode arr))
  /\ guests_of stored_episode = VArr merged
  /\ (isArray (field episode "guest_stars") = false ->
      merged = prev /\ stored_episode = row0)
  /\ (forall i old,
        index_of "episode_id" eid arr = Some i -> arr !! i = Some old ->
        guests_of old = VArr prev)
  /\ (index_of "episode_id" eid arr = None -> prev = []).
Proof.
  intros key eid prev merged row0 stored_episode Hd Hl Hwf Hje Hid.
  pose proof (wf_objects _ Hwf) as Ho.
  pose proof (list_at_json _ _ _ Hl) as Hjs.
  pose proof (numeric_field episode "id" Hje (lacks_numeric_id_false _ Hid)) as [Hjid Hnid].
  fold eid in Hjid, Hnid.
  destruct (carried_guests_wf eid arr Hjs Hwf) as (gl & Hc & Hjgl & Hogl & Hold & Hnew).
  assert (Hprev : prev = gl) by (subst prev; now rewrite Hc).
  set (ps := episode_params sid sn lang now episode) in *.
  assert (Hrow_obj : is_object row0 = true) by apply objects_toJSON_obj.
  assert (Hrow_gs : field row0 "guest_stars" = VArr prev).
  { subst row0. unfold episode_row. row_field. cbn [is_undefined default toJSON].
    rewrite Hprev. now rewrite toJSON_list_fixed. }
  assert (Hrow_id : num_eqb (to_number (field row0 "episode_id")) (to_number eid) = true).
  { subst row0. rewrite episode_row_id by exact Hjid. exact Hnid. }
  assert (Hsame : set_field row0 "guest_stars" (VArr prev) = row0)
    by now apply set_field_same.
  assert (Hguests : guests_of stored_episode = VArr merged)
    by (subst stored_episode; unfold guests_of; now rewrite field_set_field_same).
  split; [|split; [exact Hguests|split; [|split]]].
  - destruct (run_episodes_spec ps r arr Hd Hl Ho) as [Hrun Hafter].
    change (param ps 3) with eid in Hafter, Hrun.
    change (episodes_key (param ps 0) (param ps 2) (lang_or_empty (param ps 1)))
      with key in Hafter, Hrun.
    rewrite Hc, <- Hprev in Hafter, Hrun. fold row0 in Hafter.
    set (arr1 := put_at (index_of "episode_id" eid arr) row0 arr) in *.
    destruct (put_at_slot "episode_id" eid row0 arr) as (Hi & Hat & Hlt & Hfix).
    fold arr1 in Hi, Hat, Hlt, Hfix.
    set (i := slot "episode_id" eid arr) in *.
    assert (Ho1 : objects arr1) by (subst arr1; now apply Forall_put_at).
    unfold upsertEpisode. rewrite Hid. fold ps. unfold bind at 1. rewrite Hrun.
    set (r1 := written key _ r) in *.
    assert (Hl1 : list_at key r1
                  = VArr (<[i := set_field row0 "guest_stars" (VArr prev)]> arr1))
      by (rewrite Hsame, <- Hfix; exact Hafter).
    assert (Hfinal : forall X, <[i := X]> arr1
                               = put_at (index_of "episode_id" eid arr) X arr)
      by (intros X; subst i arr1; apply insert_put_at_slot).
    destruct (field episode "guest_stars") as [| | | | |guests|] eqn:Eg;
      try (exists r1; split; [reflexivity|];
           subst stored_episode merged; unfold incoming_guests; rewrite Eg;
           cbn [merge_guests fold_left]; rewrite <- Hfinal; exact Hl1).
    destruct (guests_loop sid sn lang now episode arr1 i row0 guests
                Ho1 Hi Hrow_obj Hrow_id Hlt prev r1 Hd Hl1)
      as (r2 & Hloop & _ & Hl2); [now rewrite Hprev|].
    exists r2. split; [exact Hloop|].
    subst stored_episode merged. unfold incoming_guests. rewrite Eg.
    rewrite <- Hfinal. exact Hl2.
  - intros Hna. assert (Hm : merged = prev).
    { subst merged. unfold incoming_guests.
      destruct (field episode "guest_stars"); try reflexivity. discriminate Hna. }
    split; [exact Hm|]. subst stored_episode. now rewrite Hm.
  - intros i old Hi Hat. rewrite Hprev. eapply Hold; eassumption.
  - intros Hn. rewrite Hprev. now apply Hnew.
Qed.

Lemma wf_episodes_check (arr : list jsval) :
  forallb wf_episodeb arr = true -> wf_episodes arr.
Proof.
  intros H. apply forallb_Forall in H. eapply Forall_impl; [exact H|].
  intros e He. unfold wf_episodeb in He. apply andb_true_iff in He as [Ho Hg].
  split; [exact Ho|].
  destruct (guests_of e) as [| | | | |gl|]; try discriminate.
  exists gl. split; [reflexivity|]. now apply forallb_Forall.
Qed.

Lemma episode_upsert_guest_stars_witness :
  let key := episodes_key (VInt 1399) (VInt 1) (VStr "en") in
  let arr := array_items (list_at key season_store) in
  let episode := pilot_bare in
  let prev := array_items (carried_guests (VInt 63056) arr) in
  let row0 := toJSON (episode_row
                        (episode_params (VInt 1399) (VInt 1) (VStr "en") 1700000600 episode)
                        (VArr prev)) in
  length prev = 1%nat
  /\ exists r',
       upsertEpisode (VInt 1399) (VInt 1) (VStr "en") 1700000600 episode season_store
       = (Ok tt, r')
       /\ list_at key r' = VArr [row0].
Proof.
  intros key arr episode prev row0. split; [reflexivity|].
  destruct (episode_upsert_guest_stars (VInt 1399) (VInt 1) (VStr "en") 1700000600
              episode season_store arr)
    as ((r' & Hrun & Hl) & _ & Hsame & _).
  - reflexivity.
  - vm_compute. reflexivity.
  - apply wf_episodes_check. vm_compute. reflexivity.
  - vm_compute. reflexivity.
  - reflexivity.
  - exists r'. split; [exact Hrun|].
    destruct (Hsame eq_refl) as [_ E]. rewrite E in Hl. exact Hl.
Defined.

(** C1 as stated fails where the incoming episode carries a guest-star
    array: the guest stored before stays, the incoming one is added
    after it. *)
Lemma episode_upsert_guest_stars_counterexample :
  ~ (forall (sid sn lang : jsval) (now : Z) (episode : jsval) (guests : list jsval)
            (r r' : redis),
       down r = false ->
       lacks_numeric_id episode = false ->
       field episode "guest_stars" = VArr guests ->
       upsertEpisode sid sn lang now episode r = (Ok tt, r') ->
       guests_of (episode_with (field episode "id")
                    (array_items (list_at (episodes_key sid sn (lang_or_empty lang)) r')))
       = VArr (map (stored_guest sid sn lang now episode) guests)).
Proof.
  intros H.
  set (episode := pilot [guest_star 1223786 "Emilia Clarke" "Daenerys Targaryen"]).
  specialize (H (VInt 1399) (VInt 1) (VStr "en") 1700000600 episode
                [guest_star 1223786 "Emilia Clarke" "Daenerys Targaryen"]
                season_store
                (upsertEpisode (VInt 1399) (VInt 1) (VStr "en") 1700000600 episode
                   season_store).2
                eq_refl eq_refl eq_refl).
  assert (Hrun : (upsertEpisode (VInt 1399) (VInt 1) (VStr "en") 1700000600 episode
                    season_store).1 = Ok tt) by (vm_compute; reflexivity).
  specialize (H ltac:(rewrite <- Hrun; apply surjective_pairing)).
  vm_compute in H. discriminate H.
Qed.

(** What the store holds instead: both guests, the old one first. *)
Lemma episode_upsert_merges_guests :
  let episode := pilot [guest_star 1223786 "Emilia Clarke" "Daenerys Targaryen"] in
  let r' := (upsertEpisode (VInt 1399) (VInt 1) (VStr "en") 1700000600 episode
               season_store).2 in
  map (fun g => field g "id")
    (array_items (guests_of (episode_with (VInt 63056)
       (array_items (list_at (episodes_key (VInt 1399) (VInt 1) (VStr "en")) r')))))
  = [VInt 117642; VInt 1223786].
Proof. vm_compute. reflexivity. Qed.

(** ** Cache keys *)

Section KeyOrder.

Variable cmp : string -> string -> Z.
Hypothesis cmp_antisym : forall a b, 0 < cmp a b <-> cmp b a < 0.
Hypothesis cmp_trans : forall a b c, cmp a b <= 0 -> cmp b c <= 0 -> cmp a c <= 0.

















End KeyOrder.








(** This does not depend on the collation. *)
Lemma repeated_name_keeps_order (localeCompare : string -> string -> Z) :
  buildCacheKeyFromUrl localeCompare
    (mkURL "/3/discover/movie" [("with_genres", "18"); ("with_genres", "35")])
  <> buildCacheKeyFromUrl localeCompare
       (mkURL "/3/discover/movie" [("with_genres", "35"); ("with_genres", "18")]).
Proof.
  unfold buildCacheKeyFromUrl. cbn [searchParams pathname].
  change (filter _ [("with_genres", "18"); ("with_genres", "35")])
    with [("with_genres", "18"); ("with_genres", "35")].
  change (filter _ [("with_genres", "35"); ("with_genres", "18")])
    with [("with_genres", "35"); ("with_genres", "18")].
  cbn [sort_entries sort_insert fst].
  destruct (0 <? localeCompare "with_genres" "with_genres"); vm_compute; discriminate.
Qed.

(** ** The episode handler *)

Lemma mapO_guest_row_objects (ep : jsval) (l rows : list jsval) :
  mapO (guest_row ep) l = Ok rows -> objects rows.
Proof.
  revert rows. induction l as [|g l IH]; intros rows; cbn [mapO].
  - intros [= <-]. constructor.
  - unfold guest_row at 1, get_prop. destruct (is_nullish g); [discriminate|].
    destruct (mapO (guest_row ep) l) as [ys|]; [|discriminate].
    intros [= <-]. constructor; [reflexivity | now apply IH].
Qed.

Lemma episode_guest_rows_objects (ep : jsval) (rows : list jsval) :
  episode_guest_rows ep = Ok rows -> objects rows.
Proof.
  unfold episode_guest_rows, get_prop. destruct (is_nullish ep); [discriminate|].
  destruct (field ep "guest_stars"); try (intros [= <-]; constructor).
  apply (mapO_guest_row_objects ep).
Qed.

Lemma flatten_guests_objects (eps rows : list jsval) :
  flatten_guests eps = Ok rows -> objects rows.
Proof.
  revert rows. induction eps as [|ep eps IH]; intros rows; cbn [flatten_guests].
  - intros [= <-]. constructor.
  - destruct (episode_guest_rows ep) as [rs|] eqn:E; [|discriminate].
    destruct (flatten_guests eps) as [rest|]; [|discriminate].
    intros [= <-]. apply Forall_app. split; [now apply (episode_guest_rows_objects ep) | now apply IH].
Qed.

Lemma all_guests_rows (ps : list jsval) (r : redis) :
  exists rows,
    try_catch (all_guests ps) (fun _ => ret (results (VArr []))) r
    = (Ok (results (VArr rows)), r)
    /\ objects rows.
Proof.
  unfold try_catch, all_guests, bind.
  pose proof (readonly_cacheGet (episodes_key (param ps 0) (param ps 2)
                                   (lang_or_empty (param ps 1))) r) as Hr.
  destruct (cacheGet _ r) as [[v|e] r']; simpl in Hr; subst r'.
  - destruct (js_or v (VArr [])) as [| | | | |eps|];
      try (exists []; split; [reflexivity | constructor]).
    unfold lift. destruct (flatten_guests eps) as [rows|] eqn:E.
    + exists rows. split; [reflexivity | now apply flatten_guests_objects in E].
    + exists []. split; [reflexivity | constructor].
  - exists []. split; [reflexivity | constructor].
Qed.

Lemma mapO_guest_payload_total (sid : jsval) (f : jsval -> jsval) (rows : list jsval) :
  objects rows -> exists gs, mapO (guest_payload sid f) rows = Ok gs.
Proof.
  induction 1 as [|g rows Hg _ [gs IH]]; cbn [mapO]; [eauto|].
  unfold guest_payload at 1, get_prop. rewrite (objects_not_nullish _ Hg), IH. eauto.
Qed.

Lemma readEpisode_total (sid sn en lang : jsval) (r : redis) :
  exists cached, readEpisode sid sn en lang r = (Ok cached, r).
Proof.
  unfold readEpisode, bind.
  destruct (first_total SQL_readEpisode [sid; lang; sn; en] r) as [row ->].
  destruct (truthy row); cbn [negb]; [|eauto].
  rewrite all_readEpisodeGuests.
  destruct (all_guests_rows [sid; lang; sn; field row "episode_number"] r)
    as (rows & -> & Ho).
  cbn [results field obj_lookup String.eqb Ascii.eqb Bool.eqb andb].
  change (default VUndef (Some (VArr rows))) with (VArr rows).
  cbn [js_or truthy as_array lift].
  destruct (mapO_guest_payload_total sid (fun g => field g "order_index") rows Ho)
    as [gs ->].
  eauto.
Qed.

Lemma cached_episode_read (req : request) (r : redis) :
  readEpisode (VNum (request_series req)) (VNum (request_season req))
    (VNum (request_episode req)) (request_language req) r
  = (Ok (cached_episode req r), r).
Proof.
  unfold cached_episode.
  destruct (readEpisode_total (VNum (request_series req)) (VNum (request_season req))
              (VNum (request_episode req)) (request_language req) r) as [c ->].
  reflexivity.
Qed.

Lemma url_cached_read (cmp : string -> string -> Z) (req : request) (r : redis) :
  try_catch (cacheGet (buildCacheKeyFromUrl cmp (url req))) (fun _ => ret VUndef) r
  = (Ok (url_cached cmp req r), r).
Proof.
  unfold url_cached, try_catch.
  pose proof (readonly_cacheGet (buildCacheKeyFromUrl cmp (url req)) r) as Hr.
  destruct (cacheGet _ r) as [[v|e] r']; simpl in Hr; subst r'; reflexivity.
Qed.

Lemma run_total (sql : string) (ps : list jsval) (r : redis) :
  exists r', run sql ps r = (Ok tt, r').
Proof.
  unfold run, try_catch. destruct (run_body sql ps r) as [[[]|e] r']; eauto.
Qed.



Lemma episode_request_inv (req : request) :
  episode_request req = true ->
  String.eqb (method req) "GET" = true
  /\ isInteger (request_series req) = true
  /\ isInteger (request_season req) = true
  /\ isInteger (request_episode req) = true.
Proof. unfold episode_request. rewrite !andb_true_iff. tauto. Qed.




(** The record in that state: present, a minute old, without guests. *)
Lemma fresh_episode_without_guests :
  let cached := cached_episode pilot_request store_after_fetch in
  truthy cached = true
  /\ age_seconds 1700000060 cached = Int 60
  /\ field cached "guest_stars" = VArr []
  /\ field cached "name" = VStr "Winter Is Coming".
Proof. vm_compute. repeat split; reflexivity. Qed.

(** ** The theorems at work on sample data *)



Lemma movie_zero_rating_stale_witness :
  exists r' row,
    upsertMovieById (VStr "en") unrated_movie 1700000000 (Redis false ∅) = (Ok tt, r')
    /\ selectMovieById (VInt 27205) (VStr "en") r' = (Ok row, r')
    /\ field row "updated_at" = VInt 1700000000
    /\ shouldRefreshMovie 1700000000 row = true.
Proof.
  apply (proj1 (proj2 movie_zero_rating_stale) (Redis false ∅) (VStr "UC123")
           (VStr "en") unrated_movie 1700000000).
  - reflexivity.
  - repeat split; reflexivity.
Defined.


(** * Further properties of the code *)

(** ** The cache helpers: what is written is what is read *)

Lemma decode_raw (text : string) (a b : option Z) :
  decode (Some (Entry text a)) = decode (Some (Entry text b)).
Proof. reflexivity. Qed.

Lemma decode_stringify (v : jsval) (ex : option Z) :
  is_undefined v = false ->
  decode (Some (Entry (default "" (JSON_stringify v)) ex)) = toJSON v.
Proof.
  intros Hv. unfold decode. simpl raw. unfold JSON_stringify. rewrite Hv. simpl default.
  rewrite emit_nonempty, JSON_parse_emit by apply toJSON_is_json. reflexivity.
Qed.

(** X1.  On a working backend [cacheSet] followed by [cacheGet] of the
    same key gives back the value as JSON keeps it, whatever the time to
    live; the entries under all other keys are as they were. *)
Theorem cacheSet_cacheGet (key : string) (v : jsval) (ttlSeconds : num) (r : redis) :
  down r = false ->
  is_undefined v = false ->
  usable_ttl ttlSeconds = true ->
  exists r',
    cacheSet key v ttlSeconds r = (Ok tt, r')
    /\ cacheGet key r' = (Ok (toJSON v), r')
    /\ only_at key r r'
    /\ forall key', key' <> key -> cacheGet key' r' = (Ok (stored key' r), r').
Proof.
  intros Hd Hv _.
  set (ex := if positive_finite ttlSeconds then floor_Z ttlSeconds else None).
  exists (Redis (down r) (<[key := Entry (default "" (JSON_stringify v)) ex]> (data r))).
  assert (Hset : cacheSet key v ttlSeconds r
                 = (Ok tt, Redis (down r)
                             (<[key := Entry (default "" (JSON_stringify v)) ex]> (data r)))).
  { unfold cacheSet, client_set. subst ex. destruct (positive_finite ttlSeconds);
      now rewrite Hd. }
  split; [exact Hset|]. split; [|split].
  - rewrite cacheGet_up by exact Hd. f_equal. f_equal.
    unfold stored. cbn [data]. rewrite lookup_insert_eq. now apply decode_stringify.
  - split; [reflexivity|]. intros k Hk. cbn [data]. now rewrite lookup_insert_ne.
  - intros key' Hk. rewrite cacheGet_up by exact Hd. f_equal. f_equal.
    unfold stored. cbn [data]. now rewrite lookup_insert_ne.
Qed.

Lemma cacheSet_cacheGet_witness :
  let v := VObj [("title", VStr "Inception"); ("tagline", VUndef);
                 ("rating", VNum (Dec 880 2))] in
  exists r',
    cacheSet "/v1/movie/27205" v (Dec 864005 1) (Redis false ∅) = (Ok tt, r')
    /\ cacheGet "/v1/movie/27205" r'
       = (Ok (VObj [("title", VStr "Inception"); ("rating", VNum (Dec 88 1))]), r').
Proof.
  intros v.
  destruct (cacheSet_cacheGet "/v1/movie/27205" v (Dec 864005 1) (Redis false ∅))
    as (r' & Hset & Hget & _); [reflexivity | reflexivity | reflexivity |].
  exists r'. split; [exact Hset | exact Hget].
Defined.

(** X2.  [cacheGet] fails exactly when the backend fails.  Otherwise it
    returns a value and leaves the backend as it was; that value is one
    that JSON text denotes (never [undefined] or [NaN]), and it is [null]
    when there is no entry or the entry is not JSON text. *)
Theorem cacheGet_outcomes (key : string) (r : redis) :
  (down r = true -> cacheGet key r = (Throw RedisError, r))
  /\ (down r = false ->
      exists v, cacheGet key r = (Ok v, r)
                /\ is_json v = true
                /\ (miss key r -> v = VNull)).
Proof.
  split; [apply cacheGet_down|]. intros Hd.
  exists (stored key r). split; [now apply cacheGet_up|].
  split; [apply stored_is_json|].
  intros Hm. destruct (cacheGet_miss key r Hm) as [H|H];
    rewrite cacheGet_up in H by exact Hd; congruence.
Qed.

Lemma cacheGet_outcomes_witness :
  let r := Redis false {[ "/v1/movie/27205" := Entry "{title: Inception}" None ]} in
  exists v, cacheGet "/v1/movie/27205" r = (Ok v, r) /\ is_json v = true.
Proof.
  intros r.
  destruct (proj2 (cacheGet_outcomes "/v1/movie/27205" r) eq_refl) as (v & Hg & Hj & _).
  exists v. split; [exact Hg | exact Hj].
Defined.

(** ** The shim's writes: swallowed failures, one key, renewed expiry *)

Lemma upsert_effect_refl (key : string) (r : redis) : upsert_effect key r r.
Proof. now left. Qed.

Lemma upserts_at_ret {A} (key : string) (a : A) : upserts_at key (ret a).
Proof. intros r. apply upsert_effect_refl. Qed.

Lemma upserts_at_throw {A} (key : string) (e : exn) : upserts_at key (@throw A e).
Proof. intros r. apply upsert_effect_refl. Qed.

Lemma upserts_at_lift {A} (key : string) (o : outcome A) : upserts_at key (lift o).
Proof. intros r. apply upsert_effect_refl. Qed.

Lemma upserts_at_cacheSet (key : string) (v : jsval) : upserts_at key (cacheSet key v ttl30).
Proof.
  intros r. destruct (down r) eqn:Hd.
  - rewrite cacheSet_down by exact Hd. apply upsert_effect_refl.
  - rewrite cacheSet_up by exact Hd. right. split; [exact Hd|]. split.
    + split; [reflexivity|]. intros k Hk. cbn. now rewrite lookup_insert_ne.
    + unfold expiry. cbn. now rewrite lookup_insert_eq.
Qed.

Lemma upserts_at_bind {A B} (key : string) (m : M A) (k : A -> M B) :
  readonly m -> (forall a, upserts_at key (k a)) -> upserts_at key (bind m k).
Proof.
  intros Hm Hk r. unfold bind. specialize (Hm r).
  destruct (m r) as [[a|e] r1]; simpl in Hm; subst r1; [apply Hk | apply upsert_effect_refl].
Qed.

Lemma upserts_at_try_catch (key : string) (m : M unit) :
  upserts_at key m -> upserts_at key (try_catch m (fun _ => ret tt)).
Proof.
  intros Hm r. unfold try_catch. specialize (Hm r).
  destruct (m r) as [[a|e] r1]; exact Hm.
Qed.

Ltac upserts_tac :=
  repeat first
    [ apply upserts_at_ret | apply upserts_at_throw | apply upserts_at_lift
    | apply upserts_at_cacheSet
    | apply upserts_at_bind; [readonly_tac | intros ?]
    | match goal with
      | |- upserts_at _ (match ?x with _ => _ end) => destruct x
      end ].

Lemma run_effect (key : string) (body : M unit) (r : redis) :
  upserts_at key body ->
  exists r', try_catch body (fun _ => ret tt) r = (Ok tt, r') /\ upsert_effect key r r'.
Proof.
  intros Hb. pose proof (upserts_at_try_catch key body Hb r) as He.
  unfold try_catch in *. destruct (body r) as [[[]|e] r1]; eauto.
Qed.

Lemma run_unknown (sql : string) (ps : list jsval) (r : redis) :
  unknown_insert sql = true -> run sql ps r = (Ok tt, r).
Proof.
  unfold unknown_insert. rewrite !andb_true_iff, !negb_true_iff.
  intros (((((H1 & H2) & H3) & H4) & H5) & H6).
  unfold run, run_body. now rewrite H1, H2, H3, H4, H5, H6.
Qed.

Lemma upsert_effect_down_flag (key : string) (r r' : redis) :
  upsert_effect key r r' -> down r' = down r.
Proof. intros [->|(_ & [H _] & _)]; [reflexivity | exact H]. Qed.

Lemma run_keeps_down (sql : string) (ps : list jsval) (r r' : redis) :
  run sql ps r = (Ok tt, r') -> down r' = down r.
Proof.
  assert (H : exists key, upserts_at key (run_body sql ps)).
  { unfold run_body.
    repeat match goal with
           | |- context [if ?b then _ else _] => destruct b
           end;
      eexists;
      unfold run_movies_by_channel, run_movies_by_id, run_series_by_id,
        run_series_seasons, run_series_episodes, run_episode_guest_stars;
      upserts_tac.
    Unshelve. exact "". }
  destruct H as [key Hk]. intros Hrun.
  destruct (run_effect key _ r Hk) as (r1 & Hr1 & He).
  unfold run in Hrun. rewrite Hr1 in Hrun. injection Hrun as <-.
  now apply (upsert_effect_down_flag key).
Qed.

(** X3.  The shim's [run()] never throws.  Each of the six upserts does
    nothing at all -- always so when the backend fails -- or writes the
    one entry under the key of its table and parent, with the expiry of
    thirty days, and leaves every other entry alone; a statement for no
    known table does nothing. *)
Theorem run_writes_one_key (ps : list jsval) (r : redis) :
  let lang := lang_or_empty (param ps 1) in
  (exists r', run SQL_upsertMovieByChannel ps r = (Ok tt, r')
              /\ upsert_effect (movie_channel_key (param ps 0) lang) r r')
  /\ (exists r', run SQL_upsertMovieById ps r = (Ok tt, r')
                 /\ upsert_effect (movie_id_key (param ps 0) lang) r r')
  /\ (exists r', run SQL_upsertSeries ps r = (Ok tt, r')
                 /\ upsert_effect (series_id_key (param ps 0) lang) r r')
  /\ (exists r', run SQL_upsertSeasons ps r = (Ok tt, r')
                 /\ upsert_effect (seasons_key (param ps 0) lang) r r')
  /\ (exists r', run SQL_upsertEpisode ps r = (Ok tt, r')
                 /\ upsert_effect (episodes_key (param ps 0) (param ps 2) lang) r r')
  /\ (exists r', run SQL_upsertGuestStar ps r = (Ok tt, r')
                 /\ upsert_effect (episodes_key (param ps 0) (param ps 2) lang) r r')
  /\ (forall sql, unknown_insert sql = true -> run sql ps r = (Ok tt, r)).
Proof.
  intros lang. repeat split.
  - rewrite run_upsertMovieByChannel. apply run_effect.
    unfold run_movies_by_channel. upserts_tac.
  - rewrite run_upsertMovieById. apply run_effect.
    unfold run_movies_by_id. upserts_tac.
  - rewrite run_upsertSeries. apply run_effect.
    unfold run_series_by_id. upserts_tac.
  - rewrite run_upsertSeasons. apply run_effect.
    unfold run_series_seasons. upserts_tac.
  - rewrite run_upsertEpisode. apply run_effect.
    unfold run_series_episodes. upserts_tac.
  - rewrite run_upsertGuestStar. apply run_effect.
    unfold run_episode_guest_stars. upserts_tac.
  - intros sql. apply run_unknown.
Qed.

Lemma run_writes_one_key_witness :
  run "DELETE FROM series_seasons WHERE series_id = ?" [VInt 1399] season_store
  = (Ok tt, season_store).
Proof.
  apply (proj2 (proj2 (proj2 (proj2 (proj2 (proj2
           (run_writes_one_key [VInt 1399] season_store))))))).
  reflexivity.
Defined.

(** A failing backend in particular: nothing is written and nothing is
    raised. *)
Lemma upsert_effect_down (key : string) (r r' : redis) :
  upsert_effect key r r' -> down r = true -> r' = r.
Proof. intros [H|(Hd & _)] Hdown; [exact H | congruence]. Qed.

(** ** Upserts twice, and upserts under ids that are no numbers *)

Lemma written_again (key : string) (l1 l2 : list jsval) (r : redis) :
  list_at key (written key (VArr l2) (written key (VArr l1) r))
  = list_at key (written key (VArr l1) r) ->
  written key (VArr l2) (written key (VArr l1) r) = written key (VArr l1) r.
Proof.
  rewrite !list_at_written. intros [= H].
  unfold written. cbn [down data]. f_equal. rewrite insert_insert_eq.
  unfold JSON_stringify. cbn [is_undefined toJSON]. now rewrite H.
Qed.

Lemma run_same (sql : string) (ps : list jsval) (r r1 r2 : redis) :
  run sql ps r = (Ok tt, r1) -> run sql ps r = (Ok tt, r2) -> r1 = r2.
Proof. congruence. Qed.

Lemma index_of_put_at (k : string) (id x : jsval) (arr : list jsval) :
  num_eqb (to_number (field x k)) (to_number id) = true ->
  index_of k id (put_at (index_of k id arr) x arr) = Some (slot k id arr)
  /\ put_at (Some (slot k id arr)) x (put_at (index_of k id arr) x arr)
     = put_at (index_of k id arr) x arr.
Proof.
  intros Hx. destruct (put_at_slot k id x arr) as (Hlt & _ & Hbefore & Hfix).
  split.
  - rewrite Hfix. now apply index_of_insert.
  - cbn [put_at]. now rewrite <- Hfix.
Qed.

Lemma js_or_array_truthy (a : jsval) : truthy (js_or a (VArr [])) = true.
Proof. unfold js_or. now destruct (truthy a) eqn:E. Qed.

Lemma carried_guests_json (id : jsval) (arr : list jsval) :
  Forall (fun x => is_json x = true) arr ->
  is_json (carried_guests id arr) = true /\ truthy (carried_guests id arr) = true.
Proof.
  intros Hj. split; [|apply js_or_array_truthy].
  unfold carried_guests, episode_with.
  destruct (index_of "episode_id" id arr) as [i|] eqn:E; [|reflexivity].
  destruct (index_of_Some _ _ _ _ E) as (e & He & _). rewrite He.
  change (default VUndef (Some e)) with e.
  rewrite Forall_forall in Hj.
  assert (Hje : is_json e = true) by (apply Hj; eapply list_elem_of_lookup_2; eassumption).
  unfold get_opt. destruct (is_nullish e); [reflexivity|].
  now apply guests_of_is_json.
Qed.

Lemma carried_guests_again (ps : list jsval) (arr : list jsval) :
  Forall (fun x => is_json x = true) arr ->
  numeric_id (param ps 3) ->
  let ep := episode_row ps (carried_guests (param ps 3) arr) in
  carried_guests (param ps 3)
    (put_at (index_of "episode_id" (param ps 3) arr) (toJSON ep) arr)
  = carried_guests (param ps 3) arr.
Proof.
  intros Hj [Hid Hn] ep.
  destruct (carried_guests_json (param ps 3) arr Hj) as [Hcj Hct].
  assert (Hx : num_eqb (to_number (field (toJSON ep) "episode_id"))
                 (to_number (param ps 3)) = true)
    by (subst ep; now rewrite episode_row_id).
  destruct (index_of_put_at "episode_id" (param ps 3) (toJSON ep) arr Hx) as [Hi _].
  destruct (put_at_slot "episode_id" (param ps 3) (toJSON ep) arr) as (_ & Hat & _).
  unfold carried_guests at 1, episode_with. rewrite Hi, Hat.
  change (default VUndef (Some (toJSON ep))) with (toJSON ep).
  unfold get_opt. rewrite (objects_not_nullish (toJSON ep)) by apply objects_toJSON_obj.
  subst ep. unfold episode_row at 1. row_field.
  rewrite (is_json_not_undefined _ Hcj). cbn [default].
  rewrite (toJSON_fixed _ Hcj).
  unfold js_or, id. now rewrite Hct.
Qed.

(** X4.  Upserting the same season or episode again, or the same guest
    star of a stored episode, under an id that is a number, changes
    nothing: the second [run()] leaves the backend exactly as the first
    left it. *)
Theorem upsert_twice (r : redis) (ps : list jsval) :
  down r = false ->
  (forall arr,
     list_at (seasons_key (param ps 0) (lang_or_empty (param ps 1))) r = VArr arr ->
     objects arr -> numeric_id (param ps 2) ->
     exists r1, run SQL_upsertSeasons ps r = (Ok tt, r1)
                /\ run SQL_upsertSeasons ps r1 = (Ok tt, r1))
  /\ (forall arr,
        list_at (episodes_key (param ps 0) (param ps 2) (lang_or_empty (param ps 1))) r
          = VArr arr ->
        objects arr -> numeric_id (param ps 3) ->
        exists r1, run SQL_upsertEpisode ps r = (Ok tt, r1)
                   /\ run SQL_upsertEpisode ps r1 = (Ok tt, r1))
  /\ (forall arr i episode guests,
        list_at (episodes_key (param ps 0) (param ps 2) (lang_or_empty (param ps 1))) r
          = VArr arr ->
        objects arr ->
        index_of "episode_id" (param ps 3) arr = Some i ->
        arr !! i = Some episode ->
        guests_of episode = VArr guests ->
        objects guests -> numeric_id (param ps 5) ->
        exists r1, run SQL_upsertGuestStar ps r = (Ok tt, r1)
                   /\ run SQL_upsertGuestStar ps r1 = (Ok tt, r1)).
Proof.
  intros Hd. split; [|split].
  - intros arr Hl Ho [Hj Hn].
    pose proof (list_at_json _ _ _ Hl) as Hjs.
    destruct (run_seasons_spec ps r arr Hd Hl Ho) as [Hrun1 Hl1].
    set (key := seasons_key (param ps 0) (lang_or_empty (param ps 1))) in *.
    set (row := toJSON (season_row ps)) in *.
    set (r1 := written key _ r) in *.
    exists r1. split; [exact Hrun1|].
    assert (Hx : num_eqb (to_number (field row "id")) (to_number (param ps 2)) = true)
      by (subst row; now rewrite season_row_id).
    destruct (index_of_put_at "id" (param ps 2) row arr Hx) as [Hi Hput].
    assert (Ho1 : objects (put_at (index_of "id" (param ps 2) arr) row arr))
      by (apply Forall_put_at; [exact Ho | apply objects_toJSON_obj]).
    destruct (run_seasons_spec ps r1 _ (eq_trans (down_written _ _ _) Hd) Hl1 Ho1)
      as [Hrun2 Hl2].
    fold key in Hrun2, Hl2. fold row in Hl2.
    rewrite Hi in Hrun2, Hl2. rewrite Hput in Hl2.
    rewrite Hrun2. f_equal. subst r1. apply written_again.
    rewrite Hl2. symmetry. exact Hl1.
  - intros arr Hl Ho Hnum.
    pose proof (list_at_json _ _ _ Hl) as Hjs.
    destruct (run_episodes_spec ps r arr Hd Hl Ho) as [Hrun1 Hl1].
    set (key := episodes_key (param ps 0) (param ps 2) (lang_or_empty (param ps 1))) in *.
    set (ep := episode_row ps (carried_guests (param ps 3) arr)) in *.
    set (r1 := written key _ r) in *.
    exists r1. split; [exact Hrun1|].
    assert (Hx : num_eqb (to_number (field (toJSON ep) "episode_id"))
                   (to_number (param ps 3)) = true)
      by (subst ep; destruct Hnum; now rewrite episode_row_id).
    destruct (index_of_put_at "episode_id" (param ps 3) (toJSON ep) arr Hx) as [Hi Hput].
    assert (Ho1 : objects (put_at (index_of "episode_id" (param ps 3) arr) (toJSON ep) arr))
      by (apply Forall_put_at; [exact Ho | apply objects_toJSON_obj]).
    destruct (run_episodes_spec ps r1 _ (eq_trans (down_written _ _ _) Hd) Hl1 Ho1)
      as [Hrun2 Hl2].
    fold key in Hrun2, Hl2.
    pose proof (carried_guests_again ps arr Hjs Hnum) as Hc. cbv zeta in Hc. fold ep in Hc.
    rewrite Hc in Hrun2, Hl2. fold ep in Hrun2, Hl2.
    rewrite Hi in Hrun2, Hl2. rewrite Hput in Hl2.
    rewrite Hrun2. f_equal. subst r1. apply written_again.
    rewrite Hl2. symmetry. exact Hl1.
  - intros arr i episode guests Hl Ho Hi Hat Hg Hog [Hj Hn].
    pose proof (list_at_json _ _ _ Hl) as Hjs.
    set (key := episodes_key (param ps 0) (param ps 2) (lang_or_empty (param ps 1))) in *.
    set (g := toJSON (guest_of_params ps)).
    set (guests1 := put_at (index_of "id" (param ps 5) guests) g guests).
    set (ep1 := set_field episode "guest_stars" (VArr guests1)).
    destruct (run_guest_existing ps r arr i episode guests Hd Hl Ho Hi Hat Hg Hog)
      as (r1 & Hrun1 & Hd1 & Hl1).
    fold key g guests1 ep1 in Hl1.
    exists r1. split; [exact Hrun1|].
    destruct (index_of_Some _ _ _ _ Hi) as (e & He & Hmatch & Hbefore).
    assert (e = episode) by congruence. subst e.
    assert (Hep : is_object episode = true).
    { unfold objects in Ho. rewrite Forall_forall in Ho. apply Ho.
      eapply list_elem_of_lookup_2; eassumption. }
    assert (Hi1 : index_of "episode_id" (param ps 3) (<[i := ep1]> arr) = Some i).
    { apply index_of_insert; [now apply index_of_lt in Hi | | exact Hbefore].
      subst ep1. rewrite field_set_field_other by discriminate. exact Hmatch. }
    assert (Hat1 : (<[i := ep1]> arr) !! i = Some ep1)
      by (apply list_lookup_insert_eq; now apply index_of_lt in Hi).
    assert (Hg1 : guests_of ep1 = VArr guests1)
      by (subst ep1; unfold guests_of; now rewrite field_set_field_same).
    assert (Hx : num_eqb (to_number (field g "id")) (to_number (param ps 5)) = true)
      by (subst g; now rewrite guest_row_id).
    destruct (index_of_put_at "id" (param ps 5) g guests Hx) as [Hgi Hput].
    fold guests1 in Hgi, Hput.
    assert (Hog1 : objects guests1)
      by (apply Forall_put_at; [exact Hog | apply objects_toJSON_obj]).
    assert (Ho1 : objects (<[i := ep1]> arr)).
    { apply Forall_insert; [exact Ho|]. subst ep1. now rewrite is_object_set_field. }
    destruct (run_guest_existing ps r1 _ i ep1 guests1 Hd1 Hl1 Ho1 Hi1 Hat1 Hg1 Hog1)
      as (r2 & Hrun2 & Hd2 & Hl2).
    fold key g in Hl2. rewrite Hgi, Hput in Hl2.
    assert (Hsame : set_field ep1 "guest_stars" (VArr guests1) = ep1)
      by (subst ep1; apply set_field_twice).
    rewrite Hsame, list_insert_insert_eq in Hl2.
    (* both runs end in a write of the list; the lists are equal *)
    pose proof (run_guest_spec ps r arr Hd Hl) as S1. cbv zeta in S1. rewrite Hi in S1.
    specialize (S1 Ho i episode guests Hi Hat Hg Hog).
    pose proof (run_same _ _ _ _ _ Hrun1 S1) as E1.
    pose proof (run_guest_spec ps r1 _ Hd1 Hl1) as S2. cbv zeta in S2. rewrite Hi1 in S2.
    specialize (S2 Ho1 i ep1 guests1 Hi1 Hat1 Hg1 Hog1).
    pose proof (run_same _ _ _ _ _ Hrun2 S2) as E2.
    rewrite Hrun2. f_equal. subst r2 r1. apply written_again.
    exact (eq_trans Hl2 (eq_sym Hl1)).
Qed.

Lemma upsert_twice_witness :
  let ps := episode_params (VInt 1399) (VInt 1) (VStr "en") 1700000600 pilot_bare in
  exists r1,
    run SQL_upsertEpisode ps season_store = (Ok tt, r1)
    /\ run SQL_upsertEpisode ps r1 = (Ok tt, r1).
Proof.
  intros ps.
  apply (proj1 (proj2 (upsert_twice season_store ps eq_refl))
           (array_items (list_at (episodes_key (VInt 1399) (VInt 1) (VStr "en"))
                           season_store))).
  - vm_compute. reflexivity.
  - apply forallb_Forall. vm_compute. reflexivity.
  - split; reflexivity.
Defined.




(** ** The keys of the record store do not collide *)

Lemma append_inj_l (p a b : string) : p +:+ a = p +:+ b -> a = b.
Proof.
  induction p as [|c p IH]; [now rewrite !append_nil_l|].
  rewrite !append_cons. intros [= H]. now apply IH.
Qed.

(** A run of digits ends where the first other character stands. *)
Lemma digits_then_inj (d1 d2 : string) (c1 c2 : ascii) (s1 s2 : string) :
  all_digits d1 = true -> all_digits d2 = true ->
  is_digit c1 = false -> is_digit c2 = false ->
  d1 +:+ String c1 s1 = d2 +:+ String c2 s2 ->
  d1 = d2 /\ c1 = c2 /\ s1 = s2.
Proof.
  revert d2. induction d1 as [|x d1 IH]; intros [|y d2] H1 H2 Hc1 Hc2;
    rewrite ?append_nil_l, ?append_cons.
  - now intros [= -> ->].
  - cbn [all_digits] in H2. apply andb_true_iff in H2 as [Hy _].
    intros [= -> _]. congruence.
  - cbn [all_digits] in H1. apply andb_true_iff in H1 as [Hx _].
    intros [= -> _]. congruence.
  - cbn [all_digits] in H1, H2.
    apply andb_true_iff in H1 as [_ H1]. apply andb_true_iff in H2 as [_ H2].
    intros [= -> H]. destruct (IH d2 H1 H2 Hc1 Hc2 H) as (-> & -> & ->). now repeat split.
Qed.

Lemma id_text (a : Z) : 0 <= a -> to_string (VInt a) = digits (Z.to_N a).
Proof.
  intros Ha. cbn [to_string VInt Int]. unfold num_to_string.
  change (norm (Int a)) with (Dec a 0). cbv iota.
  unfold dec_text. replace (a <? 0) with false by (symmetry; apply Z.ltb_ge; lia).
  rewrite append_nil_l, append_nil_r, Z.abs_eq by lia.
  change (Z.to_N (pow10 0)) with 1%N. now rewrite N.div_1_r.
Qed.

Lemma id_text_inj (a b : Z) :
  0 <= a -> 0 <= b -> digits (Z.to_N a) = digits (Z.to_N b) -> a = b.
Proof.
  intros Ha Hb H. apply (f_equal (digits_value 0)) in H.
  rewrite !digits_value_digits in H. lia.
Qed.

Lemma id_text_not (a : Z) (c : ascii) (s t : string) :
  is_digit c = false -> digits (Z.to_N a) +:+ s <> String c t.
Proof.
  intros Hc H. destruct (digits_head (Z.to_N a)) as (x & rest & E & Hx & _).
  rewrite E, append_cons in H. injection H as -> _. congruence.
Qed.

Ltac key_text :=
  unfold movie_channel_key, movie_id_key, series_id_key, seasons_key, episodes_key;
  cbn [to_string]; rewrite ?id_text by assumption.

Ltac key_head H :=
  repeat (apply append_inj_l in H || (rewrite append_cons in H; injection H as H)).

Lemma lang_key_inj (d1 d2 l1 l2 : string) (t : string) :
  all_digits d1 = true -> all_digits d2 = true ->
  d1 +:+ String "?"%char t +:+ l1 = d2 +:+ String "?"%char t +:+ l2 ->
  d1 = d2 /\ l1 = l2.
Proof.
  intros H1 H2. rewrite !append_cons. intros H.
  destruct (digits_then_inj d1 d2 "?"%char "?"%char _ _ H1 H2 eq_refl eq_refl H) as (-> & _ & E).
  split; [reflexivity | now apply append_inj_l in E].
Qed.

(** X6.  For ids that are non-negative integers the keys of the record
    store determine their table and their parameters: two keys of one
    table are equal only for the same ids and the same language, and no
    key of one table is a key of another. *)
Theorem record_keys_apart (a b c d : Z) (l l' ch : string) :
  record_id a -> record_id b -> record_id c -> record_id d ->
  (movie_id_key (VInt a) (VStr l) = movie_id_key (VInt b) (VStr l') -> a = b /\ l = l')
  /\ (series_id_key (VInt a) (VStr l) = series_id_key (VInt b) (VStr l')
      -> a = b /\ l = l')
  /\ (seasons_key (VInt a) (VStr l) = seasons_key (VInt b) (VStr l') -> a = b /\ l = l')
  /\ (episodes_key (VInt a) (VInt c) (VStr l) = episodes_key (VInt b) (VInt d) (VStr l')
      -> a = b /\ c = d /\ l = l')
  /\ seasons_key (VInt a) (VStr l) <> episodes_key (VInt b) (VInt d) (VStr l')
  /\ series_id_key (VInt a) (VStr l) <> seasons_key (VInt b) (VStr l')
  /\ series_id_key (VInt a) (VStr l) <> episodes_key (VInt b) (VInt d) (VStr l')
  /\ movie_id_key (VInt a) (VStr l) <> movie_channel_key (VStr ch) (VStr l')
  /\ (forall k,
        k = series_id_key (VInt b) (VStr l') \/ k = seasons_key (VInt b) (VStr l')
        \/ k = episodes_key (VInt b) (VInt d) (VStr l') ->
        movie_id_key (VInt a) (VStr l) <> k /\ movie_channel_key (VStr ch) (VStr l) <> k).
Proof.
  intros [Ha _] [Hb _] [Hc _] [Hd _].
  pose proof (digits_all (Z.to_N a)) as Da. pose proof (digits_all (Z.to_N b)) as Db.
  pose proof (digits_all (Z.to_N c)) as Dc. pose proof (digits_all (Z.to_N d)) as Dd.
  repeat apply conj.
  - key_text. intros H. apply append_inj_l in H.
    destruct (lang_key_inj _ _ _ _ "lang=" Da Db H) as [E ->].
    split; [now apply id_text_inj | reflexivity].
  - key_text. intros H. apply append_inj_l in H.
    destruct (lang_key_inj _ _ _ _ "lang=" Da Db H) as [E ->].
    split; [now apply id_text_inj | reflexivity].
  - key_text. intros H. apply append_inj_l in H. rewrite !append_cons in H.
    destruct (digits_then_inj _ _ "/"%char "/"%char _ _ Da Db eq_refl eq_refl H) as (E & _ & E').
    apply (append_inj_l "seasons?lang=") in E'.
    split; [now apply id_text_inj | exact E'].
  - key_text. intros H. apply append_inj_l in H. rewrite !append_cons in H.
    destruct (digits_then_inj _ _ "/"%char "/"%char _ _ Da Db eq_refl eq_refl H) as (E & _ & E').
    apply (append_inj_l "season/") in E'. rewrite ?append_cons in E'.
    destruct (digits_then_inj _ _ "/"%char "/"%char _ _ Dc Dd eq_refl eq_refl E') as (E2 & _ & E3).
    apply (append_inj_l "episodes?lang=") in E3.
    repeat split; [now apply id_text_inj | now apply id_text_inj | exact E3].
  - key_text. intros H. apply append_inj_l in H. rewrite !append_cons in H.
    destruct (digits_then_inj _ _ "/"%char "/"%char _ _ Da Db eq_refl eq_refl H) as (_ & _ & E').
    rewrite ?append_cons in E'. discriminate E'.
  - key_text. intros H. apply (append_inj_l "/series/") in H.
    symmetry in H. rewrite !append_cons in H. now apply id_text_not in H.
  - key_text. intros H. apply (append_inj_l "/series/") in H.
    symmetry in H. rewrite !append_cons in H. now apply id_text_not in H.
  - key_text. intros H. apply (append_inj_l "/movies/") in H.
    rewrite !append_cons in H. discriminate H.
  - intros k H. split; intros E; subst k; revert H; key_text;
      intros [H|[H|H]]; apply (append_inj_l "/") in H;
      rewrite ?append_cons in H; discriminate H.
Qed.

Lemma record_keys_apart_witness :
  seasons_key (VInt 1399) (VStr "en") <> episodes_key (VInt 1399) (VInt 1) (VStr "en").
Proof.
  apply (proj1 (proj2 (proj2 (proj2 (proj2
           (record_keys_apart 1399 1399 1 1 "en" "en" "UC123"
              ltac:(unfold record_id; lia) ltac:(unfold record_id; lia)
              ltac:(unfold record_id; lia) ltac:(unfold record_id; lia))))))).
Defined.

(** ** [readEpisode] *)

Lemma guest_row_object (ep g : jsval) :
  is_nullish g = false -> guest_row ep g = Ok (guest_row_of ep g).
Proof. intros Hg. unfold guest_row, get_prop. now rewrite Hg. Qed.

Lemma mapO_map {A B} (f : A -> outcome B) (g : A -> B) (l : list A) :
  Forall (fun x => f x = Ok (g x)) l -> mapO f l = Ok (map g l).
Proof.
  induction 1 as [|x l Hx _ IH]; cbn [mapO map]; [reflexivity|]. now rewrite Hx, IH.
Qed.

Lemma episode_guest_rows_wf (e : jsval) :
  wf_episode e ->
  episode_guest_rows e = Ok (map (guest_row_of e) (array_items (guests_of e))).
Proof.
  intros (He & gl & Hg & Hgl). rewrite Hg. cbn [array_items].
  unfold episode_guest_rows, get_prop. rewrite (objects_not_nullish _ He).
  unfold guests_of, js_or in Hg.
  destruct (field e "guest_stars") as [| |b|n|s|l|fs];
    try (destruct (truthy _) in Hg; [discriminate Hg | injection Hg as <-; reflexivity]).
  cbn [truthy] in Hg. injection Hg as ->. apply mapO_map.
  eapply Forall_impl; [exact Hgl|]. intros g Ho.
  apply guest_row_object. now apply objects_not_nullish.
Qed.

Lemma flatten_guests_wf (arr : list jsval) :
  wf_episodes arr ->
  flatten_guests arr
  = Ok (flat_map (fun e => map (guest_row_of e) (array_items (guests_of e))) arr).
Proof.
  induction 1 as [|e arr He _ IH]; cbn [flatten_guests flat_map]; [reflexivity|].
  now rewrite (episode_guest_rows_wf e He), IH.
Qed.

Lemma guest_payload_row (sid ep g : jsval) :
  guest_payload sid (fun x => field x "order_index") (guest_row_of ep g)
  = Ok (read_guest sid g).
Proof. reflexivity. Qed.

Lemma mapO_guest_payload_rows (sid : jsval) (arr : list jsval) :
  mapO (guest_payload sid (fun x => field x "order_index"))
    (flat_map (fun e => map (guest_row_of e) (array_items (guests_of e))) arr)
  = Ok (map (read_guest sid) (season_guests arr)).
Proof.
  unfold season_guests. rewrite (mapO_map _ (fun row =>
    match guest_payload sid (fun x => field x "order_index") row with
    | Ok p => p | Throw _ => VUndef end)).
  - f_equal. induction arr as [|e arr IH]; [reflexivity|].
    cbn [flat_map]. rewrite !map_app, IH. f_equal.
    rewrite map_map. apply map_ext. intros g. now rewrite guest_payload_row.
  - apply Forall_forall. intros row Hin. apply list_elem_of_In, in_flat_map in Hin.
    destruct Hin as (e & _ & Hin). apply in_map_iff in Hin as (g & <- & _).
    now rewrite guest_payload_row.
Qed.

(** X7.  On a working backend whose episode list for the season is
    well formed, [readEpisode] finds the episode by its number and
    returns, as its guest stars, the guest stars of every episode of the
    season, in list order, each without an [id]: the shim's [all()] does
    not filter by episode and names the id [guest_id]. *)
Theorem readEpisode_season_guests
    (sid sn en lang : jsval) (r : redis) (arr : list jsval) (i : nat) (episode : jsval) :
  down r = false ->
  list_at (episodes_key sid sn (lang_or_empty lang)) r = VArr arr ->
  wf_episodes arr ->
  index_of "episode_number" en arr = Some i ->
  arr !! i = Some episode ->
  exists cached,
    readEpisode sid sn en lang r = (Ok cached, r)
    /\ field cached "id" = field episode "id"
    /\ field cached "episode_number" = field episode "episode_number"
    /\ field cached "updated_at" = field episode "updated_at"
    /\ field cached "guest_stars" = VArr (map (read_guest sid) (season_guests arr))
    /\ Forall (fun g => field g "id" = VUndef)
         (map (read_guest sid) (season_guests arr)).
Proof.
  intros Hd Hl Hwf Hi Hat.
  pose proof (wf_objects _ Hwf) as Ho.
  assert (Hep : is_object episode = true).
  { unfold objects in Ho. rewrite Forall_forall in Ho. apply Ho.
    eapply list_elem_of_lookup_2; eassumption. }
  assert (Hfirst : first SQL_readEpisode [sid; lang; sn; en] r = (Ok episode, r)).
  { rewrite first_readEpisode. unfold try_catch, first_episode, bind. cbn [param nth].
    rewrite cacheGet_up by exact Hd.
    change (js_or (stored _ r) (VArr [])) with
      (list_at (episodes_key sid sn (lang_or_empty lang)) r).
    rewrite Hl. cbn [as_array lift].
    rewrite (find_index_of _ _ _ (objects_nullish _ Ho)), Hi, Hat.
    change (default VUndef (Some episode)) with episode.
    unfold ret, js_or. destruct episode; try discriminate Hep. reflexivity. }
  assert (Hall : all SQL_readEpisodeGuests [sid; lang; sn; field episode "episode_number"] r
                 = (Ok (results (VArr (flat_map (fun e => map (guest_row_of e)
                                          (array_items (guests_of e))) arr))), r)).
  { rewrite all_readEpisodeGuests. unfold try_catch, all_guests, bind. cbn [param nth].
    rewrite cacheGet_up by exact Hd.
    change (js_or (stored _ r) (VArr [])) with
      (list_at (episodes_key sid sn (lang_or_empty lang)) r).
    rewrite Hl. unfold lift. now rewrite (flatten_guests_wf arr Hwf). }
  eexists. split; [|split; [|split; [|split; [|split]]]].
  - unfold readEpisode, bind. rewrite Hfirst.
    replace (truthy episode) with true by (destruct episode; try discriminate Hep; reflexivity).
    cbn [negb]. rewrite Hall.
    cbn [results field obj_lookup String.eqb Ascii.eqb Bool.eqb andb].
    change (default VUndef (Some (VArr ?l))) with (VArr l).
    cbn [js_or truthy as_array lift].
    rewrite mapO_guest_payload_rows. reflexivity.
  - reflexivity.
  - reflexivity.
  - reflexivity.
  - reflexivity.
  - apply Forall_forall. intros g Hin. apply list_elem_of_fmap in Hin as (x & -> & _).
    reflexivity.
Qed.

Lemma readEpisode_season_guests_witness :
  exists cached,
    readEpisode (VInt 1399) (VInt 1) (VInt 1) (VStr "en") two_episode_store
    = (Ok cached, two_episode_store)
    /\ map (fun g => field g "name") (array_items (field cached "guest_stars"))
       = [VStr "Jason Momoa"; VStr "Emilia Clarke"].
Proof.
  set (arr := array_items (list_at (episodes_key (VInt 1399) (VInt 1) (VStr "en"))
                             two_episode_store)).
  destruct (readEpisode_season_guests (VInt 1399) (VInt 1) (VInt 1) (VStr "en")
              two_episode_store arr 0 (nth 0 arr VUndef))
    as (cached & Hrun & _ & _ & _ & Hg & _).
  - vm_compute. reflexivity.
  - vm_compute. reflexivity.
  - apply wf_episodes_check. vm_compute. reflexivity.
  - vm_compute. reflexivity.
  - vm_compute. reflexivity.
  - exists cached. split; [exact Hrun|].
    rewrite Hg. vm_compute. reflexivity.
Defined.

Lemma mapO_guest_row_shape (ep : jsval) (l rows : list jsval) :
  mapO (guest_row ep) l = Ok rows ->
  Forall (fun row => exists g, row = guest_row_of ep g) rows.
Proof.
  revert rows. induction l as [|g l IH]; intros rows; cbn [mapO].
  - intros [= <-]. constructor.
  - unfold guest_row at 1, get_prop. destruct (is_nullish g); [discriminate|].
    destruct (mapO (guest_row ep) l) as [ys|]; [|discriminate].
    intros [= <-]. constructor; [now exists g | now apply IH].
Qed.

Lemma flatten_guests_shape (eps rows : list jsval) :
  flatten_guests eps = Ok rows ->
  Forall (fun row => exists ep g, row = guest_row_of ep g) rows.
Proof.
  revert rows. induction eps as [|ep eps IH]; intros rows; cbn [flatten_guests].
  - intros [= <-]. constructor.
  - destruct (episode_guest_rows ep) as [rs|] eqn:E; [|discriminate].
    destruct (flatten_guests eps) as [rest|]; [|discriminate].
    intros [= <-]. apply Forall_app. split; [|now apply IH].
    unfold episode_guest_rows, get_prop in E. destruct (is_nullish ep); [discriminate|].
    destruct (field ep "guest_stars"); try (injection E as <-; constructor).
    apply mapO_guest_row_shape in E.
    eapply Forall_impl; [exact E|]. intros row [g ->]. now exists ep, g.
Qed.

Lemma all_guests_shape (ps : list jsval) (r : redis) :
  exists rows,
    try_catch (all_guests ps) (fun _ => ret (results (VArr []))) r
    = (Ok (results (VArr rows)), r)
    /\ Forall (fun row => exists ep g, row = guest_row_of ep g) rows.
Proof.
  unfold try_catch, all_guests, bind.
  pose proof (readonly_cacheGet (episodes_key (param ps 0) (param ps 2)
                                   (lang_or_empty (param ps 1))) r) as Hr.
  destruct (cacheGet _ r) as [[v|e] r']; simpl in Hr; subst r'.
  - destruct (js_or v (VArr [])) as [| | | | |eps|];
      try (exists []; split; [reflexivity | constructor]).
    unfold lift. destruct (flatten_guests eps) as [rows|] eqn:E.
    + exists rows. split; [reflexivity | now apply flatten_guests_shape in E].
    + exists []. split; [reflexivity | constructor].
  - exists []. split; [reflexivity | constructor].
Qed.

Lemma mapO_guest_payload_shape (sid : jsval) (rows : list jsval) :
  Forall (fun row => exists ep g, row = guest_row_of ep g) rows ->
  exists gs, mapO (guest_payload sid (fun x => field x "order_index")) rows = Ok gs
             /\ Forall (fun p => exists g, p = read_guest sid g) gs.
Proof.
  induction 1 as [|row rows (ep & g & ->) _ (gs & IH & Hgs)]; cbn [mapO].
  - exists []. split; [reflexivity | constructor].
  - rewrite guest_payload_row, IH. exists (read_guest sid g :: gs).
    split; [reflexivity|]. constructor; [now exists g | exact Hgs].
Qed.

(** X8.  [readEpisode] never fails and never writes, whatever the
    backend holds: it returns [null] when the backend fails, when the
    season has no list or one that is not JSON text; and otherwise
    [null] or an episode of the series whose guest stars all belong to
    the series and have no [id]. *)
Theorem readEpisode_never_fails (sid sn en lang : jsval) (r : redis) :
  exists cached,
    readEpisode sid sn en lang r = (Ok cached, r)
    /\ (miss (episodes_key sid sn (lang_or_empty lang)) r -> cached = VNull)
    /\ (cached = VNull
        \/ (field cached "series_id" = sid
            /\ exists gs, field cached "guest_stars" = VArr gs
                          /\ Forall (fun g => field g "series_id" = sid
                                              /\ field g "id" = VUndef) gs)).
Proof.
  unfold readEpisode, bind.
  destruct (first_total SQL_readEpisode [sid; lang; sn; en] r) as [row Hrow].
  rewrite Hrow.
  assert (Hmiss : miss (episodes_key sid sn (lang_or_empty lang)) r -> row = VNull).
  { intros Hm.
    assert (E : first SQL_readEpisode [sid; lang; sn; en] r = (Ok VNull, r)).
    { rewrite first_readEpisode. unfold try_catch, first_episode, bind. cbn [param nth].
      destruct (cacheGet_miss _ r Hm) as [-> | ->]; reflexivity. }
    congruence. }
  destruct (truthy row) eqn:Ht; cbn [negb].
  - rewrite all_readEpisodeGuests.
    destruct (all_guests_shape [sid; lang; sn; field row "episode_number"] r)
      as (rows & -> & Hrows).
    cbn [results field obj_lookup String.eqb Ascii.eqb Bool.eqb andb].
    change (default VUndef (Some (VArr rows))) with (VArr rows).
    cbn [js_or truthy as_array lift].
    destruct (mapO_guest_payload_shape sid rows Hrows) as (gs & -> & Hgs).
    eexists. split; [reflexivity|]. split.
    + intros Hm. rewrite (Hmiss Hm) in Ht. discriminate Ht.
    + right. split; [reflexivity|]. exists gs. split; [reflexivity|].
      eapply Forall_impl; [exact Hgs|]. intros p [g ->]. split; reflexivity.
  - exists VNull. split; [reflexivity|]. split; [reflexivity | now left].
Qed.

Lemma readEpisode_never_fails_witness :
  let r := Redis false {[ "/series/1399/season/1/episodes?lang=en" := Entry "[{]" None ]} in
  readEpisode (VInt 1399) (VInt 1) (VInt 1) (VStr "en") r = (Ok VNull, r).
Proof.
  intros r.
  destruct (readEpisode_never_fails (VInt 1399) (VInt 1) (VInt 1) (VStr "en") r)
    as (cached & Hrun & Hm & _).
  rewrite Hrun. f_equal. f_equal. apply Hm.
  right. right. exists (Entry "[{]" None). split; vm_compute; reflexivity.
Defined.

(** ** The search cache *)

Lemma truthy_norm_dec (e : nat) : forall m,
  truthy (VNum (norm_dec m e)) = negb (m =? 0).
Proof.
  induction e as [|e IH]; intros m; cbn [norm_dec]; [reflexivity|].
  destruct (m mod 10 =? 0) eqn:E; [|reflexivity].
  rewrite IH. apply Z.eqb_eq in E. f_equal.
  destruct (Z.eqb_spec m 0) as [->|Hm]; [reflexivity|].
  apply Z.eqb_neq. intros H. apply Hm.
  rewrite (Z.div_mod m 10) by lia. lia.
Qed.

Lemma truthy_toJSON (v : jsval) : truthy (toJSON v) = truthy v.
Proof.
  destruct v as [| |b|[|m e]|s|l|fs]; try reflexivity.
  cbn [toJSON norm].
  destruct (norm_dec m e) as [|m' e'] eqn:E.
  - pose proof (truthy_norm_dec e m) as H. rewrite E in H. exact H.
  - rewrite <- E. apply truthy_norm_dec.
Qed.

Lemma cacheSet_any (key : string) (v : jsval) (ttlSeconds : num) (r : redis) :
  down r = false -> is_undefined v = false ->
  exists r',
    cacheSet key v ttlSeconds r = (Ok tt, r')
    /\ down r' = false
    /\ stored key r' = toJSON v
    /\ forall k, k <> key -> data r' !! k = data r !! k.
Proof.
  intros Hd Hv.
  set (ex := if positive_finite ttlSeconds then floor_Z ttlSeconds else None).
  exists (Redis (down r) (<[key := Entry (default "" (JSON_stringify v)) ex]> (data r))).
  split; [|split; [exact Hd|split]].
  - unfold cacheSet, client_set. subst ex. destruct (positive_finite ttlSeconds);
      now rewrite Hd.
  - unfold stored. cbn [data]. rewrite lookup_insert_eq. now apply decode_stringify.
  - intros k Hk. cbn [data]. now rewrite lookup_insert_ne.
Qed.

Lemma search_entry_fields (body : jsval) (now : Z) :
  is_undefined body = false ->
  let e := toJSON (VObj [("body", body); ("updated_at", VInt now)]) in
  truthy e = true /\ field e "body" = toJSON body /\ field e "updated_at" = VInt now.
Proof.
  intros Hb e. subst e. split; [apply truthy_toJSON_obj|]. split.
  - row_field. now rewrite Hb.
  - row_field. reflexivity.
Qed.

Lemma age_seconds_int (now' now : Z) (row : jsval) :
  field row "updated_at" = VInt now ->
  num_gtb (age_seconds now' row) (Int CACHE_INTERVAL_SECONDS)
  = (CACHE_INTERVAL_SECONDS <? now' - now).
Proof.
  intros H. unfold age_seconds. rewrite H. cbn.
  rewrite !Z.mul_1_r. reflexivity.
Qed.

(** X9.  What [cacheSearch] stores, [readSearchCache] gives back for
    the same query and language for thirty days and no longer: on a
    working backend, for a body that is truthy and a clock that is not
    zero, the body is read as JSON keeps it while its age is at most
    thirty days, and [null] is read once it is older.  A body that is
    falsy is stored and never read back. *)
Theorem search_cache_roundtrip (query language body : jsval) (now : Z) (r : redis) :
  down r = false ->
  is_undefined body = false ->
  now <> 0 ->
  exists r',
    cacheSearch query language body now r = (Ok tt, r')
    /\ (forall now',
          truthy body = true -> now' - now <= CACHE_INTERVAL_SECONDS ->
          readSearchCache query language now' r' = (Ok (toJSON body), r'))
    /\ (forall now',
          CACHE_INTERVAL_SECONDS < now' - now ->
          readSearchCache query language now' r' = (Ok VNull, r'))
    /\ (forall now',
          truthy body = false ->
          readSearchCache query language now' r' = (Ok VNull, r')).
Proof.
  intros Hd Hb Hnow.
  set (entry := VObj [("body", body); ("updated_at", VInt now)]).
  destruct (cacheSet_any (search_key query language) entry ttl30 r Hd eq_refl)
    as (r' & Hset & Hd' & Hst & _).
  destruct (search_entry_fields body now Hb) as (Ht & Hfb & Hfu). fold entry in Ht, Hfb, Hfu.
  exists r'. split; [unfold cacheSearch, try_catch; fold entry; now rewrite Hset|].
  assert (Hread : forall now',
    readSearchCache query language now' r'
    = (Ok (if negb (truthy body) then VNull
           else if CACHE_INTERVAL_SECONDS <? now' - now then VNull else toJSON body), r')).
  { intros now'. unfold readSearchCache, try_catch, bind.
    rewrite cacheGet_up by exact Hd'. rewrite Hst, Ht, Hfb, Hfu, truthy_toJSON.
    rewrite (age_seconds_int now' now _ Hfu).
    replace (truthy (VInt now)) with true
      by (symmetry; cbn; apply negb_true_iff, Z.eqb_neq; exact Hnow).
    cbn [negb orb]. rewrite orb_false_r.
    destruct (truthy body); cbn [negb]; [|reflexivity].
    now destruct (CACHE_INTERVAL_SECONDS <? now' - now). }
  split; [|split].
  - intros now' Htb Hage. rewrite Hread, Htb. cbn [negb].
    replace (CACHE_INTERVAL_SECONDS <? now' - now) with false
      by (symmetry; apply Z.ltb_ge; lia). reflexivity.
  - intros now' Hage. rewrite Hread.
    replace (CACHE_INTERVAL_SECONDS <? now' - now) with true
      by (symmetry; apply Z.ltb_lt; lia). now destruct (negb (truthy body)).
  - intros now' Htb. rewrite Hread, Htb. reflexivity.
Qed.

Lemma search_cache_roundtrip_witness :
  let body := VObj [("page", VInt 1);
                    ("results", VArr [VObj [("id", VInt 1399);
                                            ("name", VStr "Game of Thrones")]])] in
  exists r',
    cacheSearch (VStr "game of thrones") (VStr "en") body 1700000000 (Redis false ∅)
    = (Ok tt, r')
    /\ readSearchCache (VStr "game of thrones") (VStr "en") 1702592000 r' = (Ok body, r')
    /\ readSearchCache (VStr "game of thrones") (VStr "en") 1702592001 r' = (Ok VNull, r').
Proof.
  intros body.
  destruct (search_cache_roundtrip (VStr "game of thrones") (VStr "en") body 1700000000
              (Redis false ∅) eq_refl eq_refl ltac:(discriminate))
    as (r' & Hset & Hfresh & Hstale & _).
  exists r'. split; [exact Hset|]. split.
  - apply (Hfresh 1702592000); [reflexivity | vm_compute; discriminate].
  - apply (Hstale 1702592001). reflexivity.
Defined.

(** ** Records without a time stamp *)

(** X10.  A record whose [updated_at] is missing or no number has no
    age: every comparison with it is false.  So [shouldRefresh] never
    finds such a record stale, in the series routes and, once it is
    rated, in the movie routes; the episode handler never finds it
    usable; and [readSearchCache] treats a search entry without a time
    stamp as absent. *)
Theorem no_timestamp (now : Z) (row : jsval) :
  truthy row = true ->
  to_number (field row "updated_at") = NaN ->
  shouldRefresh now row = false
  /\ shouldRefreshMovie now row = never_enriched row
  /\ episode_usable now row = false
  /\ (forall query language r,
        down r = false ->
        stored (search_key query language) r = row ->
        field row "updated_at" = VUndef ->
        readSearchCache query language now r = (Ok VNull, r)).
Proof.
  intros Ht Hn.
  assert (Hage : age_seconds now row = NaN) by (unfold age_seconds; now rewrite Hn).
  repeat split.
  - unfold shouldRefresh. now rewrite Ht, Hage.
  - rewrite shouldRefreshMovie_split by exact Ht. rewrite Hage. apply orb_false_r.
  - unfold episode_usable. rewrite Hage. cbn [num_leb]. now rewrite andb_false_r.
  - intros query language r Hd Hs Hu. unfold readSearchCache, try_catch, bind.
    rewrite cacheGet_up by exact Hd. rewrite Hs, Hu. cbn [truthy negb].
    now rewrite orb_true_r.
Qed.

Lemma no_timestamp_witness :
  let ps := guest_params (VInt 1399) (VInt 1) (VStr "en") 1700000000 pilot_bare
              (guest_star 117642 "Jason Momoa" "Khal Drogo") in
  let placeholder :=
    toJSON (set_field (placeholder_episode ps) "guest_stars" (VArr [guest_of_params ps])) in
  hasGuestStars placeholder = true /\ episode_usable 1700000000 placeholder = false.
Proof.
  intros ps placeholder. split; [reflexivity|].
  apply (proj1 (proj2 (proj2 (no_timestamp 1700000000 placeholder eq_refl eq_refl)))).
Defined.

(** ** The season handler *)

Lemma first_getSeasonCacheMeta (ps : list jsval) (r : redis) :
  first SQL_getSeasonCacheMeta ps r = (Ok VNull, r).
Proof. unfold first, first_body. sql_dispatch. reflexivity. Qed.

Lemma getSeasonCacheMeta_none (sid sn lang : jsval) (r : redis) :
  getSeasonCacheMeta sid sn lang r
  = (Ok (VObj [("count", VInt 0); ("updated_at", VNull)]), r).
Proof. unfold getSeasonCacheMeta, bind. now rewrite first_getSeasonCacheMeta. Qed.

Lemma url_cache_or_spec (cmp : string -> string -> Z) (req : request)
    (upstream : string -> M reply) (r : redis) :
  url_cache_or cmp req upstream r
  = if truthy (url_cached cmp req r)
    then (Ok (jsonResponse UrlCache (url_cached cmp req r)), r)
    else upstream (buildCacheKeyFromUrl cmp (url req)) r.
Proof.
  unfold url_cache_or, bind. rewrite url_cached_read.
  now destruct (truthy (url_cached cmp req r)).
Qed.


Lemma for_each_keeps_down (xs : list jsval) (body : jsval -> M unit) :
  (forall x r, exists r', body x r = (Ok tt, r') /\ down r' = down r) ->
  forall r, exists r', for_each xs body r = (Ok tt, r') /\ down r' = down r.
Proof.
  intros Hb. induction xs as [|x xs IH]; intros r; cbn [for_each]; [now exists r|].
  unfold bind. destruct (Hb x r) as (r1 & -> & H1).
  destruct (IH r1) as (r2 & -> & H2). exists r2. split; [reflexivity | congruence].
Qed.

Lemma run_runs (sql : string) (ps : list jsval) (r : redis) :
  exists r', run sql ps r = (Ok tt, r') /\ down r' = down r.
Proof.
  destruct (run_total sql ps r) as [r' H]. exists r'. split; [exact H|].
  now apply run_keeps_down in H.
Qed.

Lemma upsertSeasonEpisodes_runs (sid sn lang episodes : jsval) (now : Z) (r : redis) :
  exists r', upsertSeasonEpisodes sid sn lang episodes now r = (Ok tt, r')
             /\ down r' = down r.
Proof.
  unfold upsertSeasonEpisodes. destruct episodes; try (now exists r).
  apply for_each_keeps_down. intros episode r0. unfold upsertEpisode.
  destruct (lacks_numeric_id episode); [now exists r0|].
  unfold bind. destruct (run_runs SQL_upsertEpisode (episode_params sid sn lang now episode) r0)
    as (r1 & -> & H1).
  destruct (field episode "guest_stars") as [| | | | | gs |];
    try (exists r1; split; [reflexivity | exact H1]).
  assert (Hb : forall g r2, exists r', upsertGuestStar sid sn lang now episode g r2 = (Ok tt, r')
                                       /\ down r' = down r2).
  { intros g r2. unfold upsertGuestStar.
    destruct (lacks_numeric_id g); [now exists r2 | apply run_runs]. }
  destruct (for_each_keeps_down gs _ Hb r1) as (r2 & E & H2).
  exists r2. split; [exact E | congruence].
Qed.

Lemma season_request_inv (req : request) :
  season_request req = true ->
  String.eqb (method req) "GET" = true
  /\ isInteger (request_series req) = true
  /\ isInteger (request_season req) = true.
Proof. unfold season_request. rewrite !andb_true_iff. tauto. Qed.

(** The handler, once the request is accepted: the season's records
    play no part. *)
Lemma handleSeriesSeason_head (cmp : string -> string -> Z) (env : Env) (now : Z)
    (tmdb : outcome jsval) (req : request) (r : redis) :
  season_request req = true ->
  handleSeriesSeason cmp env now tmdb req r
  = if truthy (url_cached cmp req r)
    then (Ok (jsonResponse UrlCache (url_cached cmp req r)), r)
    else season_upstream cmp env now tmdb req r.
Proof.
  intros Hreq. destruct (season_request_inv req Hreq) as (Hm & H1 & H2).
  unfold handleSeriesSeason.
  fold (request_series req). fold (request_season req). fold (request_language req).
  rewrite Hm, H1, H2. cbn [negb orb].
  unfold bind at 1. rewrite getSeasonCacheMeta_none.
  change (num_gtb (to_number (field (VObj [("count", VInt 0); ("updated_at", VNull)]) "count"))
            (Int 0)) with false.
  cbn [andb]. unfold bind at 1. cbn [ret].
  rewrite url_cache_or_spec. reflexivity.
Qed.

Lemma season_upstream_via (cmp : string -> string -> Z) (env : Env) (now : Z)
    (tmdb : outcome jsval) (req : request) (r : redis) (rep : reply) (r' : redis) :
  season_upstream cmp env now tmdb req r = (Ok rep, r') -> via rep = Upstream.
Proof.
  unfold season_upstream, bind, lift.
  destruct tmdb as [data|e]; [|discriminate].
  destruct (get_prop data "episodes") as [eps|e]; [|discriminate].
  destruct (upsertSeasonEpisodes _ _ _ _ _ r) as [[[]|e] r1]; [|discriminate].
  destruct (try_catch _ _ r1) as [[[]|e] r2]; [|discriminate].
  destruct (mapO _ _) as [payload|e]; [|discriminate].
  cbn [ret]. now intros [= <- _].
Qed.

(** X11.  On an accepted request the season handler never answers from
    the season's records, whatever the store holds and however fresh
    they are: a response kept under the key of the request's URL is
    served as it is, without a fetch and without a write, and when
    there is none the handler fetches upstream, failing when the fetch
    fails and answering with the reshaped episodes otherwise. *)
Theorem season_handler_tiers
    (localeCompare : string -> string -> Z) (env : Env) (now : Z)
    (tmdb : outcome jsval) (req : request) (r : redis) :
  season_request req = true ->
  let hit := url_cached localeCompare req r in
  let answer := handleSeriesSeason localeCompare env now tmdb req r in
  (forall rep r', answer = (Ok rep, r') -> via rep <> RecordStore)
  /\ (truthy hit = true -> answer = (Ok (jsonResponse UrlCache hit), r))
  /\ (truthy hit = false ->
        (forall e, tmdb = Throw e -> answer = (Throw e, r))
        /\ (forall data eps payload,
              tmdb = Ok data -> get_prop data "episodes" = Ok eps ->
              mapO (season_episode_payload (VNum (request_series req)))
                (array_items (array_or_empty eps)) = Ok payload ->
              exists r', answer = (Ok (jsonResponse Upstream (VArr payload)), r'))).
Proof.
  intros Hreq hit answer. subst answer.
  rewrite handleSeriesSeason_head by exact Hreq. fold hit.
  split; [|split].
  - intros rep r'. destruct (truthy hit).
    + now intros [= <- _].
    + intros H. apply season_upstream_via in H. congruence.
  - now intros ->.
  - intros ->. split.
    + now intros e ->.
    + intros data eps payload -> He Hp. unfold season_upstream, bind, lift.
      rewrite He.
      destruct (upsertSeasonEpisodes_runs (VNum (request_series req))
                  (VNum (request_season req)) (request_language req)
                  (array_or_empty eps) now r) as (r1 & -> & _).
      unfold try_catch.
      destruct (cacheSet _ (array_or_empty eps) (response_ttl env) r1) as [[[]|e] r2];
        cbn [ret]; rewrite Hp; eauto.
Qed.

Lemma season_handler_tiers_witness :
  exists r',
    handleSeriesSeason compare_code_units no_settings 1700000000 (Ok season_one)
      season_one_request season_store
    = (Ok (jsonResponse Upstream
             (VArr [VObj [("series_id", VInt 1399);
                          ("id", VInt 63056);
                          ("episode_number", VInt 1);
                          ("name", VStr "Winter Is Coming");
                          ("overview", VStr "Jon Arryn, the Hand of the King, is dead.");
                          ("still_path", VStr "/pilot.jpg");
                          ("air_date", VStr "2011-04-17");
                          ("vote_average", VNum (Dec 79 1));
                          ("vote_count", VInt 300);
                          ("guest_stars",
                           VArr [VObj [("series_id", VInt 1399);
                                       ("id", VInt 117642);
                                       ("name", VStr "Jason Momoa");
                                       ("original_name", VStr "Jason Momoa");
                                       ("character", VStr "Khal Drogo");
                                       ("profile_path", VNull);
                                       ("order", VInt 0)]])]])), r').
Proof.
  refine (proj2 (proj2 (proj2 (season_handler_tiers compare_code_units no_settings
                          1700000000 (Ok season_one) season_one_request season_store _)) _)
            season_one _ _ eq_refl _ _).
  - vm_compute. reflexivity.
  - vm_compute. reflexivity.
  - vm_compute. reflexivity.
  - vm_compute. reflexivity.
Defined.





(** ** The series handler *)

Lemma series_request_inv (req : request) :
  series_request req = true ->
  String.eqb (method req) "GET" = true /\ isInteger (request_id req) = true.
Proof. unfold series_request. rewrite andb_true_iff. tauto. Qed.

Lemma cached_series_read (req : request) (r : redis) :
  first SQL_selectSeries [VNum (request_id req); request_language req] r
  = (Ok (cached_series req r), r).
Proof.
  unfold cached_series, selectSeries.
  destruct (first_total SQL_selectSeries [VNum (request_id req); request_language req] r)
    as [v ->].
  reflexivity.
Qed.

Lemma cached_seasons_read (req : request) (r : redis) :
  readSeasons (VNum (request_id req)) (request_language req) r
  = (Ok (cached_seasons req r), r).
Proof.
  unfold cached_seasons, readSeasons, bind.
  destruct (all_total SQL_readSeasons [VNum (request_id req); request_language req] r)
    as [v ->].
  reflexivity.
Qed.

Lemma isExtendedDataMissing_total (row : jsval) :
  truthy row = true -> exists missing, isExtendedDataMissing row = Ok missing.
Proof.
  intros Ht. unfold isExtendedDataMissing, get_prop.
  destruct row; try discriminate; cbn [is_nullish]; eauto.
Qed.

Lemma handleSeriesById_head (cmp : string -> string -> Z) (env : Env) (now : Z)
    (tmdb : outcome jsval) (req : request) (r : redis) :
  series_request req = true ->
  handleSeriesById cmp env now tmdb req r
  = if series_usable now (cached_series req r) (cached_seasons req r)
    then (Ok (jsonResponse RecordStore
                (rowToSeries (cached_series req r) (cached_seasons req r))), r)
    else if truthy (url_cached cmp req r)
    then (Ok (jsonResponse UrlCache (url_cached cmp req r)), r)
    else series_upstream cmp env now tmdb req r.
Proof.
  intros Hreq. destruct (series_request_inv req Hreq) as (Hm & H1).
  unfold handleSeriesById. fold (request_id req). fold (request_language req).
  rewrite Hm, H1. cbn [negb].
  unfold bind at 1. rewrite cached_series_read.
  set (row := cached_series req r). set (seasons := cached_seasons req r).
  unfold series_usable.
  destruct (truthy row) eqn:Ht; cbn [andb].
  2:{ unfold bind at 1. cbn [ret]. unfold bind at 1. cbn [ret andb].
      rewrite url_cache_or_spec. reflexivity. }
  destruct (shouldRefresh now row); cbn [negb andb].
  { unfold bind at 1. cbn [ret]. unfold bind at 1. cbn [ret andb].
    rewrite url_cache_or_spec. reflexivity. }
  destruct (isExtendedDataMissing_total row Ht) as [missing ->].
  unfold bind at 1. unfold bind at 1. cbn [lift ret].
  destruct missing; cbn [negb andb].
  { unfold bind at 1. cbn [ret]. rewrite url_cache_or_spec. reflexivity. }
  unfold bind at 1. rewrite cached_seasons_read. fold seasons.
  destruct (num_gtb (to_number (field seasons "length")) (Int 0)); [reflexivity|].
  rewrite url_cache_or_spec. reflexivity.
Qed.

Lemma buildSeriesPayload_body (details genreIds payload : jsval) :
  buildSeriesPayload details genreIds = Ok payload ->
  set_field payload "seasons" (field payload "seasons") = payload
  /\ is_nullish payload = false.
Proof.
  unfold buildSeriesPayload. destruct (get_prop details "id"); [|discriminate].
  intros [= <-]. split; reflexivity.
Qed.

Lemma upsertSeasons_runs (sid lang seasons : jsval) (now : Z) (r : redis) :
  exists r', upsertSeasons sid lang seasons now r = (Ok tt, r') /\ down r' = down r.
Proof.
  unfold upsertSeasons. destruct seasons; try (now exists r).
  apply for_each_keeps_down. intros season r0. unfold upsertSeason.
  destruct (lacks_numeric_id season); [now exists r0 | apply run_runs].
Qed.

Lemma series_usable_bare (now : Z) (row seasons : jsval) :
  field row "seasons" = VUndef -> series_usable now row seasons = false.
Proof.
  intros Hs. unfold series_usable.
  destruct (truthy row) eqn:Ht; [|reflexivity].
  rewrite (isExtendedDataMissing_without_seasons row) by
    (try exact Hs; destruct row; try discriminate; reflexivity).
  cbn [negb]. now rewrite andb_false_r.
Qed.

Lemma series_upstream_via (cmp : string -> string -> Z) (env : Env) (now : Z)
    (tmdb : outcome jsval) (req : request) (r : redis) (rep : reply) (r' : redis) :
  series_upstream cmp env now tmdb req r = (Ok rep, r') -> via rep = Upstream.
Proof.
  unfold series_upstream, bind, lift.
  destruct tmdb as [data|e]; [|discriminate].
  destruct (buildSeriesPayload _ _) as [payload|e]; [|discriminate].
  destruct (upsertSeries _ _ _ r) as [[[]|e] r1]; [|discriminate].
  destruct (upsertSeasons _ _ _ _ r1) as [[[]|e] r2]; [|discriminate].
  destruct (try_catch _ _ r2) as [[[]|e] r3]; [|discriminate].
  cbn [ret]. now intros [= <- _].
Qed.

(** X13.  On an accepted request the series handler answers from the
    series row exactly when the row exists, is not older than the
    threshold, passes the completeness test and has seasons; otherwise
    a response kept under the key of the request's URL is served as it
    is, without a fetch and without a write; only when there is none
    does the handler fetch upstream, failing when the fetch fails.  A
    row without a [seasons] property is never answered from. *)
Theorem series_handler_tiers
    (localeCompare : string -> string -> Z) (env : Env) (now : Z)
    (tmdb : outcome jsval) (req : request) (r : redis) :
  series_request req = true ->
  let row := cached_series req r in
  let seasons := cached_seasons req r in
  let hit := url_cached localeCompare req r in
  let answer := handleSeriesById localeCompare env now tmdb req r in
  (series_usable now row seasons = true ->
     answer = (Ok (jsonResponse RecordStore (rowToSeries row seasons)), r))
  /\ (series_usable now row seasons = false -> truthy hit = true ->
        answer = (Ok (jsonResponse UrlCache hit), r))
  /\ (series_usable now row seasons = false -> truthy hit = false ->
        (forall e, tmdb = Throw e -> answer = (Throw e, r))
        /\ (forall data payload,
              tmdb = Ok data ->
              buildSeriesPayload data (VArr (extractGenreIdsFromDetails data)) = Ok payload ->
              exists r', answer = (Ok (jsonResponse Upstream payload), r')))
  /\ (field row "seasons" = VUndef -> series_usable now row seasons = false).
Proof.
  intros Hreq row seasons hit answer. subst answer.
  rewrite handleSeriesById_head by exact Hreq. fold row seasons hit.
  split; [|split; [|split]].
  - now intros ->.
  - now intros -> ->.
  - intros -> ->. split.
    + now intros e ->.
    + intros data payload -> Hp. unfold series_upstream, bind, lift. rewrite Hp.
      destruct (buildSeriesPayload_body _ _ _ Hp) as [-> Hn].
      unfold upsertSeries, bind, lift, get_prop. rewrite Hn.
      match goal with |- context [run ?sql ?ps r] =>
        destruct (run_runs sql ps r) as (r1 & -> & _) end.
      destruct (upsertSeasons_runs (VNum (request_id req)) (request_language req)
                  (field payload "seasons") now r1) as (r2 & -> & _).
      unfold try_catch.
      destruct (cacheSet _ payload (response_ttl env) r2) as [[[]|e] r3]; cbn [ret]; eauto.
  - apply series_usable_bare.
Qed.

Lemma series_handler_tiers_witness :
  let r :=
    (upsertSeasons (VInt 1399) (VStr "en") (field detail_item "seasons") 1700000000
       (upsertSeries (VStr "en") detail_item 1700000000 (Redis false ∅)).2).2 in
  field (cached_series series_one_request r) "number_of_seasons" = VInt 8
  /\ field (cached_seasons series_one_request r) "length" = VInt 1
  /\ exists r' payload,
       handleSeriesById compare_code_units no_settings 1700000600 (Ok detail_item)
         series_one_request r
       = (Ok (jsonResponse Upstream payload), r')
       /\ field payload "seasons" = field detail_item "seasons".
Proof.
  intros r.
  split; [vm_compute; reflexivity|]. split; [vm_compute; reflexivity|].
  assert (H1 : series_request series_one_request = true) by (vm_compute; reflexivity).
  assert (H2 : series_usable 1700000600 (cached_series series_one_request r)
                 (cached_seasons series_one_request r) = false)
    by (vm_compute; reflexivity).
  assert (H3 : truthy (url_cached compare_code_units series_one_request r) = false)
    by (vm_compute; reflexivity).
  pose (payload :=
          match buildSeriesPayload detail_item
                  (VArr (extractGenreIdsFromDetails detail_item)) with
          | Ok p => p
          | Throw _ => VNull
          end).
  assert (H4 : buildSeriesPayload detail_item
                 (VArr (extractGenreIdsFromDetails detail_item)) = Ok payload)
    by (vm_compute; reflexivity).
  destruct (proj2 (proj1 (proj2 (proj2
              (series_handler_tiers compare_code_units no_settings 1700000600
                 (Ok detail_item) series_one_request r H1))) H2 H3)
              detail_item payload eq_refl H4) as [r' E].
  exists r', payload. split; [exact E | vm_compute; reflexivity].
Defined.

(** ** No series row ever has its seasons *)

Lemma keeps_ret {A} (a : A) : keeps_bare (ret a).
Proof. intros r H. exact H. Qed.

Lemma keeps_throw {A} (e : exn) : keeps_bare (@throw A e).
Proof. intros r H. exact H. Qed.

Lemma keeps_lift {A} (o : outcome A) : keeps_bare (lift o).
Proof. intros r H. exact H. Qed.

Lemma keeps_readonly {A} (m : M A) : readonly m -> keeps_bare m.
Proof. intros Hm r H. now rewrite Hm. Qed.

Lemma keeps_bind {A B} (m : M A) (k : A -> M B) :
  keeps_bare m -> (forall a, keeps_bare (k a)) -> keeps_bare (bind m k).
Proof.
  intros Hm Hk r H. unfold bind. specialize (Hm r H).
  destruct (m r) as [[a|e] r1]; [now apply Hk | exact Hm].
Qed.

Lemma keeps_try_catch {A} (m : M A) (h : exn -> M A) :
  keeps_bare m -> (forall e, keeps_bare (h e)) -> keeps_bare (try_catch m h).
Proof.
  intros Hm Hh r H. unfold try_catch. specialize (Hm r H).
  destruct (m r) as [[a|e] r1]; [exact Hm | now apply Hh].
Qed.

Lemma keeps_for_each (xs : list jsval) (body : jsval -> M unit) :
  (forall x, keeps_bare (body x)) -> keeps_bare (for_each xs body).
Proof.
  intros Hb. induction xs as [|x xs IH]; cbn [for_each]; [apply keeps_ret|].
  apply keeps_bind; [apply Hb | intros _; exact IH].
Qed.

(** What is under a key after [cacheSet], whatever it answered. *)
Lemma cacheSet_stored (key : string) (v : jsval) (ttlSeconds : num) (r : redis) (k : string) :
  stored k (cacheSet key v ttlSeconds r).2 = stored k r
  \/ (k = key
      /\ stored k (cacheSet key v ttlSeconds r).2
         = if is_undefined v then VNull else toJSON v).
Proof.
  destruct (down r) eqn:Hd; [left; now rewrite cacheSet_down|].
  destruct (decide (k = key)) as [->|Hne].
  - right. split; [reflexivity|].
    unfold cacheSet.
    destruct (is_undefined v) eqn:Hv.
    + unfold JSON_stringify. rewrite Hv.
      destruct (positive_finite ttlSeconds); unfold client_set; rewrite Hd;
        unfold stored; cbn [snd data]; now rewrite lookup_insert_eq.
    + destruct (positive_finite ttlSeconds); unfold client_set; rewrite Hd;
        unfold stored; cbn [snd data]; rewrite lookup_insert_eq;
        now apply decode_stringify.
  - left. unfold cacheSet.
    destruct (positive_finite ttlSeconds); unfold client_set; rewrite Hd;
      unfold stored; cbn [snd data]; now rewrite lookup_insert_ne.
Qed.

Lemma keeps_cacheSet_value (key : string) (v : jsval) (ttlSeconds : num) :
  field (toJSON v) "seasons" = VUndef -> keeps_bare (cacheSet key v ttlSeconds).
Proof.
  intros Hv r H id lang.
  destruct (cacheSet_stored key v ttlSeconds r (series_id_key id lang)) as [->|[_ ->]];
    [apply H|].
  destruct (is_undefined v); [reflexivity | exact Hv].
Qed.

Lemma keeps_cacheSet_key (key : string) (v : jsval) (ttlSeconds : num) :
  (forall id lang, key <> series_id_key id lang) -> keeps_bare (cacheSet key v ttlSeconds).
Proof.
  intros Hk r H id lang.
  destruct (cacheSet_stored key v ttlSeconds r (series_id_key id lang)) as [->|[E _]];
    [apply H|].
  symmetry in E. now apply Hk in E.
Qed.

Lemma field_toJSON_array (l : list jsval) (k : string) :
  String.eqb k "length" = false -> field (toJSON (VArr l)) k = VUndef.
Proof. intros Hk. cbn [toJSON field]. now rewrite Hk. Qed.

Ltac bare_step :=
  match goal with
  | |- keeps_bare (ret _) => apply keeps_ret
  | |- keeps_bare (throw _) => apply keeps_throw
  | |- keeps_bare (lift _) => apply keeps_lift
  | |- keeps_bare (cacheGet _) => apply keeps_readonly, readonly_cacheGet
  | |- keeps_bare (first _ _) => apply keeps_readonly, readonly_first
  | |- keeps_bare (all _ _) => apply keeps_readonly, readonly_all
  | |- keeps_bare (bind _ _) => apply keeps_bind; [|intros ?]
  | |- keeps_bare (try_catch _ _) => apply keeps_try_catch; [|intros ?]
  | |- keeps_bare (for_each _ _) => apply keeps_for_each; intros ?
  | |- keeps_bare (if ?b then _ else _) => destruct b
  | |- keeps_bare (match ?x with _ => _ end) => destruct x
  end.

Ltac bare_tac := repeat bare_step.

Lemma keeps_run (sql : string) (ps : list jsval) : keeps_bare (run sql ps).
Proof.
  unfold run, run_body, run_movies_by_channel, run_movies_by_id, run_series_by_id,
    run_series_seasons, run_series_episodes, run_episode_guest_stars.
  bare_tac;
    try (apply keeps_cacheSet_value; apply field_toJSON_array; reflexivity);
    apply keeps_cacheSet_value;
    unfold movie_channel_row, movie_id_row, series_row; row_field; reflexivity.
Qed.

Lemma keeps_bind_lift {A B} (o : outcome A) (k : A -> M B) :
  (forall a, o = Ok a -> keeps_bare (k a)) -> keeps_bare (bind (lift o) k).
Proof.
  intros Hk r H. unfold bind, lift. destruct o as [a|e]; [now apply Hk | exact H].
Qed.

Ltac writes_tac :=
  repeat match goal with
         | |- keeps_bare (run _ _) => apply keeps_run
         | |- keeps_bare (bind (lift _) _) => apply keeps_bind_lift; intros ? ?
         | _ => bare_step
         end.

Lemma keeps_upsertSeasonEpisodes (sid sn lang episodes : jsval) (now : Z) :
  keeps_bare (upsertSeasonEpisodes sid sn lang episodes now).
Proof.
  unfold upsertSeasonEpisodes, upsertEpisode, upsertGuestStar.
  writes_tac.
Qed.

Lemma keeps_upsertSeries (lang item : jsval) (now : Z) :
  keeps_bare (upsertSeries lang item now).
Proof. unfold upsertSeries. writes_tac. Qed.

Lemma keeps_upsertSeasons (sid lang seasons : jsval) (now : Z) :
  keeps_bare (upsertSeasons sid lang seasons now).
Proof. unfold upsertSeasons, upsertSeason. writes_tac. Qed.

Lemma url_key_head (cmp : string -> string -> Z) (req : request) :
  api_path req = true ->
  exists rest, buildCacheKeyFromUrl cmp (url req) = String "/" (String "v" rest).
Proof.
  unfold api_path, buildCacheKeyFromUrl. intros Hp.
  destruct (pathname (url req)) as [|c1 p]; [discriminate|].
  cbn [String.prefix] in Hp.
  destruct (ascii_dec "/" c1) as [<-|]; [|discriminate].
  destruct p as [|c2 p]; cbn [String.prefix] in Hp; [discriminate|].
  destruct (ascii_dec "v" c2) as [<-|]; [|discriminate].
  destruct (negb _); rewrite ?append_cons; eauto.
Qed.

Lemma url_key_not_series (cmp : string -> string -> Z) (req : request) :
  api_path req = true ->
  forall id lang, buildCacheKeyFromUrl cmp (url req) <> series_id_key id lang.
Proof.
  intros Hp id lang. destruct (url_key_head cmp req Hp) as [rest ->].
  unfold series_id_key. rewrite ?append_cons. intros E. discriminate E.
Qed.


Lemma bare_empty (d : bool) : bare_series_rows (Redis d ∅).
Proof. intros id lang. unfold stored. cbn [data]. now rewrite lookup_empty. Qed.

Lemma cached_series_bare (req : request) (r : redis) :
  bare_series_rows r -> field (cached_series req r) "seasons" = VUndef.
Proof.
  intros H. unfold cached_series, selectSeries. rewrite first_selectSeries.
  unfold try_catch, bind. cbn [param nth].
  destruct (down r) eqn:Hd.
  - rewrite cacheGet_down by exact Hd. reflexivity.
  - rewrite cacheGet_up by exact Hd. cbn [ret fst]. unfold js_or.
    destruct (truthy _); [apply H | reflexivity].
Qed.

Lemma array_or_empty_bare (v : jsval) : field (toJSON (array_or_empty v)) "seasons" = VUndef.
Proof. unfold array_or_empty. destruct v; reflexivity. Qed.

Lemma buildEpisodePayload_bare (sid data payload : jsval) :
  buildEpisodePayload sid data = Ok payload -> field (toJSON payload) "seasons" = VUndef.
Proof.
  unfold buildEpisodePayload. destruct (get_prop data "id"); [|discriminate].
  match goal with |- context [match ?g with Ok _ => _ | Throw _ => _ end = _] =>
    destruct g; [|discriminate] end.
  intros [= <-]. row_field. reflexivity.
Qed.

Ltac handler_tac :=
  cbv zeta;
  repeat match goal with
         | |- keeps_bare (run _ _) => apply keeps_run
         | |- keeps_bare (upsertSeasonEpisodes _ _ _ _ _) => apply keeps_upsertSeasonEpisodes
         | |- keeps_bare (upsertSeries _ _ _) => apply keeps_upsertSeries
         | |- keeps_bare (upsertSeasons _ _ _ _) => apply keeps_upsertSeasons
         | |- keeps_bare (bind (lift _) _) => apply keeps_bind_lift; intros ? ?
         | _ => bare_step
         end.

Lemma keeps_handleSeriesSearch (now : Z) (tmdb : outcome jsval) (req : request) :
  keeps_bare (handleSeriesSearch now tmdb req).
Proof.
  unfold handleSeriesSearch, readSearchCache, cacheSearch. handler_tac.
  apply keeps_cacheSet_value. row_field. reflexivity.
Qed.

Lemma keeps_handleSeriesSeason (cmp : string -> string -> Z) (env : Env) (now : Z)
    (tmdb : outcome jsval) (req : request) :
  keeps_bare (handleSeriesSeason cmp env now tmdb req).
Proof.
  unfold handleSeriesSeason, url_cache_or, getSeasonCacheMeta, readSeasonEpisodes.
  handler_tac. apply keeps_cacheSet_value, array_or_empty_bare.
Qed.

Lemma keeps_handleSeriesEpisode (cmp : string -> string -> Z) (env : Env) (now : Z)
    (tmdb : outcome jsval) (req : request) :
  keeps_bare (handleSeriesEpisode cmp env now tmdb req).
Proof.
  unfold handleSeriesEpisode, readEpisode. handler_tac.
  all: eapply keeps_cacheSet_value, buildEpisodePayload_bare; eassumption.
Qed.

Lemma keeps_handleSeriesById (cmp : string -> string -> Z) (env : Env) (now : Z)
    (tmdb : outcome jsval) (req : request) :
  api_path req = true -> keeps_bare (handleSeriesById cmp env now tmdb req).
Proof.
  intros Hp. unfold handleSeriesById, url_cache_or, readSeasons. handler_tac.
  all: apply keeps_cacheSet_key, url_key_not_series; exact Hp.
Qed.

(** X14.  No series row ever gets a [seasons] property, so the series
    handler never answers from the series table: on a store whose
    series rows have none -- the empty store is one -- each of the four
    series handlers leaves a store of that kind, whatever it answers
    (the handler of a series by id for a path under [/v1/], where the
    server puts it), and the handler of a series by id gives no answer
    from the record store. *)
Theorem series_rows_stay_bare
    (localeCompare : string -> string -> Z) (env : Env) (now : Z)
    (tmdb : outcome jsval) (req : request) (r : redis) :
  bare_series_rows r ->
  bare_series_rows (handleSeriesSearch now tmdb req r).2
  /\ bare_series_rows (handleSeriesSeason localeCompare env now tmdb req r).2
  /\ bare_series_rows (handleSeriesEpisode localeCompare env now tmdb req r).2
  /\ (api_path req = true ->
      bare_series_rows (handleSeriesById localeCompare env now tmdb req r).2)
  /\ (forall rep,
        (handleSeriesById localeCompare env now tmdb req r).1 = Ok rep ->
        via rep <> RecordStore).
Proof.
  intros H. split; [now apply keeps_handleSeriesSearch|].
  split; [now apply keeps_handleSeriesSeason|].
  split; [now apply keeps_handleSeriesEpisode|].
  split; [intros Hp; now apply keeps_handleSeriesById|].
  intros rep. destruct (series_request req) eqn:Hreq.
  - rewrite handleSeriesById_head by exact Hreq.
    rewrite series_usable_bare by now apply cached_series_bare.
    destruct (truthy (url_cached localeCompare req r)).
    + intros [= <-]. discriminate.
    + destruct (series_upstream localeCompare env now tmdb req r) as [o r'] eqn:E.
      cbn [fst]. intros ->. apply series_upstream_via in E. congruence.
  - unfold series_request in Hreq. unfold handleSeriesById. fold (request_id req).
    destruct (String.eqb (method req) "GET"); cbn [negb].
    + cbn [andb] in Hreq. rewrite Hreq. cbn [negb ret fst]. intros [= <-]. discriminate.
    + cbn [ret fst]. intros [= <-]. discriminate.
Qed.

Lemma series_rows_stay_bare_witness :
  bare_series_rows
    (handleSeriesById compare_code_units no_settings 1700000000 (Ok detail_item)
       series_one_request (Redis false ∅)).2.
Proof.
  apply (proj1 (proj2 (proj2 (proj2
           (series_rows_stay_bare compare_code_units no_settings 1700000000
              (Ok detail_item) series_one_request (Redis false ∅) (bare_empty false)))))).
  vm_compute. reflexivity.
Defined.

(** ** The movie row: what is stored is what is answered *)

Lemma plain_fields (payload : jsval) (k : string) :
  is_json payload = true -> plain (field payload k) = true.
Proof.
  intros Hj. unfold plain.
  destruct (field_json_or_undefined payload k Hj) as [->| ->]; [reflexivity|].
  apply orb_true_r.
Qed.

Lemma plain_kept (x : jsval) :
  plain x = true ->
  default VUndef (if is_undefined x then None else Some (toJSON x)) = x.
Proof.
  unfold plain. destruct (is_undefined x) eqn:Hu.
  - destruct x; try discriminate. reflexivity.
  - cbn [orb]. intros Hj. cbn [default]. now apply toJSON_fixed.
Qed.

Lemma plain_default_kept (x : jsval) :
  plain x = true ->
  default VUndef
    (if is_undefined (js_nullish x (VInt 0)) then None
     else Some (toJSON (js_nullish x (VInt 0))))
  = js_nullish x (VInt 0).
Proof.
  intros Hx. apply plain_kept. unfold plain in *.
  destruct x; try reflexivity; exact Hx.
Qed.

Lemma plain_default_kept2 (x : jsval) :
  plain x = true ->
  js_nullish
    (default VUndef
       (if is_undefined (js_nullish x (VInt 0)) then None
        else Some (toJSON (js_nullish x (VInt 0)))))
    (VInt 0)
  = js_nullish x (VInt 0).
Proof.
  intros Hx. rewrite plain_default_kept by exact Hx. now destruct x.
Qed.

(** An array field: [JSON.stringify(v || [])] on the way in,
    [parseJsonArray] on the way out. *)
Lemma plain_array_kept (x : jsval) :
  plain x = true ->
  VArr (parseJsonArray
          (default VUndef
             (if is_undefined (js_or (stringify_str (js_or x (VArr []))) (VStr "[]"))
              then None
              else Some (toJSON (js_or (stringify_str (js_or x (VArr []))) (VStr "[]"))))))
  = array_or_empty x.
Proof.
  intros Hx.
  assert (Hy : exists y, js_or x (VArr []) = y /\ is_json y = true
                         /\ VArr (array_items y) = array_or_empty x).
  { unfold js_or, plain in *. destruct (truthy x) eqn:Ht.
    - exists x. split; [reflexivity|].
      destruct x; try discriminate; cbn [is_undefined orb] in Hx;
        (split; [exact Hx | reflexivity]).
    - exists (VArr []). split; [reflexivity|]. split; [reflexivity|].
      destruct x; try discriminate; reflexivity. }
  destruct Hy as (y & -> & Hj & <-).
  unfold stringify_str, JSON_stringify.
  replace (is_undefined y) with false by (destruct y; try reflexivity; discriminate).
  rewrite (toJSON_fixed y Hj).
  assert (Hk : js_or (VStr (emit y "")) (VStr "[]") = VStr (emit y "")).
  { unfold js_or, truthy. now rewrite emit_nonempty. }
  rewrite Hk. cbn [is_undefined toJSON default].
  unfold id, parseJsonArray, truthy. rewrite emit_nonempty. cbn [negb to_string].
  rewrite JSON_parse_emit by exact Hj. now destruct y.
Qed.

(** The row [upsertMovieById] leaves on a working backend. *)
Lemma upsertMovieById_row (lang payload : jsval) (now : Z) (r : redis) :
  down r = false -> is_nullish payload = false ->
  (forall k, plain (field payload k) = true) ->
  exists r' row,
    upsertMovieById lang payload now r = (Ok tt, r')
    /\ down r' = false
    /\ stored (movie_id_key (field payload "movieId") (lang_or_empty lang)) r' = row
    /\ truthy row = true
    /\ field row "updated_at" = VInt now
    /\ never_enriched row = unrated payload
    /\ rowToMovie row VNull = movie_from_record payload now.
Proof.
  intros Hd Hp Hpl.
  unfold upsertMovieById, bind, lift, get_prop. rewrite Hp.
  rewrite run_upsertMovieById.
  unfold run_movies_by_id, movie_id_row. cbn [param nth].
  match goal with |- context [cacheSet ?k (VObj ?row) _] =>
    destruct (scalar_write_read k row r Hd) as [Hw _] end.
  eexists _, _. split; [exact Hw|]. clear Hw.
  split; [exact Hd|]. split; [apply stored_written; reflexivity|].
  split; [apply truthy_toJSON_obj|].
  split; [row_field; reflexivity|].
  split.
  - unfold never_enriched, unrated. rewrite !field_toJSON_obj.
    cbn [props_lookup String.eqb Ascii.eqb Bool.eqb andb].
    rewrite !plain_default_kept2 by apply Hpl. reflexivity.
  - unfold rowToMovie. rewrite truthy_toJSON_obj. cbn [negb].
    rewrite !field_toJSON_obj.
    cbn [props_lookup String.eqb Ascii.eqb Bool.eqb andb].
    rewrite !plain_array_kept, !plain_default_kept2 by apply Hpl.
    rewrite !plain_kept by apply Hpl.
    reflexivity.
Qed.

Lemma selectMovieById_up (id lang : jsval) (r : redis) :
  down r = false ->
  selectMovieById id lang r = (Ok (js_or (stored (movie_id_key id (lang_or_empty lang)) r) VNull), r).
Proof.
  intros Hd. unfold selectMovieById. rewrite first_selectMovieById.
  unfold try_catch, bind. cbn [param nth]. now rewrite cacheGet_up.
Qed.

(** X15.  What the record store answers for a movie is what was
    upserted: on a working backend the row read back after
    [upsertMovieById], turned into the answer by [rowToMovie], has the
    payload's scalar fields unchanged (absent ones stay absent), its
    three lists (an empty list for one that is absent or not a list),
    zero for a rating or a rating count that is absent or null, the
    time of the upsert, and a null channel. *)
Theorem movie_row_roundtrip (lang payload : jsval) (now : Z) (r : redis) :
  down r = false -> is_nullish payload = false ->
  (forall k, plain (field payload k) = true) ->
  exists r' row,
    upsertMovieById lang payload now r = (Ok tt, r')
    /\ selectMovieById (field payload "movieId") lang r' = (Ok row, r')
    /\ rowToMovie row VNull = movie_from_record payload now.
Proof.
  intros Hd Hp Hpl.
  destruct (upsertMovieById_row lang payload now r Hd Hp Hpl)
    as (r' & row & Hu & Hd' & Hs & Ht & _ & _ & Hrow).
  exists r', row. split; [exact Hu|]. split; [|exact Hrow].
  rewrite selectMovieById_up by exact Hd'. rewrite Hs. unfold js_or. now rewrite Ht.
Qed.

Lemma movie_row_roundtrip_witness :
  exists r' row,
    upsertMovieById (VStr "en") inception 1700000000 (Redis false ∅) = (Ok tt, r')
    /\ selectMovieById (VInt 27205) (VStr "en") r' = (Ok row, r')
    /\ rowToMovie row VNull = movie_from_record inception 1700000000.
Proof.
  apply (movie_row_roundtrip (VStr "en") inception 1700000000 (Redis false ∅)).
  - reflexivity.
  - reflexivity.
  - intros k. apply plain_fields. vm_compute. reflexivity.
Defined.

(** ** The movie handler *)






(** ** The search handler *)










(** ** Small helpers of the routes *)

Lemma genre_id_number (g : jsval) :
  is_null (genre_id g) = false -> is_number (genre_id g) = true /\ lacks_numeric_id g = false.
Proof.
  unfold genre_id, lacks_numeric_id.
  destruct (truthy g); cbn [andb negb orb]; [|discriminate].
  destruct (is_number (field g "id")) eqn:E; [|discriminate].
  intros _. now rewrite E.
Qed.

Lemma genre_id_kept (g : jsval) :
  lacks_numeric_id g = false ->
  genre_id g = field g "id" /\ is_null (genre_id g) = false.
Proof.
  unfold genre_id, lacks_numeric_id. rewrite orb_false_iff, !negb_false_iff.
  intros [-> Hn]. rewrite Hn. cbn [andb]. split; [reflexivity|].
  now destruct (field g "id").
Qed.

(** X18.  The genre ids taken from the details of a series are
    numbers, one for each genre that has a numeric id, in the order of
    the genres; details that are missing or have no list of genres give
    none.  A genre without a numeric id is left out, not answered as
    null. *)
Theorem genre_ids_numbers (details : jsval) :
  Forall (fun x => is_number x = true) (extractGenreIdsFromDetails details)
  /\ (isArray (field details "genres") = false -> extractGenreIdsFromDetails details = [])
  /\ (forall genres,
        truthy details = true -> field details "genres" = VArr genres ->
        extractGenreIdsFromDetails details
        = map (fun g => field g "id")
            (filter (fun g => lacks_numeric_id g = false) genres)).
Proof.
  unfold extractGenreIdsFromDetails. split; [|split].
  - destruct (truthy details); cbn [negb]; [|constructor].
    destruct (field details "genres") as [| | | | |genres|]; try constructor.
    induction genres as [|g genres IH]; [constructor|].
    cbn [map]. rewrite filter_cons.
    destruct (decide (is_null (genre_id g) = false)) as [H|H]; [|exact IH].
    constructor; [now apply genre_id_number | exact IH].
  - destruct (truthy details); cbn [negb]; [|reflexivity].
    destruct (field details "genres"); try reflexivity. discriminate.
  - intros genres -> ->. cbn [negb].
    induction genres as [|g genres IH]; [reflexivity|].
    cbn [map]. rewrite !filter_cons.
    destruct (decide (lacks_numeric_id g = false)) as [H|H].
    + destruct (genre_id_kept g H) as [E Hn].
      destruct (decide (is_null (genre_id g) = false)) as [_|C]; [|contradiction].
      cbn [map]. now rewrite E, IH.
    + destruct (decide (is_null (genre_id g) = false)) as [C|_]; [|exact IH].
      apply genre_id_number in C. destruct C as [_ C]. contradiction.
Qed.

Lemma genre_ids_numbers_witness :
  extractGenreIdsFromDetails
    (VObj [("id", VInt 1399);
           ("genres", VArr [VObj [("id", VInt 10765); ("name", VStr "Sci-Fi & Fantasy")];
                            VObj [("name", VStr "Drama")];
                            VNull;
                            VObj [("id", VInt 18); ("name", VStr "Drama")]])])
  = [VInt 10765; VInt 18].
Proof.
  match goal with |- extractGenreIdsFromDetails ?d = _ =>
    exact (proj2 (proj2 (genre_ids_numbers d)) _ eq_refl eq_refl) end.
Defined.

Lemma digit_val_bound (c : ascii) : is_digit c = true -> (digit_val c <= 9)%N.
Proof.
  unfold is_digit, digit_val. rewrite andb_true_iff, !N.leb_le. lia.
Qed.

Lemma not_digit_not (c d : ascii) :
  is_digit c = false -> is_digit d = true -> Ascii.eqb c d = false.
Proof.
  intros Hc Hd. destruct (Ascii.eqb_spec c d) as [->|]; [congruence | reflexivity].
Qed.

Lemma year_here_range (s : string) (y : Z) : year_here s = Some y -> 1900 <= y <= 2099.
Proof.
  unfold year_here.
  destruct s as [|a [|b [|c [|d rest]]]]; try discriminate.
  destruct (_ && _) eqn:E; [|discriminate]. intros [= <-].
  rewrite !andb_true_iff in E. destruct E as [[[Hab Hc] Hd] _].
  apply digit_val_bound in Hc, Hd. cbn [digits_value].
  rewrite orb_true_iff, !andb_true_iff in Hab.
  destruct Hab as [[Ha Hb]|[Ha Hb]];
    apply Ascii.eqb_eq in Ha, Hb; subst a b;
    change (digit_val "1") with 1%N; change (digit_val "9") with 9%N;
    change (digit_val "2") with 2%N; change (digit_val "0") with 0%N; lia.
Qed.

Lemma year_here_text (y4 post : string) :
  year_text y4 = true -> no_digit_ahead post = true ->
  year_here (y4 +:+ post) = Some (Z.of_N (digits_value 0 y4)).
Proof.
  unfold year_text. destruct y4 as [|a [|b [|c [|d [|x y4]]]]]; try discriminate.
  intros H Hp. rewrite !append_cons, append_nil_l. unfold year_here.
  fold (no_digit_ahead post). unfold no_digit_ahead in Hp |- *.
  rewrite H. destruct post as [|e post]; [reflexivity|]. now rewrite Hp.
Qed.

Lemma first_year_skips (pre rest : string) :
  digit_free pre = true -> first_year false (pre +:+ rest) = first_year false rest.
Proof.
  induction pre as [|c pre IH]; [now rewrite append_nil_l|].
  cbn [digit_free]. rewrite andb_true_iff, negb_true_iff. intros [Hc Hp].
  rewrite append_cons. cbn [first_year]. rewrite Hc.
  replace (year_here (String c (pre +:+ rest))) with (@None Z); [now apply IH|].
  unfold year_here. destruct (pre +:+ rest) as [|b [|c' [|d r]]]; try reflexivity.
  rewrite (not_digit_not c "1" Hc eq_refl), (not_digit_not c "2" Hc eq_refl).
  reflexivity.
Qed.

(** X19.  The year of a title is the first run of exactly four digits
    that starts with 19 or 20 and has no digit before or after it: the
    result is null or a year from 1900 to 2099; a title without a digit
    has no year; and where nothing but digit-free text precedes such a
    run, that run is the year. *)
Theorem extractYear_spec (title : string) :
  (extractYear title = VNull
   \/ exists y, extractYear title = VInt y /\ 1900 <= y <= 2099)
  /\ (digit_free title = true -> extractYear title = VNull)
  /\ (forall pre y4 post,
        title = pre +:+ y4 +:+ post ->
        digit_free pre = true -> year_text y4 = true -> no_digit_ahead post = true ->
        extractYear title = VInt (Z.of_N (digits_value 0 y4))).
Proof.
  unfold extractYear. split; [|split].
  - destruct (first_year false title) as [y|] eqn:E; [right | now left].
    exists y. split; [reflexivity|].
    revert E. generalize false. induction title as [|c title IH]; intros b; [discriminate|].
    cbn [first_year].
    destruct (if b then None else year_here (String c title)) as [y'|] eqn:Ey.
    + intros [= <-]. destruct b; [discriminate|]. now apply year_here_range in Ey.
    + apply IH.
  - intros H. rewrite <- (append_nil_r title), first_year_skips by exact H. reflexivity.
  - intros pre y4 post -> Hpre Hy Hpost. rewrite first_year_skips by exact Hpre.
    pose proof (year_here_text y4 post Hy Hpost) as Hh.
    destruct (y4 +:+ post) as [|c s] eqn:E; [discriminate Hh|].
    cbn [first_year]. now rewrite Hh.
Qed.

Lemma extractYear_spec_witness :
  extractYear "Blade Runner (1982) [4K]" = VInt 1982.
Proof.
  apply (proj2 (proj2 (extractYear_spec "Blade Runner (1982) [4K]"))
           "Blade Runner (" "1982" ") [4K]"); reflexivity.
Defined.

(** ** The routes of the server *)

Lemma strip_prefix_app (t s r : string) : strip_prefix t s = Some r -> s = t +:+ r.
Proof.
  revert s. induction t as [|a t IH]; intros s; cbn [strip_prefix].
  - intros [= ->]. now rewrite append_nil_l.
  - destruct s as [|b s]; [discriminate|].
    destruct (Ascii.eqb_spec a b) as [->|]; [|discriminate].
    intros H. rewrite append_cons. f_equal. now apply IH.
Qed.

Lemma strip_prefix_of_app (t r : string) : strip_prefix t (t +:+ r) = Some r.
Proof.
  induction t as [|a t IH]; [now rewrite append_nil_l|].
  rewrite append_cons. cbn [strip_prefix]. now rewrite Ascii.eqb_refl.
Qed.

Lemma prefix_of_app (t r : string) : String.prefix t (t +:+ r) = true.
Proof.
  induction t as [|a t IH]; [now destruct r|].
  rewrite append_cons. cbn [String.prefix].
  destruct (ascii_dec a a) as [_|C]; [exact IH | contradiction].
Qed.

Lemma prefix_app_l (t u r : string) : String.prefix t ((t +:+ u) +:+ r) = true.
Proof.
  induction t as [|a t IH]; [now destruct (_ +:+ _)|].
  rewrite !append_cons. cbn [String.prefix].
  destruct (ascii_dec a a) as [_|C]; [exact IH | contradiction].
Qed.

Lemma prefix_app_inv (t s : string) : String.prefix t s = true -> exists r, s = t +:+ r.
Proof.
  revert s. induction t as [|a t IH]; intros s; [exists s; now rewrite append_nil_l|].
  destruct s as [|b s]; [discriminate|]. cbn [String.prefix].
  destruct (ascii_dec a b) as [<-|]; [|discriminate].
  intros H. destruct (IH s H) as [r ->]. exists r. now rewrite append_cons.
Qed.

Lemma lit_app (t : string) (k : string -> bool) (s : string) :
  lit t k s = true -> exists r, s = t +:+ r.
Proof.
  unfold lit. destruct (strip_prefix t s) as [r|] eqn:E; [|discriminate].
  intros _. exists r. now apply strip_prefix_app.
Qed.

Lemma lit_of_app (t : string) (k : string -> bool) (r : string) :
  lit t k (t +:+ r) = k r.
Proof. unfold lit. now rewrite strip_prefix_of_app. Qed.

(** A run of digits that ends before something that is no digit is
    matched by [\d+] as a whole, when the rest of the pattern cannot
    begin with a digit. *)
Lemma digits_plus_run (k : string -> bool) (a rest : string) :
  number_text a = true -> no_digit_ahead rest = true ->
  (forall c s, is_digit c = true -> k (String c s) = false) ->
  digits_plus k (a +:+ rest) = k rest.
Proof.
  unfold number_text. rewrite andb_true_iff, negb_true_iff.
  intros [Ha Hne] Hrest Hk.
  destruct a as [|c a]; [discriminate|]. clear Hne.
  cbn [all_digits] in Ha. apply andb_true_iff in Ha as [Hc Ha].
  rewrite append_cons. cbn [digits_plus]. rewrite Hc. cbn [andb].
  clear c Hc. induction a as [|c a IH].
  - rewrite append_nil_l. destruct rest as [|e rest]; cbn [more_digits].
    + apply orb_false_r.
    + cbn [no_digit_ahead] in Hrest. apply negb_true_iff in Hrest. rewrite Hrest.
      apply orb_false_r.
  - cbn [all_digits] in Ha. apply andb_true_iff in Ha as [Hc Ha].
    rewrite append_cons. cbn [more_digits]. rewrite Hc, (Hk c _ Hc). cbn [orb andb].
    now apply IH.
Qed.

Lemma at_end_digit (c : ascii) (s : string) : at_end (String c s) = false.
Proof. reflexivity. Qed.

Lemma lit_slash_digit (t : string) (k : string -> bool) (c : ascii) (s : string) :
  is_digit c = true -> lit (String "/" t) k (String c s) = false.
Proof.
  intros Hc. unfold lit. cbn [strip_prefix].
  destruct (Ascii.eqb_spec "/" c) as [<-|]; [discriminate Hc | reflexivity].
Qed.

Ltac route_tests :=
  rewrite ?append_cons, ?append_nil_l;
  cbn [String.eqb Ascii.eqb Bool.eqb andb orb negb String.prefix];
  repeat match goal with
         | |- context [ascii_dec ?a ?b] =>
             let C := fresh in
             destruct (ascii_dec a b) as [C|C];
             [try discriminate C | try (exfalso; apply C; reflexivity)]
         end;
  cbn [String.eqb Ascii.eqb Bool.eqb andb orb negb String.prefix].

(** X20.  How the server routes.  No request reaches the handler of a
    movie by id: its pattern is tested after the test for the prefix
    [/v1/movie/], which every path of that pattern has.  A request that
    reaches a handler of the series routes is a GET for a path under
    [/v1/].  A GET for [/v1/series/N/season/N/episode/N],
    [/v1/series/N/season/N] or [/v1/series/N], each [N] one digit or
    more, reaches the handler of the episode, of the season and of the
    series. *)
Theorem dispatch_routes (req : request) :
  dispatch req <> HandleMovieById
  /\ (series_route (dispatch req) = true ->
      method req = "GET" /\ api_path req = true)
  /\ (forall a b c,
        method req = "GET" ->
        number_text a = true -> number_text b = true -> number_text c = true ->
        (pathname (url req) = "/v1/series/" +:+ a +:+ "/season/" +:+ b +:+ "/episode/" +:+ c ->
         dispatch req = HandleSeriesEpisode)
        /\ (pathname (url req) = "/v1/series/" +:+ a +:+ "/season/" +:+ b ->
            dispatch req = HandleSeriesSeason)
        /\ (pathname (url req) = "/v1/series/" +:+ a -> dispatch req = HandleSeriesById)).
Proof.
  split; [|split].
  - unfold dispatch. cbv zeta.
    repeat match goal with
           | |- (if ?b then _ else _) <> _ => destruct b eqn:?; [discriminate|]
           end.
    match goal with
    | |- (if movie_by_id_path ?p then _ else _) <> _ =>
        destruct (movie_by_id_path p) eqn:E
    end.
    + apply lit_app in E. destruct E as [rest E].
      match goal with H : String.prefix "/v1/movie/" _ = false |- _ =>
        rewrite E, prefix_of_app in H; discriminate H end.
    + repeat match goal with
             | |- (if ?b then _ else _) <> _ => destruct b eqn:?; [discriminate|]
             end.
      discriminate.
  - unfold dispatch, api_path.
    destruct (String.eqb (method req) "OPTIONS"); [discriminate|].
    destruct (String.eqb_spec (method req) "GET") as [Hm|]; [|discriminate].
    cbn [negb]. cbv zeta.
    repeat match goal with
           | |- series_route (if String.eqb ?p ?t then _ else _) = true -> _ =>
               destruct (String.eqb_spec p t) as [->|]; [try discriminate; now split|]
           | |- series_route (if String.prefix ?t ?p then _ else _) = true -> _ =>
               destruct (String.prefix t p) eqn:?; [try discriminate|]
           | |- series_route (if movie_by_id_path ?p then _ else _) = true -> _ =>
               destruct (movie_by_id_path p); [discriminate|]
           | |- series_route (if (_ || _) then _ else _) = true -> _ =>
               destruct (_ || _) eqn:?
           end.
    + intros _. split; [exact Hm|].
      match goal with H : (_ || _) = true |- _ =>
        apply orb_true_iff in H; destruct H as [H|H];
          apply String.eqb_eq in H; rewrite H; reflexivity end.
    + destruct (series_episode_path _) eqn:E.
      { intros _. split; [exact Hm|]. apply lit_app in E. destruct E as [rest ->].
        apply (prefix_app_l "/v1/" "series/"). }
      destruct (series_season_path _) eqn:E2.
      { intros _. split; [exact Hm|]. apply lit_app in E2. destruct E2 as [rest ->].
        apply (prefix_app_l "/v1/" "series/"). }
      destruct (String.prefix "/v1/series/" (pathname (url req))) eqn:E3.
      { intros _. split; [exact Hm|].
        apply prefix_app_inv in E3. destruct E3 as [rest ->].
        apply (prefix_app_l "/v1/" "series/"). }
      destruct (String.prefix "/3/" _); discriminate.
  - intros a b c Hm Ha Hb Hc.
    assert (Ha' : exists x a', a = String x a' /\ is_digit x = true).
    { unfold number_text in Ha. destruct a as [|x a']; [discriminate|].
      cbn [all_digits] in Ha. rewrite !andb_true_iff in Ha. destruct Ha as [[Hx _] _]. eauto. }
    destruct Ha' as (x & a' & Ea & Hx).
    assert (Hs : Ascii.eqb x "s" = false)
      by (destruct (Ascii.eqb_spec x "s") as [->|]; [discriminate Hx | reflexivity]).
    assert (Hrun : forall t k n rest,
              number_text n = true -> no_digit_ahead rest = true ->
              digits_plus (lit (String "/" t) k) (n +:+ rest) = lit (String "/" t) k rest)
      by (intros t k n rest Hn Hr; apply digits_plus_run;
          [exact Hn | exact Hr | intros; now apply lit_slash_digit]).
    assert (Hend : forall n, number_text n = true -> digits_plus at_end n = true).
    { intros n Hn. rewrite <- (append_nil_r n).
      rewrite digits_plus_run; [reflexivity | exact Hn | reflexivity | intros; apply at_end_digit]. }
    assert (Hmid : forall t k n, number_text n = true ->
              digits_plus (lit (String "/" t) k) n = false).
    { intros t k n Hn. rewrite <- (append_nil_r n).
      rewrite digits_plus_run;
        [reflexivity | exact Hn | reflexivity | intros; now apply lit_slash_digit]. }
    assert (Hstop : forall n rest, number_text n = true ->
              digits_plus at_end (n +:+ String "/" rest) = false).
    { intros n rest Hn.
      rewrite digits_plus_run; [reflexivity | exact Hn | reflexivity | intros; apply at_end_digit]. }
    unfold dispatch. rewrite Hm. cbn [String.eqb Ascii.eqb Bool.eqb andb negb]. cbv zeta.
    unfold series_episode_path, series_season_path.
    split; [|split]; intros ->; rewrite !lit_of_app.
    + rewrite Hrun by (assumption || reflexivity).
      rewrite lit_of_app.
      rewrite Hrun by (assumption || reflexivity).
      rewrite lit_of_app, (Hend c) by exact Hc.
      subst a. route_tests. now rewrite Hs.
    + rewrite !Hrun by (assumption || reflexivity).
      rewrite !lit_of_app.
      rewrite (Hmid _ _ b), (Hend b) by exact Hb.
      subst a. route_tests. now rewrite Hs.
    + rewrite !(Hmid _ _ a) by exact Ha.
      subst a. route_tests. now rewrite Hs.
Qed.

Lemma dispatch_routes_witness :
  dispatch season_one_request = HandleSeriesSeason
  /\ dispatch (mkRequest "GET" (mkURL "/v1/movie/27205/1" [])) <> HandleMovieById.
Proof.
  split.
  - apply (proj1 (proj2 (proj2 (proj2 (dispatch_routes season_one_request))
                           "1399" "1" "1" eq_refl eq_refl eq_refl eq_refl))).
    reflexivity.
  - apply (proj1 (dispatch_routes (mkRequest "GET" (mkURL "/v1/movie/27205/1" [])))).
Defined.

(** ** The episode handler answers with the guest stars of the season *)

Lemma readEpisode_found
    (sid sn en lang : jsval) (r : redis) (arr : list jsval) (i : nat) (episode : jsval) :
  down r = false ->
  list_at (episodes_key sid sn (lang_or_empty lang)) r = VArr arr ->
  wf_episodes arr ->
  index_of "episode_number" en arr = Some i ->
  arr !! i = Some episode ->
  readEpisode sid sn en lang r
  = (Ok (VObj [("series_id", sid);
               ("id", field episode "id");
               ("episode_id", field episode "id");
               ("episode_number", field episode "episode_number");
               ("name", field episode "name");
               ("overview", field episode "overview");
               ("still_path", field episode "still_path");
               ("air_date", field episode "air_date");
               ("vote_average", js_nullish (field episode "vote_average") (VInt 0));
               ("vote_count", js_nullish (field episode "vote_count") (VInt 0));
               ("guest_stars", VArr (map (read_guest sid) (season_guests arr)));
               ("updated_at", field episode "updated_at")]), r).
Proof.
  intros Hd Hl Hwf Hi Hat.
  pose proof (wf_objects _ Hwf) as Ho.
  assert (Hep : is_object episode = true).
  { unfold objects in Ho. rewrite Forall_forall in Ho. apply Ho.
    eapply list_elem_of_lookup_2; eassumption. }
  assert (Hfirst : first SQL_readEpisode [sid; lang; sn; en] r = (Ok episode, r)).
  { rewrite first_readEpisode. unfold try_catch, first_episode, bind. cbn [param nth].
    rewrite cacheGet_up by exact Hd.
    change (js_or (stored _ r) (VArr [])) with
      (list_at (episodes_key sid sn (lang_or_empty lang)) r).
    rewrite Hl. cbn [as_array lift].
    rewrite (find_index_of _ _ _ (objects_nullish _ Ho)), Hi, Hat.
    change (default VUndef (Some episode)) with episode.
    unfold ret, js_or. destruct episode; try discriminate Hep. reflexivity. }
  assert (Hall : all SQL_readEpisodeGuests [sid; lang; sn; field episode "episode_number"] r
                 = (Ok (results (VArr (flat_map (fun e => map (guest_row_of e)
                                          (array_items (guests_of e))) arr))), r)).
  { rewrite all_readEpisodeGuests. unfold try_catch, all_guests, bind. cbn [param nth].
    rewrite cacheGet_up by exact Hd.
    change (js_or (stored _ r) (VArr [])) with
      (list_at (episodes_key sid sn (lang_or_empty lang)) r).
    rewrite Hl. unfold lift. now rewrite (flatten_guests_wf arr Hwf). }
  unfold readEpisode, bind. rewrite Hfirst.
  replace (truthy episode) with true by (destruct episode; try discriminate Hep; reflexivity).
  cbn [negb]. rewrite Hall.
  cbn [results field obj_lookup String.eqb Ascii.eqb Bool.eqb andb].
  change (default VUndef (Some (VArr ?l))) with (VArr l).
  cbn [js_or truthy as_array lift].
  rewrite mapO_guest_payload_rows. reflexivity.
Qed.

Lemma handleSeriesEpisode_record (cmp : string -> string -> Z) (env : Env) (now : Z)
    (tmdb : outcome jsval) (req : request) (r : redis) :
  episode_request req = true ->
  episode_usable now (cached_episode req r) = true ->
  handleSeriesEpisode cmp env now tmdb req r
  = (Ok (jsonResponse RecordStore (without_field "updated_at" (cached_episode req r))), r).
Proof.
  intros Hreq Hu. destruct (episode_request_inv req Hreq) as (Hm & H1 & H2 & H3).
  unfold handleSeriesEpisode.
  fold (request_series req). fold (request_season req). fold (request_episode req).
  fold (request_language req).
  rewrite Hm, H1, H2, H3. cbn [negb orb].
  unfold bind at 1. rewrite cached_episode_read.
  change (truthy (cached_episode req r) && _) with (episode_usable now (cached_episode req r)).
  now rewrite Hu.
Qed.

Lemma fresh_of_int (now t : Z) (row : jsval) :
  field row "updated_at" = VInt t ->
  num_leb (age_seconds now row) (Int CACHE_INTERVAL_SECONDS)
  = (now - t <=? CACHE_INTERVAL_SECONDS).
Proof.
  intros H. rewrite (age_of_int now t row H). unfold num_leb, Int.
  rewrite pow10_0. f_equal; lia.
Qed.

(** X21.  An episode is answered from the record store with the guest
    stars of its whole season.  On a working backend whose episode list
    for the season is well formed, a request for an episode that is in
    the list and not older than thirty days is answered from the record
    store as soon as any episode of the season has a guest star; the
    answer carries the guest stars of every episode of the season, in
    list order, and no time stamp. *)
Theorem episode_answer_season_guests
    (localeCompare : string -> string -> Z) (env : Env) (now : Z)
    (tmdb : outcome jsval) (req : request) (r : redis)
    (arr : list jsval) (i : nat) (episode : jsval) (t : Z) :
  episode_request req = true ->
  down r = false ->
  list_at (episodes_key (VNum (request_series req)) (VNum (request_season req))
             (lang_or_empty (request_language req))) r = VArr arr ->
  wf_episodes arr ->
  index_of "episode_number" (VNum (request_episode req)) arr = Some i ->
  arr !! i = Some episode ->
  field episode "updated_at" = VInt t ->
  now - t <= CACHE_INTERVAL_SECONDS ->
  season_guests arr <> [] ->
  exists body,
    handleSeriesEpisode localeCompare env now tmdb req r
    = (Ok (jsonResponse RecordStore body), r)
    /\ field body "id" = field episode "id"
    /\ field body "guest_stars"
       = VArr (map (read_guest (VNum (request_series req))) (season_guests arr))
    /\ field body "updated_at" = VUndef.
Proof.
  intros Hreq Hd Hl Hwf Hi Hat Ht Hage Hguests.
  pose proof (readEpisode_found _ _ _ _ r arr i episode Hd Hl Hwf Hi Hat) as Hread.
  assert (Hc : cached_episode req r
               = VObj [("series_id", VNum (request_series req));
                       ("id", field episode "id");
                       ("episode_id", field episode "id");
                       ("episode_number", field episode "episode_number");
                       ("name", field episode "name");
                       ("overview", field episode "overview");
                       ("still_path", field episode "still_path");
                       ("air_date", field episode "air_date");
                       ("vote_average", js_nullish (field episode "vote_average") (VInt 0));
                       ("vote_count", js_nullish (field episode "vote_count") (VInt 0));
                       ("guest_stars",
                        VArr (map (read_guest (VNum (request_series req)))
                                (season_guests arr)));
                       ("updated_at", field episode "updated_at")]).
  { unfold cached_episode. now rewrite Hread. }
  eexists. split.
  - apply handleSeriesEpisode_record; [exact Hreq|].
    rewrite Hc. unfold episode_usable. cbn [truthy andb].
    rewrite (fresh_of_int now t) by (cbn; exact Ht).
    replace (now - t <=? CACHE_INTERVAL_SECONDS) with true
      by (symmetry; apply Z.leb_le; exact Hage).
    cbn [andb]. unfold hasGuestStars.
    cbn [field obj_lookup String.eqb Ascii.eqb Bool.eqb andb default].
    destruct (season_guests arr); [contradiction | reflexivity].
  - rewrite Hc. split; [reflexivity|]. split; reflexivity.
Qed.

Lemma episode_answer_season_guests_witness :
  exists body,
    handleSeriesEpisode compare_code_units no_settings 1700000600 (Throw FetchError)
      pilot_request two_episode_store
    = (Ok (jsonResponse RecordStore body), two_episode_store)
    /\ map (fun g => field g "name") (array_items (field body "guest_stars"))
       = [VStr "Jason Momoa"; VStr "Emilia Clarke"].
Proof.
  set (arr := array_items (list_at (episodes_key (VInt 1399) (VInt 1) (VStr "en"))
                             two_episode_store)).
  destruct (episode_answer_season_guests compare_code_units no_settings 1700000600
              (Throw FetchError) pilot_request two_episode_store arr 0 (nth 0 arr VUndef)
              1700000000)
    as (body & Hrun & _ & Hg & _).
  - vm_compute. reflexivity.
  - vm_compute. reflexivity.
  - vm_compute. reflexivity.
  - apply wf_episodes_check. vm_compute. reflexivity.
  - vm_compute. reflexivity.
  - vm_compute. reflexivity.
  - vm_compute. reflexivity.
  - vm_compute. discriminate.
  - vm_compute. discriminate.
  - exists body. split; [exact Hrun|]. rewrite Hg. vm_compute. reflexivity.
Defined.
